(** * Flask blog application: the model layer and the request handlers

    A shallow embedding of [models/blog.py] and [app.py] and the proofs of
    the properties their specification states.

    Python strings are sequences of code points.  The embedding works on
    the code points U+0000 to U+00FF (the type [ascii] of the Standard
    Library, 256 characters); the character tables below ([isspace],
    [lower], [isword], [isdecimal]) are Python's for that block.  Python
    integers are unbounded and are modelled by [Z]. *)

From Stdlib Require Import Ascii String.
From Stdlib Require Import List Bool ZArith NArith Lia.
From Stdlib Require Import Permutation Sorted.
Import ListNotations.

Open Scope Z_scope.

(* ================================================================== *)
(** * Definitions *)
(* ================================================================== *)

(** ** Python strings *)

Module PyStr.

Definition str := list ascii.

(** A string literal as a list of characters. *)
Definition lit (s : string) : str := list_ascii_of_string s.
Arguments lit s%_string.

Definition len (s : str) : Z := Z.of_nat (length s).

Definition code (c : ascii) : N := N_of_ascii c.

Definition in_range (lo hi : N) (c : ascii) : bool :=
  ((lo <=? code c) && (code c <=? hi))%N.

(** [str.isspace] on one character, also the class [\s] of [re] and the
    separator test of [str.split()] without argument:
    TAB LF VT FF CR, FS GS RS US, SPACE, NEL (U+0085), NBSP (U+00A0). *)
Definition isspace (c : ascii) : bool :=
  in_range 9 13 c || in_range 28 32 c || (code c =? 133)%N || (code c =? 160)%N.

(** The class [\d] of [re] on a [str] pattern: the decimal digits. *)
Definition isdecimal (c : ascii) : bool := in_range 48 57 c.

Definition isupper_ascii (c : ascii) : bool := in_range 65 90 c.
Definition islower_ascii (c : ascii) : bool := in_range 97 122 c.

(** The class [\w] of [re] on a [str] pattern: [str.isalnum] or the
    underscore.  In this block: the ASCII letters and digits, [_], the
    ordinal indicators U+00AA and U+00BA, MICRO SIGN U+00B5, the
    superscripts U+00B2 U+00B3 U+00B9, the fractions U+00BC..U+00BE and
    the letters U+00C0..U+00FF except the signs U+00D7 and U+00F7. *)
Definition isword (c : ascii) : bool :=
  isdecimal c || isupper_ascii c || islower_ascii c || (code c =? 95)%N
  || (code c =? 170)%N || (code c =? 178)%N || (code c =? 179)%N
  || (code c =? 181)%N || (code c =? 185)%N || (code c =? 186)%N
  || in_range 188 190 c
  || in_range 192 214 c || in_range 216 246 c || in_range 248 255 c.

(** [str.lower] on one character: A..Z and the capital letters
    U+00C0..U+00DE (except U+00D7) move up by 32. *)
Definition lower_char (c : ascii) : ascii :=
  if isupper_ascii c || in_range 192 214 c || in_range 216 222 c
  then ascii_of_N (code c + 32) else c.

Definition lower (s : str) : str := map lower_char s.

(** [s[:n]] *)
Definition slice_to (s : str) (n : Z) : str :=
  if n <? 0 then firstn (Z.to_nat (Z.max 0 (len s + n))) s
  else firstn (Z.to_nat n) s.

(** [s.find(c)] for a one-character [c], counting from [i]. *)
Fixpoint find_from (s : str) (c : ascii) (i : Z) : Z :=
  match s with
  | [] => -1
  | x :: s' => if Ascii.eqb x c then i else find_from s' c (i + 1)
  end.

(** [s.rfind(c)] for a one-character [c]: the scan starts at the right
    end; -1 when [c] does not occur. *)
Definition rfind (s : str) (c : ascii) : Z :=
  let k := find_from (rev s) c 0 in
  if k <? 0 then -1 else len s - 1 - k.

(** [s.split()]: the maximal runs of characters that are not white space.
    [cur] holds the run being read, last character first. *)
Fixpoint split_ws_acc (s : str) (cur : str) : list str :=
  match s with
  | [] => match cur with [] => [] | _ => [rev cur] end
  | c :: s' =>
      if isspace c
      then match cur with
           | [] => split_ws_acc s' []
           | _ => rev cur :: split_ws_acc s' []
           end
      else split_ws_acc s' (c :: cur)
  end.

Definition split_ws (s : str) : list str := split_ws_acc s [].

(** [s.strip()] *)
Fixpoint lstrip (s : str) : str :=
  match s with
  | c :: s' => if isspace c then lstrip s' else s
  | [] => []
  end.

Definition strip (s : str) : str := rev (lstrip (rev (lstrip s))).

(** [sep.join(parts)] *)
Fixpoint join (sep : str) (parts : list str) : str :=
  match parts with
  | [] => []
  | [p] => p
  | p :: ps => p ++ sep ++ join sep ps
  end.

(** [s.split(sep)] for a one-character separator: every occurrence
    splits, empty fields are kept, so the result is never empty. *)
Fixpoint split_on (sep : ascii) (s : str) : list str :=
  match s with
  | [] => [[]]
  | c :: s' =>
      if Ascii.eqb c sep then [] :: split_on sep s'
      else match split_on sep s' with
           | f :: fs => (c :: f) :: fs
           | [] => [[c]]
           end
  end.

Definition str_eqb (a b : str) : bool :=
  if list_eq_dec ascii_dec a b then true else false.

End PyStr.

Import PyStr.

(** ** Exceptions *)

Inductive exn : Type :=
| ValueError
| OverflowError
| IntegrityError
| OperationalError.

(** The outcome of a Python expression: a value, or a raised exception. *)
Definition result (A : Type) : Type := (exn + A)%type.

Definition ret {A} (a : A) : result A := inr a.
Definition raise {A} (e : exn) : result A := inl e.
Definition bind {A B} (r : result A) (k : A -> result B) : result B :=
  match r with
  | inl e => inl e
  | inr a => k a
  end.

Declare Scope result_scope.
Delimit Scope result_scope with result.
Notation "x <- r ;; k" := (bind r (fun x => k))
  (at level 61, r at next level, right associativity) : result_scope.

(** ** [int], [datetime], [strftime] and [strptime] *)

Module Datetime.

Local Open Scope result_scope.

(** The white space [int()] skips at both ends of its argument. *)
Definition int_space (c : ascii) : bool :=
  in_range 9 13 c || (code c =? 32)%N || (code c =? 133)%N || (code c =? 160)%N.

Definition digit_value (c : ascii) : Z := Z.of_N (code c) - 48.

Inductive scan_state : Type := AtStart | AfterDigit | AfterUnderscore.

(** The digits of [int()]: decimal digits, single underscores between
    them.  Returns the value, the number of digits, and what follows. *)
Fixpoint scan_digits (s : str) (acc : Z) (digits : nat) (prev : scan_state)
  : option (Z * nat * str) :=
  let stop :=
    match prev with
    | AfterDigit => Some (acc, digits, s)
    | _ => None
    end in
  match s with
  | [] => stop
  | c :: s' =>
      if isdecimal c
      then scan_digits s' (10 * acc + digit_value c) (S digits) AfterDigit
      else if Ascii.eqb c "_"%char
      then match prev with
           | AfterDigit => scan_digits s' acc digits AfterUnderscore
           | _ => None
           end
      else stop
  end.

Fixpoint skip (p : ascii -> bool) (s : str) : str :=
  match s with
  | c :: s' => if p c then skip p s' else s
  | [] => []
  end.

(** The default of [sys.get_int_max_str_digits()]. *)
Definition int_max_str_digits : nat := 4300.

(** [int(s)] for a string [s] *)
Definition int (s : str) : result Z :=
  let s := skip int_space s in
  let '(negative, s) :=
    match s with
    | "-"%char :: s' => (true, s')
    | "+"%char :: s' => (false, s')
    | _ => (false, s)
    end in
  match scan_digits s 0 0 AtStart with
  | None => raise ValueError
  | Some (v, digits, rest) =>
      if (int_max_str_digits <? digits)%nat then raise ValueError
      else match skip int_space rest with
           | [] => ret (if negative then - v else v)
           | _ => raise ValueError
           end
  end.

(** A [datetime] at midnight: the date fields. *)
Record datetime : Type := mk_datetime { year : Z; month : Z; day : Z }.

Definition is_leap (y : Z) : bool :=
  (y mod 4 =? 0) && (negb (y mod 100 =? 0) || (y mod 400 =? 0)).

Definition days_in_month (y m : Z) : Z :=
  if m =? 2 then (if is_leap y then 29 else 28)
  else if (m =? 4) || (m =? 6) || (m =? 9) || (m =? 11) then 30
  else 31.

Definition valid_date (y m d : Z) : bool :=
  (1 <=? y) && (y <=? 9999) && (1 <=? m) && (m <=? 12)
  && (1 <=? d) && (d <=? days_in_month y m).

(** The arguments of [datetime] are converted to C integers. *)
Definition fits_int (z : Z) : bool := (- 2 ^ 31 <=? z) && (z <? 2 ^ 31).

(** [datetime(year, month, day)] *)
Definition new (y m d : Z) : result datetime :=
  if negb (fits_int y && fits_int m && fits_int d) then raise OverflowError
  else if valid_date y m d then ret (mk_datetime y m d)
  else raise ValueError.

Definition digit_char (n : Z) : ascii := ascii_of_N (48 + Z.to_N (n mod 10)).

(** [%d] and [%m]: two digits. *)
Definition pad2 (n : Z) : str := [digit_char (n / 10); digit_char n].

(** Four digits: the form [YYYY] of a year. *)
Definition pad4 (n : Z) : str :=
  [digit_char (n / 1000); digit_char (n / 100); digit_char (n / 10);
   digit_char n].

(** [%Y] of [strftime].  [datetime.strftime] hands the format to the
    [strftime] of the C library, which writes the year in decimal and
    does not pad it: the year 999 gives three digits, not ["0999"].
    Years are from 1 to 9999. *)
Definition year_digits (n : Z) : str :=
  if n <? 10 then [digit_char n]
  else if n <? 100 then pad2 n
  else if n <? 1000 then [digit_char (n / 100); digit_char (n / 10); digit_char n]
  else pad4 n.

(** [%B] *)
Definition month_name (m : Z) : str :=
  nth (Z.to_nat (m - 1))
    (map lit ["January"; "February"; "March"; "April"; "May"; "June"; "July";
              "August"; "September"; "October"; "November"; "December"]%string)
    [].

(** [strftime('%d-%m-%Y')] *)
Definition strftime_dmY (t : datetime) : str :=
  pad2 (day t) ++ lit "-" ++ pad2 (month t) ++ lit "-" ++ year_digits (year t).

(** [strftime('%B %d, %Y')] *)
Definition strftime_BdY (t : datetime) : str :=
  month_name (month t) ++ lit " " ++ pad2 (day t) ++ lit ", "
  ++ year_digits (year t).

(** The parts of a [strptime] format. *)
Inductive directive : Type :=
| DY                    (* %Y *)
| Dm                    (* %m *)
| Dd                    (* %d *)
| Lit (c : ascii).

(** ['%Y-%m-%d'], ['%d-%m-%Y'] and ['%m/%d/%Y'] *)
Definition fmt_Ymd : list directive := [DY; Lit "-"; Dm; Lit "-"; Dd].
Definition fmt_dmY : list directive := [Dd; Lit "-"; Dm; Lit "-"; DY].
Definition fmt_mdY : list directive := [Dm; Lit "/"; Dd; Lit "/"; DY].

(** One alternative of a directive's regular expression: one or two
    character classes. *)
Definition one (p : ascii -> bool) (s : str) : list (str * str) :=
  match s with
  | c :: r => if p c then [([c], r)] else []
  | [] => []
  end.

Definition two (p q : ascii -> bool) (s : str) : list (str * str) :=
  match s with
  | c :: d :: r => if p c && q d then [([c; d], r)] else []
  | _ => []
  end.

Definition is_char (x : ascii) (c : ascii) : bool := Ascii.eqb c x.

(** The regular expression of a directive, as [_strptime] builds it; the
    result lists, in the order of the alternatives, the text each one
    matches and the text that is left.
    - [%Y]: [\d\d\d\d]
    - [%m]: [1[0-2]|0[1-9]|[1-9]]
    - [%d]: [3[0-1]|[1-2]\d|0[1-9]|[1-9]| [1-9]] *)
Definition match_directive (d : directive) (s : str) : list (str * str) :=
  match d with
  | DY =>
      match s with
      | a :: b :: c :: e :: r =>
          if isdecimal a && isdecimal b && isdecimal c && isdecimal e
          then [([a; b; c; e], r)] else []
      | _ => []
      end
  | Dm =>
      two (is_char "1") (in_range 48 50) s
      ++ two (is_char "0") (in_range 49 57) s
      ++ one (in_range 49 57) s
  | Dd =>
      two (is_char "3") (in_range 48 49) s
      ++ two (in_range 49 50) isdecimal s
      ++ two (is_char "0") (in_range 49 57) s
      ++ one (in_range 49 57) s
      ++ two (is_char " ") (in_range 49 57) s
  | Lit x => match s with
             | c :: r => if Ascii.eqb c x then [([], r)] else []
             | [] => []
             end
  end.

(** The groups found so far: the texts of [%Y], [%m] and [%d]. *)
Record groups : Type := mk_groups { gY : str; gm : str; gd : str }.

Definition set_group (d : directive) (text : str) (g : groups) : groups :=
  match d with
  | DY => mk_groups text (gm g) (gd g)
  | Dm => mk_groups (gY g) text (gd g)
  | Dd => mk_groups (gY g) (gm g) text
  | Lit _ => g
  end.

(** All the ways the format matches a prefix of [s], the one the
    backtracking search finds first at the head. *)
Fixpoint matches (fmt : list directive) (g : groups) (s : str)
  : list (groups * str) :=
  match fmt with
  | [] => [(g, s)]
  | d :: fmt' =>
      flat_map (fun '(text, rest) => matches fmt' (set_group d text g) rest)
               (match_directive d s)
  end.

(** [datetime.strptime(data_string, format)] *)
Definition strptime (data_string : str) (format : list directive)
  : result datetime :=
  match matches format (mk_groups [] [] []) data_string with
  | [] => raise ValueError           (* does not match the format *)
  | (_, _ :: _) :: _ => raise ValueError   (* unconverted data remains *)
  | (found, []) :: _ =>
      y <- int (gY found) ;;
      m <- int (gm found) ;;
      d <- int (gd found) ;;
      new y m d
  end.

End Datetime.

(** ** The two uses of [re.sub] *)

Module Re.

(** [re.sub('[...]', repl, s)] for a class of single characters: every
    character of the class is replaced. *)
Fixpoint sub_each (cls : ascii -> bool) (repl : str) (s : str) : str :=
  match s with
  | [] => []
  | c :: s' =>
      if cls c then repl ++ sub_each cls repl s' else c :: sub_each cls repl s'
  end.

(** [re.sub('[...]+', repl, s)]: every maximal run of characters of the
    class is replaced once.  [in_run] tells that the previous character
    was of the class, so that the run has been replaced already. *)
Fixpoint sub_runs (cls : ascii -> bool) (repl : str) (in_run : bool) (s : str)
  : str :=
  match s with
  | [] => []
  | c :: s' =>
      if cls c
      then (if in_run then sub_runs cls repl true s'
            else repl ++ sub_runs cls repl true s')
      else c :: sub_runs cls repl false s'
  end.

(** The class [[^\w\s-]]. *)
Definition not_word_space_hyphen (c : ascii) : bool :=
  negb (isword c || isspace c || Ascii.eqb c "-"%char).

(** The class [[-\s]]. *)
Definition hyphen_or_space (c : ascii) : bool :=
  Ascii.eqb c "-"%char || isspace c.

(** Regular expressions without groups, for the patterns that are only
    tested for a match. *)
Inductive regex : Type :=
| Never
| Eps
| Cls (p : ascii -> bool)
| Cat (r1 r2 : regex)
| Alt (r1 r2 : regex)
| Star (r : regex).

Fixpoint nullable (r : regex) : bool :=
  match r with
  | Never => false
  | Eps => true
  | Cls _ => false
  | Cat r1 r2 => nullable r1 && nullable r2
  | Alt r1 r2 => nullable r1 || nullable r2
  | Star _ => true
  end.

Definition cat (r1 r2 : regex) : regex :=
  match r1, r2 with
  | Never, _ => Never
  | _, Never => Never
  | _, _ => Cat r1 r2
  end.

Definition alt (r1 r2 : regex) : regex :=
  match r1, r2 with
  | Never, _ => r2
  | _, Never => r1
  | _, _ => Alt r1 r2
  end.

(** What is left of [r] once the character [c] is read. *)
Fixpoint deriv (c : ascii) (r : regex) : regex :=
  match r with
  | Never => Never
  | Eps => Never
  | Cls p => if p c then Eps else Never
  | Cat r1 r2 =>
      alt (cat (deriv c r1) r2) (if nullable r1 then deriv c r2 else Never)
  | Alt r1 r2 => alt (deriv c r1) (deriv c r2)
  | Star r1 => cat (deriv c r1) (Star r1)
  end.

(** The whole of [s] matches [r]. *)
Definition fullmatch (r : regex) (s : str) : bool :=
  nullable (fold_left (fun r c => deriv c r) s r).

Definition plus (r : regex) : regex := Cat r (Star r).

(** [r{2,}] *)
Definition at_least_two (r : regex) : regex := Cat r (Cat r (Star r)).

(** [$] at the end of a pattern: the end of the string, or the line feed
    that ends the string. *)
Definition dollar : regex := Alt Eps (Cls (fun c => (code c =? 10)%N)).

Fixpoint seq (rs : list regex) : regex :=
  match rs with
  | [] => Eps
  | [r] => r
  | r :: rs' => Cat r (seq rs')
  end.

Definition ascii_letter (c : ascii) : bool := islower_ascii c || isupper_ascii c.
Definition ascii_alnum (c : ascii) : bool := ascii_letter c || isdecimal c.
Definition one_of (chars : string) (c : ascii) : bool :=
  existsb (Ascii.eqb c) (list_ascii_of_string chars).

End Re.

(** ** [models/blog.py]: the columns of the two tables *)

Module AuthorRow.

Record t : Type := mk {
  id : Z;
  name : str;
  email : str;
  bio : option str;
  avatar_url : option str;
  created_at : Z;
  updated_at : Z
}.

Definition set_name (n : str) (now : Z) (a : t) : t :=
  mk (id a) n (email a) (bio a) (avatar_url a) (created_at a) now.

(** The row as the INSERT stores it. *)
Definition stored (new_id now : Z) (a : t) : t :=
  mk new_id (name a) (email a) (bio a) (avatar_url a) now now.

End AuthorRow.

Module BlogRow.

Record t : Type := mk {
  id : Z;
  title : str;
  content : str;
  date : str;
  slug : str;
  excerpt : str;
  featured : bool;
  published : bool;
  view_count : Z;
  like_count : Z;
  created_at : Z;
  updated_at : Z;
  author_id : Z
}.

Definition set_view_count (v now : Z) (b : t) : t :=
  mk (id b) (title b) (content b) (date b) (slug b) (excerpt b) (featured b)
     (published b) v (like_count b) (created_at b) now (author_id b).

Definition set_like_count (v now : Z) (b : t) : t :=
  mk (id b) (title b) (content b) (date b) (slug b) (excerpt b) (featured b)
     (published b) (view_count b) v (created_at b) now (author_id b).

Definition set_excerpt (e : str) (b : t) : t :=
  mk (id b) (title b) (content b) (date b) (slug b) e (featured b)
     (published b) (view_count b) (like_count b) (created_at b) (updated_at b)
     (author_id b).

(** The row as the INSERT stores it: the counters take their default 0. *)
Definition stored (new_id now : Z) (b : t) : t :=
  mk new_id (title b) (content b) (date b) (slug b) (excerpt b) (featured b)
     (published b) 0 0 now now (author_id b).

End BlogRow.

(** ** The store and the session of [utils/db.py] *)

Module Db.

(** The two tables, each in the order of its row ids. *)
Record db : Type := mk_db {
  authors : list AuthorRow.t;
  blogs : list BlogRow.t
}.

(** [db.session]: what is committed, and what the open transaction sees. *)
Record session : Type := mk_session {
  committed : db;
  working : db
}.

Definition begin (d : db) : session := mk_session d d.

(** A statement that reads or writes the session and may raise. *)
Definition M (A : Type) : Type := session -> result A * session.

Definition mret {A} (a : A) : M A := fun s => (inr a, s).
Definition mbind {A B} (m : M A) (k : A -> M B) : M B :=
  fun s => match m s with
           | (inl e, s') => (inl e, s')
           | (inr a, s') => k a s'
           end.
Definition lift {A} (r : result A) : M A := fun s => (r, s).

(** [try: body except Exception as e: handler] *)
Definition try_except {A} (body : M A) (handler : exn -> M A) : M A :=
  fun s => match body s with
           | (inl e, s') => handler e s'
           | (inr a, s') => (inr a, s')
           end.

Definition query {A} (q : db -> A) : M A := fun s => (inr (q (working s)), s).

(** [db.session.commit()] *)
Definition commit : M unit :=
  fun s => (inr tt, mk_session (working s) (working s)).

(** [db.session.rollback()] *)
Definition rollback : M unit :=
  fun s => (inr tt, mk_session (committed s) (committed s)).

(** The row id SQLite gives to a new row: one more than the largest in
    use, 1 in an empty table. *)
Definition next_id (ids : list Z) : Z := 1 + fold_right Z.max 0 ids.

(** [db.session.add(author)], together with the INSERT that the flush of
    the following [commit()] issues: the e-mail address is unique, and
    the row gets its id. *)
Definition add_author (a : AuthorRow.t) (now : Z) : M AuthorRow.t :=
  fun s =>
    let d := working s in
    if existsb (fun x => str_eqb (AuthorRow.email x) (AuthorRow.email a))
               (authors d)
    then (inl IntegrityError, s)
    else
      let row := AuthorRow.stored (next_id (map AuthorRow.id (authors d))) now a in
      (inr row,
       mk_session (committed s) (mk_db (authors d ++ [row]) (blogs d))).

(** [db.session.add(blog)], together with the INSERT that the flush of
    the following [commit()] issues: the slug is unique, the author
    exists (foreign keys are on), and the row gets its id. *)
Definition add_blog (b : BlogRow.t) (now : Z) : M BlogRow.t :=
  fun s =>
    let d := working s in
    if existsb (fun x => str_eqb (BlogRow.slug x) (BlogRow.slug b)) (blogs d)
       || negb (existsb (fun a => AuthorRow.id a =? BlogRow.author_id b)
                        (authors d))
    then (inl IntegrityError, s)
    else
      let row := BlogRow.stored (next_id (map BlogRow.id (blogs d))) now b in
      (inr row,
       mk_session (committed s) (mk_db (authors d) (blogs d ++ [row]))).

(** An attribute assignment on the rows with the given id, as the next
    flush writes it. *)
Definition update_author (aid : Z) (f : AuthorRow.t -> AuthorRow.t) : M unit :=
  fun s =>
    let d := working s in
    (inr tt,
     mk_session (committed s)
       (mk_db (map (fun a => if AuthorRow.id a =? aid then f a else a)
                   (authors d))
              (blogs d))).

Definition update_blog (bid : Z) (f : BlogRow.t -> BlogRow.t) : M unit :=
  fun s =>
    let d := working s in
    (inr tt,
     mk_session (committed s)
       (mk_db (authors d)
              (map (fun b => if BlogRow.id b =? bid then f b else b)
                   (blogs d)))).

(** A request runs in a session of its own; what it has not committed
    is gone when the session is removed. *)
Definition run_request {A} (handler : M A) (d : db) : result A * db :=
  let '(r, s) := handler (begin d) in (r, committed s).

(** *** Queries *)

(** [ORDER BY].  The statement fixes the order of rows with different
    keys only; the order of rows with equal keys is the engine's, and
    changes with the way it reads the table.  The function gives one of
    the results that the statement allows: the rows are inserted one by
    one, each before the first row that does not come before it. *)
Fixpoint insert_sorted {A} (leb : A -> A -> bool) (x : A) (l : list A) : list A :=
  match l with
  | [] => [x]
  | y :: l' => if leb x y then x :: l else y :: insert_sorted leb x l'
  end.

Definition order_by {A} (leb : A -> A -> bool) (rows : list A) : list A :=
  fold_right (insert_sorted leb) [] rows.

(** [LIMIT n] *)
Definition limit {A} (n : nat) (rows : list A) : list A := firstn n rows.

(** The comparison of two texts: character by character, by code. *)
Fixpoint str_leb (a b : str) : bool :=
  match a, b with
  | [], _ => true
  | _ :: _, [] => false
  | x :: a', y :: b' =>
      if (code x <? code y)%N then true
      else if (code y <? code x)%N then false
      else str_leb a' b'
  end.

(** [LIKE] does not distinguish the case of the letters A to Z. *)
Definition like_fold (c : ascii) : ascii :=
  if isupper_ascii c then ascii_of_N (code c + 32) else c.

(** The comparison of a text with a pattern of [LIKE]: [%] stands for
    any text, [_] for any one character. *)
Fixpoint pattern_compare (pattern : str) (text : str) : bool :=
  match pattern with
  | [] => match text with [] => true | _ => false end
  | p :: pattern' =>
      if Ascii.eqb p "%"%char
      then (fix any (t : str) : bool :=
              pattern_compare pattern' t
              || match t with
                 | [] => false
                 | _ :: t' => any t'
                 end) text
      else match text with
           | [] => false
           | c :: text' =>
               (Ascii.eqb p "_"%char || Ascii.eqb (like_fold p) (like_fold c))
               && pattern_compare pattern' text'
           end
  end.

(** What the comparison reads of a text: the characters before its first
    U+0000, which ends the text for the engine. *)
Fixpoint c_string (s : str) : str :=
  match s with
  | [] => []
  | c :: s' => if (code c =? 0)%N then [] else c :: c_string s'
  end.

(** The number of bytes of a text in UTF-8: one for a character below
    U+0080, two for the others of the alphabet. *)
Fixpoint utf8_bytes (s : str) : Z :=
  match s with
  | [] => 0
  | c :: s' => (if (code c <? 128)%N then 1 else 2) + utf8_bytes s'
  end.

(** The longest pattern of [LIKE] that the engine takes, in bytes. *)
Definition like_pattern_limit : Z := 50000.

(** [text LIKE pattern].  The engine refuses a pattern of more than
    [like_pattern_limit] bytes with the error "LIKE or GLOB pattern too
    complex", which reaches Python as [OperationalError]; otherwise it
    compares the pattern and the text, each up to its first U+0000. *)
Definition like (pattern : str) (text : str) : result bool :=
  if utf8_bytes pattern >? like_pattern_limit then raise OperationalError
  else ret (pattern_compare (c_string pattern) (c_string text)).

(** [column.contains(other)]: [column LIKE '%' || other || '%'] *)
Definition contains (column other : str) : result bool :=
  like (lit "%" ++ other ++ lit "%") column.

(** A [WHERE] clause that can raise, over the rows that the statement
    reads, in their order: the first error ends the statement. *)
Fixpoint where_ {A} (criterion : A -> result bool) (rows : list A)
  : result (list A) :=
  match rows with
  | [] => ret []
  | row :: rows' =>
      (keep <- criterion row ;;
       rest <- where_ criterion rows' ;;
       ret (if keep then row :: rest else rest))%result
  end.

(** [EXISTS (SELECT 1 FROM ... WHERE criterion)] over the rows given. *)
Fixpoint exists_ {A} (criterion : A -> result bool) (rows : list A)
  : result bool :=
  match rows with
  | [] => ret false
  | row :: rows' =>
      (found <- criterion row ;;
       if found then ret true else exists_ criterion rows')%result
  end.

(** [Blog.query.join(Author)]: every blog with each author row whose id
    is the blog's [author_id]. *)
Definition join_author (d : db) (rows : list BlogRow.t)
  : list (BlogRow.t * AuthorRow.t) :=
  flat_map (fun b =>
              map (fun a => (b, a))
                  (filter (fun a => AuthorRow.id a =? BlogRow.author_id b)
                          (authors d)))
           rows.

(** [Blog.author.has(criterion)]: the criterion is evaluated on the
    author rows whose id is the blog's [author_id]. *)
Definition author_has (d : db) (criterion : AuthorRow.t -> result bool)
    (b : BlogRow.t) : result bool :=
  exists_ criterion
    (filter (fun a => AuthorRow.id a =? BlogRow.author_id b) (authors d)).

(** The constraints of the schema: the primary keys, the unique e-mail
    address and slug, and the foreign key of a blog. *)
Definition consistent (d : db) : Prop :=
  NoDup (map AuthorRow.id (authors d))
  /\ NoDup (map AuthorRow.email (authors d))
  /\ NoDup (map BlogRow.id (blogs d))
  /\ NoDup (map BlogRow.slug (blogs d))
  /\ Forall (fun b => In (BlogRow.author_id b) (map AuthorRow.id (authors d)))
            (blogs d).

End Db.

Declare Scope session_scope.
Delimit Scope session_scope with session.
Notation "x <- m ;; k" := (Db.mbind m (fun x => k))
  (at level 61, m at next level, right associativity) : session_scope.

(** ** [models/blog.py]: [Author] *)

Module Author.

(** [^[a-zA-Z0-9._%+-]+@[a-zA-Z0-9.-]+\.[a-zA-Z]{2,}$] *)
Definition email_pattern : Re.regex :=
  Re.seq
    [Re.plus (Re.Cls (fun c => Re.ascii_alnum c || Re.one_of "._%+-" c));
     Re.Cls (fun c => Ascii.eqb c "@"%char);
     Re.plus (Re.Cls (fun c => Re.ascii_alnum c || Re.one_of ".-" c));
     Re.Cls (fun c => Ascii.eqb c "."%char);
     Re.at_least_two (Re.Cls Re.ascii_letter);
     Re.dollar].

(** [Author._validate_email] *)
Definition _validate_email (email : str) : bool :=
  Re.fullmatch email_pattern email.

(** [Author.__init__]; the id and the time stamps are set by the INSERT. *)
Definition init (name email : str) (bio avatar_url : option str)
  : result AuthorRow.t :=
  let name := strip name in
  let email := strip (lower email) in
  let bio := match bio with
             | Some ((_ :: _) as b) => Some (strip b)
             | _ => None
             end in
  if negb (_validate_email email) then raise ValueError
  else ret (AuthorRow.mk 0 name email bio avatar_url 0 0).

End Author.

(** ** [models/blog.py]: [Blog] *)

Module Blog.

(** [Blog._generate_slug] *)
Definition _generate_slug (title : str) : str :=
  let slug := Re.sub_each Re.not_word_space_hyphen [] (lower title) in
  let slug := Re.sub_runs Re.hyphen_or_space (lit "-") false slug in
  slice_to slug 50.

(** [Blog._generate_excerpt] *)
Definition clean_content (content : str) : str :=
  join (lit " ") (split_ws content).

Definition _generate_excerpt (content : str) : str :=
  let clean_content := clean_content content in
  if len clean_content <=? 150 then clean_content
  else
    let excerpt := slice_to clean_content 150 in
    let last_period := rfind excerpt "."%char in
    let last_exclamation := rfind excerpt "!"%char in
    let last_question := rfind excerpt "?"%char in
    let last_sentence_end :=
      Z.max (Z.max last_period last_exclamation) last_question in
    if last_sentence_end >? 100
    then slice_to excerpt (last_sentence_end + 1)
    else
      let last_space := rfind excerpt " "%char in
      if last_space >? 0
      then slice_to excerpt last_space ++ lit "..."
      else excerpt ++ lit "...".

(** The body of the [try] block of [Blog.formatted_date]. *)
Definition formatted_date_try (date : str) : result str :=
  (match split_on "-" date with
   | [day; month; year] =>
       y <- Datetime.int year ;;
       m <- Datetime.int month ;;
       d <- Datetime.int day ;;
       date_obj <- Datetime.new y m d ;;
       ret (Datetime.strftime_BdY date_obj)
   | _ => raise ValueError         (* the unpacking fails *)
   end)%result.

(** [Blog.formatted_date]: the bare [except] catches every exception. *)
Definition formatted_date (date : str) : str :=
  match formatted_date_try date with
  | inr s => s
  | inl _ => date
  end.

(** [Blog.__init__]; the id, the counters and the time stamps are set by
    the INSERT. *)
Definition init (title content date : str) (author_id : Z)
    (slug excerpt : option str) (featured published : bool)
  : result BlogRow.t :=
  let self_title := strip title in
  let self_content := strip content in
  let self_slug := match slug with
                   | Some ((_ :: _) as given) => given
                   | _ => _generate_slug title
                   end in
  let self_excerpt := match excerpt with
                      | Some ((_ :: _) as given) => given
                      | _ => _generate_excerpt content
                      end in
  match self_title, self_content with
  | [], _ => raise ValueError
  | _, [] => raise ValueError
  | _, _ =>
      if len self_title <? 5 then raise ValueError
      else if len self_content <? 10 then raise ValueError
      else ret (BlogRow.mk 0 self_title self_content date self_slug
                           self_excerpt featured published 0 0 0 0 author_id)
  end.

Local Open Scope session_scope.

(** The three counter methods.  [self] is the object as the session
    holds it; the flush of [commit] writes it to its row. *)
Definition increment_view_count (self : BlogRow.t) (now : Z) : Db.M BlogRow.t :=
  let self := BlogRow.set_view_count (BlogRow.view_count self + 1) now self in
  _ <- Db.update_blog (BlogRow.id self) (fun _ => self) ;;
  _ <- Db.commit ;;
  Db.mret self.

Definition increment_like_count (self : BlogRow.t) (now : Z) : Db.M BlogRow.t :=
  let self := BlogRow.set_like_count (BlogRow.like_count self + 1) now self in
  _ <- Db.update_blog (BlogRow.id self) (fun _ => self) ;;
  _ <- Db.commit ;;
  Db.mret self.

Definition decrement_like_count (self : BlogRow.t) (now : Z) : Db.M BlogRow.t :=
  if BlogRow.like_count self >? 0
  then
    let self := BlogRow.set_like_count (BlogRow.like_count self - 1) now self in
    _ <- Db.update_blog (BlogRow.id self) (fun _ => self) ;;
    _ <- Db.commit ;;
    Db.mret self
  else Db.mret self.

Definition created_desc (x y : BlogRow.t) : bool :=
  BlogRow.created_at y <=? BlogRow.created_at x.

(** [Blog.get_related_blogs] *)
Definition get_related_blogs (self : BlogRow.t) (limit : nat) (d : Db.db)
  : list BlogRow.t :=
  Db.limit limit
    (Db.order_by created_desc
       (filter (fun b => (BlogRow.author_id b =? BlogRow.author_id self)
                         && negb (BlogRow.id b =? BlogRow.id self)
                         && Bool.eqb (BlogRow.published b) true)
               (Db.blogs d))).

(** The three-column test of [Blog.search_blogs], on a blog joined with
    its author. *)
Definition search_criterion (query : str) (row : BlogRow.t * AuthorRow.t)
  : result bool :=
  (in_title <- Db.contains (BlogRow.title (fst row)) query ;;
   if in_title then ret true
   else
     in_content <- Db.contains (BlogRow.content (fst row)) query ;;
     if in_content then ret true
     else Db.contains (AuthorRow.name (snd row)) query)%result.

(** [Blog.search_blogs].  The method has no [try]: an error of the
    statement is raised to the caller.  The patterns are compared on the
    published blogs that have an author row. *)
Definition search_blogs (query : str) (limit : option nat) (d : Db.db)
  : result (list BlogRow.t) :=
  (rows <- Db.where_ (search_criterion query)
             (Db.join_author d
                (filter (fun b => Bool.eqb (BlogRow.published b) true)
                        (Db.blogs d))) ;;
   let search_query :=
     map fst (Db.order_by (fun x y => created_desc (fst x) (fst y)) rows) in
   ret match limit with
       | Some (S _ as n) => Db.limit n search_query
       | _ => search_query
       end)%result.

End Blog.

(** ** [app.py]: the date helper *)

Module App.

(** The loop of [validate_date] over the formats still to try. *)
Fixpoint validate_date_loop (date_string : str)
    (formats : list (list Datetime.directive)) : option str :=
  match formats with
  | [] => None
  | fmt :: formats' =>
      match Datetime.strptime date_string fmt with
      | inr date_obj => Some (Datetime.strftime_dmY date_obj)
      | inl ValueError => validate_date_loop date_string formats'
      | inl _ => None
      end
  end.

(** [validate_date] *)
Definition validate_date (date_string : str) : option str :=
  validate_date_loop date_string
    [Datetime.fmt_Ymd; Datetime.fmt_dmY; Datetime.fmt_mdY].

(** [validate_email] *)
Definition validate_email (email : str) : bool :=
  Re.fullmatch Author.email_pattern email.

Definition id_asc (x y : BlogRow.t) : bool := BlogRow.id x <=? BlogRow.id y.
Definition id_desc (x y : BlogRow.t) : bool := BlogRow.id y <=? BlogRow.id x.
Definition title_asc (x y : BlogRow.t) : bool :=
  Db.str_leb (BlogRow.title x) (BlogRow.title y).
Definition author_name_asc (x y : BlogRow.t * AuthorRow.t) : bool :=
  Db.str_leb (AuthorRow.name (snd x)) (AuthorRow.name (snd y)).

(** The search filter of [blogs] and of [search_blogs]: the three tests
    of [or_], from the left, up to the first that holds. *)
Definition search_filter (d : Db.db) (search : str) (b : BlogRow.t)
  : result bool :=
  (in_title <- Db.contains (BlogRow.title b) search ;;
   if in_title then ret true
   else
     in_content <- Db.contains (BlogRow.content b) search ;;
     if in_content then ret true
     else
       Db.author_has d (fun a => Db.contains (AuthorRow.name a) search) b)%result.

Definition arg (value : option str) (default : str) : str :=
  match value with
  | Some v => v
  | None => default
  end.

(** The first half of [blogs]: the base query with the search filter,
    applied when the stripped search text is not empty.  The result is
    what the statement selects, or the error that it raises. *)
Definition filtered_query_try (search : option str) (d : Db.db)
  : result (list BlogRow.t) :=
  let search := strip (arg search []) in
  let query := Db.blogs d in
  match search with
  | [] => ret query
  | _ => Db.where_ (search_filter d search) query
  end.

(** The second half of [blogs]: the ordering of the rows selected. *)
Definition sorted_query (sort : option str) (d : Db.db)
    (query : list BlogRow.t) : list BlogRow.t :=
  let sort_by := arg sort (lit "newest") in
  if str_eqb sort_by (lit "oldest") then Db.order_by id_asc query
  else if str_eqb sort_by (lit "title") then Db.order_by title_asc query
  else if str_eqb sort_by (lit "author")
  then map fst (Db.order_by author_name_asc (Db.join_author d query))
  else Db.order_by id_desc query.

(** The body of the [try] block of [blogs]: the list of [query.all()]. *)
Definition blogs_try (sort search : option str) (d : Db.db)
  : result (list BlogRow.t) :=
  (query <- filtered_query_try search d ;;
   ret (sorted_query sort d query))%result.

(** The rows that the listing has to order: those that the filtered
    statement selects, none when the statement raises. *)
Definition filtered_query (search : option str) (d : Db.db) : list BlogRow.t :=
  match filtered_query_try search d with
  | inr query => query
  | inl _ => []
  end.

(** [blogs]: the list that is rendered.  [sort] and [search] are the
    request arguments, [None] when absent.  When the statement raises,
    the [except] branch flashes 'An error occurred while loading blogs.'
    and renders the page with the empty list. *)
Definition blogs (sort search : option str) (d : Db.db) : list BlogRow.t :=
  match blogs_try sort search d with
  | inr blogs_list => blogs_list
  | inl _ => []
  end.

(** What a route answers: a page rendered from its data, or the
    redirection to the listing, after the message that was flashed if
    there is one. *)
Inductive answer (A : Type) : Type :=
| Page (data : A)
| Redirected (flashed : option str).

Arguments Page {A} data.
Arguments Redirected {A} flashed.

(** [view_blog]: the blog and its related blogs.  When no blog has the
    id, [get_or_404] raises [NotFound] inside the [try] block: the
    [except] branch catches it, flashes 'Blog not found.' and redirects
    to the listing, so the answer is never the page 404.  The statement
    of the related blogs has no [ORDER BY]: they are the first three in
    the order in which the engine reads the rows, here that of the
    table. *)
Definition view_blog (blog_id : Z) (d : Db.db)
  : answer (BlogRow.t * list BlogRow.t) :=
  match find (fun b => BlogRow.id b =? blog_id) (Db.blogs d) with
  | None => Redirected (Some (lit "Blog not found."))
  | Some blog =>
      Page (blog,
            Db.limit 3
              (filter (fun b => (BlogRow.author_id b =? BlogRow.author_id blog)
                                && negb (BlogRow.id b =? blog_id))
                      (Db.blogs d)))
  end.

(** The fields of the submission form; an absent field is empty. *)
Record form : Type := mk_form {
  author_name : str;
  author_email : str;
  blog_title : str;
  blog_content : str;
  blog_date : str
}.

Inductive response : Type :=
| RenderAddBlog (flashed : list str)
| RedirectToBlogs (flashed : list str).

Definition nonempty (s : str) : bool :=
  match s with [] => false | _ => true end.

(** The validation of [add_blog]: the messages, and the date to store. *)
Definition validate_form (author_name author_email blog_title blog_content
                          blog_date : str) : list str * str :=
  let errors := [] in
  let errors :=
    if negb (nonempty author_name)
    then errors ++ [lit "Author name is required."]
    else if len author_name <? 2
    then errors ++ [lit "Author name must be at least 2 characters long."]
    else errors in
  let errors :=
    if negb (nonempty author_email)
    then errors ++ [lit "Author email is required."]
    else if negb (validate_email author_email)
    then errors ++ [lit "Please provide a valid email address."]
    else errors in
  let errors :=
    if negb (nonempty blog_title)
    then errors ++ [lit "Blog title is required."]
    else if len blog_title <? 5
    then errors ++ [lit "Blog title must be at least 5 characters long."]
    else errors in
  let errors :=
    if negb (nonempty blog_content)
    then errors ++ [lit "Blog content is required."]
    else if len blog_content <? 10
    then errors ++ [lit "Blog content must be at least 10 characters long."]
    else errors in
  if negb (nonempty blog_date)
  then (errors ++ [lit "Publication date is required."], blog_date)
  else match validate_date blog_date with
       | Some ((_ :: _) as formatted_date) => (errors, formatted_date)
       | _ => (errors ++ [lit "Please provide a valid date."], blog_date)
       end.

Local Open Scope session_scope.

(** The author of the submission: the row with this e-mail address,
    created and committed when there is none, renamed and committed when
    its name differs. *)
Definition find_or_create_author (author_name author_email : str) (now : Z)
  : Db.M AuthorRow.t :=
  author <- Db.query (fun d =>
              find (fun a => str_eqb (AuthorRow.email a) author_email)
                   (Db.authors d)) ;;
  match author with
  | None =>
      author <- Db.lift (Author.init author_name author_email None None) ;;
      author <- Db.add_author author now ;;
      _ <- Db.commit ;;
      Db.mret author
  | Some author =>
      if negb (str_eqb (AuthorRow.name author) author_name)
      then
        let author := AuthorRow.set_name author_name now author in
        _ <- Db.update_author (AuthorRow.id author) (fun _ => author) ;;
        _ <- Db.commit ;;
        Db.mret author
      else Db.mret author
  end.

(** The new blog of the submission, added and committed. *)
Definition create_blog (blog_title blog_content blog_date : str)
    (author : AuthorRow.t) (now : Z) : Db.M BlogRow.t :=
  new_blog <- Db.lift (Blog.init blog_title blog_content blog_date
                                 (AuthorRow.id author) None None false true) ;;
  new_blog <- Db.add_blog new_blog now ;;
  _ <- Db.commit ;;
  Db.mret new_blog.

Definition published_message (blog_title : str) : str :=
  lit "Blog " ++ ["034"%char] ++ blog_title ++ ["034"%char]
  ++ lit " has been published successfully!".

Definition failure_message : str :=
  lit "An error occurred while publishing your blog. Please try again.".

Inductive method : Type := GET | POST.

(** [add_blog] *)
Definition add_blog (m : method) (f : form) (now : Z) : Db.M response :=
  match m with
  | GET => Db.mret (RenderAddBlog [])
  | POST =>
      Db.try_except
        (let author_name := strip (author_name f) in
         let author_email := strip (author_email f) in
         let blog_title := strip (blog_title f) in
         let blog_content := strip (blog_content f) in
         let blog_date := strip (blog_date f) in
         let '(errors, blog_date) :=
           validate_form author_name author_email blog_title blog_content
                         blog_date in
         match errors with
         | _ :: _ => Db.mret (RenderAddBlog errors)
         | [] =>
             author <- find_or_create_author author_name author_email now ;;
             _ <- create_blog blog_title blog_content blog_date author now ;;
             Db.mret (RedirectToBlogs [published_message blog_title])
         end)
        (fun e =>
           _ <- Db.rollback ;;
           Db.mret (RenderAddBlog [failure_message]))
  end.

End App.

(** ** The excerpt as the specification words it *)

Module ExcerptSpec.

(** Step 1: every run of white space becomes one space, and the runs at
    both ends go.  [started] tells that a character has been written,
    [gap] that white space was met since. *)
Fixpoint squeeze (started gap : bool) (s : str) : str :=
  match s with
  | [] => []
  | c :: s' =>
      if isspace c then squeeze started started s'
      else if gap then " "%char :: c :: squeeze true false s'
      else c :: squeeze true false s'
  end.

Definition collapse (content : str) : str := squeeze false false content.

(** The rightmost position of a character satisfying [p], if any. *)
Fixpoint rightmost_from (p : ascii -> bool) (i : nat) (w : str) : option nat :=
  match w with
  | [] => None
  | c :: w' =>
      match rightmost_from p (S i) w' with
      | Some j => Some j
      | None => if p c then Some i else None
      end
  end.

Definition rightmost (p : ascii -> bool) (w : str) : option nat :=
  rightmost_from p 0 w.

Definition sentence_end (c : ascii) : bool :=
  Ascii.eqb c "."%char || Ascii.eqb c "!"%char || Ascii.eqb c "?"%char.

Definition is_blank (c : ascii) : bool := Ascii.eqb c " "%char.

(** Steps 2 to 5 of the algorithm, on the collapsed content. *)
Definition excerpt_of_collapsed (c : str) : str :=
  if (length c <=? 150)%nat then c
  else
    let window := firstn 150 c in
    let by_space :=
      match rightmost is_blank window with
      | Some j => firstn j window ++ lit "..."
      | None => window ++ lit "..."
      end in
    match rightmost sentence_end window with
    | Some i => if (100 <? i)%nat then firstn (S i) window else by_space
    | None => by_space
    end.

End ExcerptSpec.

(** ** The search as the specification words it *)

Module SearchSpec.

Fixpoint is_prefix (q t : str) : bool :=
  match q, t with
  | [], _ => true
  | _ :: _, [] => false
  | x :: q', y :: t' => Ascii.eqb x y && is_prefix q' t'
  end.

(** [t] contains the text [q], character for character. *)
Fixpoint substring (q t : str) : bool :=
  is_prefix q t
  || match t with
     | [] => false
     | _ :: t' => substring q t'
     end.

End SearchSpec.

(** ** Sample data *)

Module Sample.

Definition alice : AuthorRow.t :=
  AuthorRow.mk 1 (lit "Alice") (lit "alice@example.com") None None 10 10.

Definition hello : BlogRow.t :=
  BlogRow.mk 1 (lit "Hello world") (lit "Some first content.")
    (lit "01-01-2024") (lit "hello-world") (lit "Some first content.")
    false true 0 0 10 10 1.

(** One author with one blog. *)
Definition small : Db.db := Db.mk_db [alice] [hello].

Definition second : BlogRow.t :=
  BlogRow.mk 2 (lit "Second post") (lit "Some second content.")
    (lit "02-01-2024") (lit "second-post") (lit "Some second content.")
    false true 0 0 50 50 1.

Definition third : BlogRow.t :=
  BlogRow.mk 3 (lit "Third post") (lit "Some third content.")
    (lit "02-01-2024") (lit "third-post") (lit "Some third content.")
    false true 0 0 50 50 1.

(** One author with three blogs, the last two created at the same time. *)
Definition three : Db.db := Db.mk_db [alice] [hello; second; third].

(** A submission by a new author whose title gives the slug of [hello]. *)
Definition submission : App.form :=
  App.mk_form (lit "Bob") (lit "bob@example.com") (lit "Hello, World!")
    (lit "Another text, long enough.") (lit "2024-01-15").

Definition bob : AuthorRow.t :=
  AuthorRow.mk 2 (lit "Bob") (lit "bob@example.com") None None 20 20.

(** The character U+0000. *)
Definition nul : ascii := "000"%char.

(** A blog whose title holds U+0000 before its words. *)
Definition nul_post : BlogRow.t :=
  BlogRow.mk 2 (nul :: lit "Second post") (lit "Some other content.")
    (lit "02-01-2024") (lit "second-post") (lit "Some other content.")
    false true 0 0 50 50 1.

Definition hidden : Db.db := Db.mk_db [alice] [nul_post].

(** A text of 49999 characters, and a blog with that content. *)
Definition long_text : str := repeat "o"%char (Z.to_nat 49999).

Definition long_post : BlogRow.t :=
  BlogRow.mk 2 (lit "A long post") long_text
    (lit "02-01-2024") (lit "a-long-post") (lit "ooo")
    false true 0 0 50 50 1.

Definition long : Db.db := Db.mk_db [alice] [long_post].

End Sample.

(** ** [models/blog.py]: the other methods of [Author] and [Blog] *)

Module Models.

(** [Author.blogs]: the relationship, the blogs whose [author_id] is the
    id of the author. *)
Definition author_blogs (self : AuthorRow.t) (d : Db.db) : list BlogRow.t :=
  filter (fun b => BlogRow.author_id b =? AuthorRow.id self) (Db.blogs d).

(** [Author.blog_count] *)
Definition blog_count (self : AuthorRow.t) (d : Db.db) : Z :=
  Z.of_nat (length (author_blogs self d)).

(** [Author.latest_blog]; [first()] gives [None] on an empty result. *)
Definition latest_blog (self : AuthorRow.t) (d : Db.db) : option BlogRow.t :=
  hd_error (Db.order_by App.id_desc (author_blogs self d)).

(** [Blog.author]: the author row the foreign key points to. *)
Definition blog_author (self : BlogRow.t) (d : Db.db) : option AuthorRow.t :=
  find (fun a => AuthorRow.id a =? BlogRow.author_id self) (Db.authors d).

(** [Blog.word_count] *)
Definition word_count (self : BlogRow.t) : Z :=
  Z.of_nat (length (split_ws (BlogRow.content self))).

(** [Blog.character_count] *)
Definition character_count (self : BlogRow.t) : Z := len (BlogRow.content self).

(** [Blog.is_long_form] *)
Definition is_long_form (self : BlogRow.t) : bool := word_count self >? 1000.

(** [Blog.date_object]; [now] is what [datetime.now()] returns. *)
Definition date_object (self : BlogRow.t) (now : Datetime.datetime)
  : Datetime.datetime :=
  match (match split_on "-" (BlogRow.date self) with
         | [day; month; year] =>
             y <- Datetime.int year ;;
             m <- Datetime.int month ;;
             d <- Datetime.int day ;;
             Datetime.new y m d
         | _ => raise ValueError
         end)%result with
  | inr date_obj => date_obj
  | inl _ => now
  end.

Definition views_desc (x y : BlogRow.t) : bool :=
  BlogRow.view_count y <=? BlogRow.view_count x.

(** [Blog.get_featured_blogs] *)
Definition get_featured_blogs (limit : nat) (d : Db.db) : list BlogRow.t :=
  Db.limit limit
    (Db.order_by Blog.created_desc
       (filter (fun b => Bool.eqb (BlogRow.featured b) true
                         && Bool.eqb (BlogRow.published b) true)
               (Db.blogs d))).

(** [Blog.get_recent_blogs] *)
Definition get_recent_blogs (limit : nat) (d : Db.db) : list BlogRow.t :=
  Db.limit limit
    (Db.order_by Blog.created_desc
       (filter (fun b => Bool.eqb (BlogRow.published b) true) (Db.blogs d))).

(** [Blog.get_popular_blogs] *)
Definition get_popular_blogs (limit : nat) (d : Db.db) : list BlogRow.t :=
  Db.limit limit
    (Db.order_by views_desc
       (filter (fun b => Bool.eqb (BlogRow.published b) true) (Db.blogs d))).

End Models.

(** ** [app.py]: the other routes and the template filters *)

Module Views.

(** The loop of [format_date] over the formats still to try. *)
Fixpoint format_date_loop (date_string : str)
    (formats : list (list Datetime.directive)) : str :=
  match formats with
  | [] => date_string
  | fmt :: formats' =>
      match Datetime.strptime date_string fmt with
      | inr date_obj => Datetime.strftime_BdY date_obj
      | inl ValueError => format_date_loop date_string formats'
      | inl _ => date_string
      end
  end.

(** [format_date], on a string *)
Definition format_date (date_string : str) : str :=
  format_date_loop date_string
    [Datetime.fmt_dmY; Datetime.fmt_Ymd; Datetime.fmt_mdY].

(** [l[:n]] on a list *)
Definition take {A} (l : list A) (n : Z) : list A :=
  if n <? 0 then firstn (Z.to_nat (Z.max 0 (Z.of_nat (length l) + n))) l
  else firstn (Z.to_nat n) l.

(** [truncate_words] *)
Definition truncate_words (text : str) (length : Z) : str :=
  let words := split_ws text in
  if Z.of_nat (List.length words) <=? length then text
  else join (lit " ") (take words length) ++ lit "...".

(** [index]: the recent blogs. *)
Definition index (d : Db.db) : list BlogRow.t :=
  Db.limit 3 (Db.order_by App.id_desc (Db.blogs d)).

(** [view_author]: the author and the blogs.  When no author has the
    id, [get_or_404] raises [NotFound] inside the [try] block: the
    [except] branch catches it, flashes 'Author not found.' and
    redirects to the listing, so the answer is never the page 404. *)
Definition view_author (author_id : Z) (d : Db.db)
  : App.answer (AuthorRow.t * list BlogRow.t) :=
  match find (fun a => AuthorRow.id a =? author_id) (Db.authors d) with
  | None => App.Redirected (Some (lit "Author not found."))
  | Some author =>
      App.Page (author,
                Db.order_by App.id_desc
                  (filter (fun b => BlogRow.author_id b =? author_id)
                          (Db.blogs d)))
  end.

(** An entry of the answer of [api_blogs]. *)
Record api_blog : Type := mk_api_blog {
  api_id : Z;
  api_title : str;
  api_content : str;
  api_date : str;
  api_author_id : Z;
  api_author_name : str;
  api_author_email : str
}.

Definition api_entry (d : Db.db) (blog : BlogRow.t) : option api_blog :=
  match Models.blog_author blog d with
  | None => None            (* [blog.author.id] raises on [None] *)
  | Some author =>
      Some (mk_api_blog (BlogRow.id blog) (BlogRow.title blog)
              (if len (BlogRow.content blog) >? 200
               then slice_to (BlogRow.content blog) 200 ++ lit "..."
               else BlogRow.content blog)
              (BlogRow.date blog)
              (AuthorRow.id author) (AuthorRow.name author)
              (AuthorRow.email author))
  end.

Fixpoint all_entries (d : Db.db) (blogs : list BlogRow.t)
  : option (list api_blog) :=
  match blogs with
  | [] => Some []
  | blog :: blogs' =>
      match api_entry d blog with
      | None => None
      | Some e =>
          match all_entries d blogs' with
          | None => None
          | Some es => Some (e :: es)
          end
      end
  end.

(** [api_blogs]: the entries of the answer with [success: True], or
    [None] for the answer 500 of the [except] branch. *)
Definition api_blogs (d : Db.db) : option (list api_blog) :=
  all_entries d (Db.order_by App.id_desc (Db.blogs d)).

(** [search_blogs] of [app.py]: the blogs that are rendered.  An empty
    query is redirected to the listing without a message; when the
    statement raises, the [except] branch flashes 'An error occurred
    during search.' and redirects to the listing too. *)
Definition search_blogs (q : option str) (d : Db.db)
  : App.answer (list BlogRow.t) :=
  let query := strip (App.arg q []) in
  match query with
  | [] => App.Redirected None
  | _ =>
      match Db.where_ (App.search_filter d query) (Db.blogs d) with
      | inr blogs => App.Page (Db.order_by App.id_desc blogs)
      | inl _ => App.Redirected (Some (lit "An error occurred during search."))
      end
  end.

End Views.

(** ** The language of a regular expression *)

Module ReSpec.

(** The strings that a regular expression denotes. *)
Inductive lang : Re.regex -> str -> Prop :=
| lang_eps : lang Re.Eps []
| lang_cls p c : p c = true -> lang (Re.Cls p) [c]
| lang_cat r1 r2 s1 s2 :
    lang r1 s1 -> lang r2 s2 -> lang (Re.Cat r1 r2) (s1 ++ s2)
| lang_alt_l r1 r2 s : lang r1 s -> lang (Re.Alt r1 r2) s
| lang_alt_r r1 r2 s : lang r2 s -> lang (Re.Alt r1 r2) s
| lang_star_nil r : lang (Re.Star r) []
| lang_star_cons r s1 s2 :
    lang r s1 -> lang (Re.Star r) s2 -> lang (Re.Star r) (s1 ++ s2).

(** The classes of the e-mail pattern. *)
Definition local_char (c : ascii) : bool :=
  Re.ascii_alnum c || Re.one_of "._%+-" c.
Definition domain_char (c : ascii) : bool :=
  Re.ascii_alnum c || Re.one_of ".-" c.

(** LINE FEED *)
Definition line_feed : ascii := "010"%char.

(** The shape of an e-mail address: a local part, [@], a domain, a dot
    and at least two letters; a line feed may follow. *)
Definition email_shape (email : str) : Prop :=
  exists local domain tld nl,
    email = local ++ lit "@" ++ domain ++ lit "." ++ tld ++ nl
    /\ local <> [] /\ Forall (fun c => local_char c = true) local
    /\ domain <> [] /\ Forall (fun c => domain_char c = true) domain
    /\ (2 <= length tld)%nat
    /\ Forall (fun c => Re.ascii_letter c = true) tld
    /\ (nl = [] \/ nl = [line_feed]).

End ReSpec.

(** ** Notions of the statements *)

(** The result of [rfind] as Python returns it. *)
Definition as_index (o : option nat) : Z :=
  match o with Some i => Z.of_nat i | None => -1 end.

(** A word of [split()]: not empty, without white space. *)
Definition is_word (w : str) : Prop :=
  w <> [] /\ Forall (fun c => isspace c = false) w.

(** The characters a slug is made of: kept by the first substitution and
    left alone by [lower]. *)
Definition slug_char (c : ascii) : Prop :=
  Re.not_word_space_hyphen c = false /\ lower_char c = c.

(** No white space, and no hyphen next to a hyphen; [prev] tells that a
    hyphen comes just before. *)
Fixpoint collapsed (prev : bool) (s : str) : bool :=
  match s with
  | [] => true
  | c :: s' =>
      if Re.hyphen_or_space c
      then negb prev && Ascii.eqb c "-"%char && collapsed true s'
      else collapsed false s'
  end.

(** The texts of the groups of [strptime] have at most four characters. *)
Definition short_groups (g : Datetime.groups) : Prop :=
  (length (Datetime.gY g) <= 4)%nat /\ (length (Datetime.gm g) <= 4)%nat
  /\ (length (Datetime.gd g) <= 4)%nat.

(** The canonical form of a date of the calendar: two digits of the day,
    two of the month, four of the year, separated by hyphens. *)
Definition canonical_dmY (out : str) : Prop :=
  exists y m d,
    Datetime.valid_date y m d = true /\
    out = Datetime.pad2 d ++ lit "-" ++ Datetime.pad2 m ++ lit "-"
          ++ Datetime.pad4 y.

(** Both counters of a blog are at least 0. *)
Definition nonneg_counters (b : BlogRow.t) : Prop :=
  0 <= BlogRow.view_count b /\ 0 <= BlogRow.like_count b.

(** The session once [self] is written to its row and committed. *)
Definition persisted (self : BlogRow.t) (s : Db.session) : Db.session :=
  let store :=
    Db.mk_db (Db.authors (Db.working s))
      (map (fun b => if BlogRow.id b =? BlogRow.id self then self else b)
           (Db.blogs (Db.working s))) in
  Db.mk_session store store.

(** Every stored e-mail address is as [Author.__init__] leaves one: in
    lower case and stripped. *)
Definition normalised_emails (d : Db.db) : Prop :=
  Forall (fun a => strip (lower (AuthorRow.email a)) = AuthorRow.email a)
         (Db.authors d).

(** The pattern [%text%] of a search text is within the limit of
    [LIKE]: at most 49998 bytes of search text. *)
Definition pattern_fits (search : str) : Prop :=
  Db.utf8_bytes (lit "%" ++ search ++ lit "%") <= Db.like_pattern_limit.

(** What [column LIKE '%' || search || '%'] compares: the pattern and the
    text of the column, each up to its first U+0000. *)
Definition like_match (column search : str) : bool :=
  Db.pattern_compare (Db.c_string (lit "%" ++ search ++ lit "%"))
                     (Db.c_string column).

(** A text without the character U+0000. *)
Definition no_nul (s : str) : Prop := Forall (fun c => code c <> 0%N) s.

(** The three comparisons of the search filter on a blog: its title, its
    content, the names of the author rows it points to. *)
Definition selects (d : Db.db) (q : str) (b : BlogRow.t) : bool :=
  like_match (BlogRow.title b) q
  || like_match (BlogRow.content b) q
  || existsb (fun a => like_match (AuthorRow.name a) q)
       (filter (fun a => AuthorRow.id a =? BlogRow.author_id b) (Db.authors d)).

(* ================================================================== *)
(** * Theorems *)
(* ================================================================== *)

Example excerpt_short :
  Blog._generate_excerpt (lit "  Hello   brave
 world. ") = lit "Hello brave world.".
Proof. reflexivity. Qed.

(** ** Strings: searching from the right *)

Section Rightmost.

Import ExcerptSpec.

Lemma rightmost_from_shift p i w :
  rightmost_from p (S i) w = option_map S (rightmost_from p i w).
Proof.
  revert i; induction w as [|c w IH]; intros i; simpl; [reflexivity|].
  rewrite (IH (S i)), (IH i).
  destruct (rightmost_from p i w); simpl; [reflexivity|].
  destruct (p c); reflexivity.
Qed.

Lemma rightmost_from_ge p i w j :
  rightmost_from p i w = Some j -> (i <= j < i + length w)%nat.
Proof.
  revert i j; induction w as [|c w IH]; intros i j; simpl; [discriminate|].
  destruct (rightmost_from p (S i) w) eqn:E.
  - intros [= <-]. apply IH in E. lia.
  - destruct (p c); [intros [= <-]; lia | discriminate].
Qed.

Lemma rightmost_lt p w j : rightmost p w = Some j -> (j < length w)%nat.
Proof. intros H; apply rightmost_from_ge in H; lia. Qed.

Lemma rightmost_nth p w j :
  rightmost p w = Some j -> exists c, nth_error w j = Some c /\ p c = true.
Proof.
  unfold rightmost. revert j; induction w as [|c w IH]; intros j; simpl;
    [discriminate|].
  rewrite rightmost_from_shift.
  destruct (rightmost_from p 0 w) as [k|] eqn:E; simpl.
  - intros [= <-]. simpl. apply IH; reflexivity.
  - destruct (p c) eqn:Pc; [intros [= <-]; exists c; auto | discriminate].
Qed.

Lemma rightmost_none p w :
  rightmost p w = None -> Forall (fun c => p c = false) w.
Proof.
  unfold rightmost. induction w as [|c w IH]; simpl; [constructor|].
  rewrite rightmost_from_shift.
  destruct (rightmost_from p 0 w); simpl; [discriminate|].
  destruct (p c) eqn:Pc; [discriminate|]. intros _. constructor; auto.
Qed.

(** No character after the rightmost one satisfies [p]. *)
Lemma rightmost_last p w j :
  rightmost p w = Some j ->
  forall k c, (j < k)%nat -> nth_error w k = Some c -> p c = false.
Proof.
  unfold rightmost. revert j; induction w as [|x w IH]; intros j; simpl;
    [discriminate|].
  rewrite rightmost_from_shift.
  destruct (rightmost_from p 0 w) as [i|] eqn:E; simpl.
  - intros [= <-] [|k] c L; [lia|]. simpl. apply (IH i eq_refl). lia.
  - destruct (p x); [|discriminate]. intros [= <-] [|k] c L; [lia|]. simpl.
    intros N. apply rightmost_none in E.
    rewrite Forall_forall in E. apply E. eapply nth_error_In; eassumption.
Qed.

Lemma find_from_range s c i :
  find_from s c i = -1 \/ i <= find_from s c i < i + len s.
Proof.
  revert i; induction s as [|x s IH]; intros i; simpl; [now left|].
  unfold len in *; simpl length; destruct (Ascii.eqb x c).
  - right; lia.
  - destruct (IH (i + 1)) as [->|H]; [now left | right; lia].
Qed.

Lemma find_from_snoc s x c i :
  0 <= i ->
  find_from (s ++ [x]) c i =
    if find_from s c i <? 0
    then (if Ascii.eqb x c then i + len s else -1)
    else find_from s c i.
Proof.
  revert i; induction s as [|y s IH]; intros i Hi; simpl.
  - unfold len; simpl. destruct (Ascii.eqb x c); [f_equal; lia | reflexivity].
  - destruct (Ascii.eqb y c).
    + destruct (i <? 0) eqn:E; [lia | reflexivity].
    + rewrite IH by lia. unfold len; simpl length.
      destruct (find_from s c (i + 1) <? 0); [|reflexivity].
      destruct (Ascii.eqb x c); [lia | reflexivity].
Qed.

(** [rfind] returns the rightmost position of the character, or -1. *)
Lemma rfind_rightmost s c :
  rfind s c = as_index (rightmost (fun x => Ascii.eqb x c) s).
Proof.
  unfold rightmost. induction s as [|x s IH]; [reflexivity|].
  simpl rightmost_from. rewrite rightmost_from_shift.
  unfold rfind in *. simpl rev. rewrite find_from_snoc by lia.
  assert (L : len (rev s) = len s) by (unfold len; now rewrite length_rev).
  assert (L' : len (x :: s) = len s + 1) by (unfold len; simpl length; lia).
  rewrite L, L'.
  destruct (find_from_range (rev s) c 0) as [E|E].
  - rewrite E in *. simpl (-1 <? 0) in *. cbv iota in *.
    destruct (rightmost_from _ 0 s) as [j|]; simpl in IH.
    + exfalso; lia.
    + simpl. destruct (Ascii.eqb x c); simpl.
      * destruct (len s <? 0) eqn:F; unfold len in *; lia.
      * reflexivity.
  - destruct (find_from (rev s) c 0 <? 0) eqn:F; [lia|].
    rewrite ?F.
    destruct (rightmost_from _ 0 s) as [j|]; cbn [as_index option_map] in *;
      [rewrite Nat2Z.inj_succ; lia | exfalso; lia].
Qed.

Lemma rightmost_from_or p q i w :
  as_index (rightmost_from (fun c => p c || q c) i w) =
  Z.max (as_index (rightmost_from p i w)) (as_index (rightmost_from q i w)).
Proof.
  revert i; induction w as [|c w IH]; intros i; simpl; [reflexivity|].
  specialize (IH (S i)).
  destruct (rightmost_from (fun c => p c || q c) (S i) w) as [j|] eqn:E,
           (rightmost_from p (S i) w) as [jp|] eqn:Ep,
           (rightmost_from q (S i) w) as [jq|] eqn:Eq; simpl in IH |- *;
    try lia;
    try (apply rightmost_from_ge in Ep); try (apply rightmost_from_ge in Eq);
    destruct (p c), (q c); simpl; lia.
Qed.

(** [max] of the three [rfind] is the rightmost sentence end. *)
Lemma last_sentence_end_rightmost w :
  Z.max (Z.max (rfind w ".") (rfind w "!")) (rfind w "?") =
  as_index (rightmost sentence_end w).
Proof.
  rewrite !rfind_rightmost. unfold rightmost, sentence_end.
  rewrite <- !rightmost_from_or.
  reflexivity.
Qed.

End Rightmost.

(** ** Strings: [split()] and [join] *)

Lemma split_ws_acc_words s : forall cur,
  Forall (fun c => isspace c = false) cur ->
  Forall is_word (split_ws_acc s cur).
Proof.
  assert (R : forall cur, cur <> [] ->
            Forall (fun c => isspace c = false) cur -> is_word (rev cur)).
  { intros cur N F; split.
    - intros E; apply N. apply (f_equal (@rev ascii)) in E.
      now rewrite rev_involutive in E.
    - now apply Forall_rev. }
  induction s as [|c s IH]; intros cur F; simpl.
  - destruct cur; constructor; [apply R; [discriminate | assumption] | constructor].
  - destruct (isspace c) eqn:Sp.
    + destruct cur.
      * apply IH; constructor.
      * constructor; [apply R; [discriminate | assumption] | apply IH; constructor].
    + apply IH. now constructor.
Qed.

Lemma split_ws_acc_nonempty s : forall cur, cur <> [] -> split_ws_acc s cur <> [].
Proof.
  induction s as [|c s IH]; intros cur N; simpl.
  - destruct cur; [contradiction | discriminate].
  - destruct (isspace c).
    + destruct cur; [contradiction | discriminate].
    + apply IH. discriminate.
Qed.

(** [' '.join(content.split())] collapses the white space. *)
Lemma join_split_squeeze s :
  ExcerptSpec.squeeze true true s
    = match split_ws_acc s [] with
      | [] => []
      | ws => " "%char :: join (lit " ") ws
      end
  /\ ExcerptSpec.squeeze false false s = join (lit " ") (split_ws_acc s [])
  /\ forall cur, cur <> [] ->
       join (lit " ") (split_ws_acc s cur)
       = rev cur ++ ExcerptSpec.squeeze true false s.
Proof.
  induction s as [|c s (IH1 & IH2 & IH3)]; simpl.
  - repeat split. intros [|x cur] N; [contradiction|].
    now rewrite app_nil_r.
  - destruct (isspace c) eqn:Sp.
    + repeat split; try assumption.
      intros [|x cur] N; [contradiction|]. rewrite IH1.
      destruct (split_ws_acc s []); [now rewrite app_nil_r | reflexivity].
    + assert (N : [c] <> []) by discriminate.
      pose proof (split_ws_acc_nonempty s [c] N) as W.
      specialize (IH3 [c] N) as J. simpl in J. repeat split.
      * destruct (split_ws_acc s [c]); [contradiction|].
        f_equal. symmetry. exact J.
      * symmetry. exact J.
      * intros cur _. rewrite IH3 by discriminate. simpl.
        now rewrite <- app_assoc.
Qed.

Lemma clean_content_collapse content :
  Blog.clean_content content = ExcerptSpec.collapse content.
Proof. symmetry. apply (join_split_squeeze content). Qed.

Lemma split_ws_words s : Forall is_word (split_ws s).
Proof. apply split_ws_acc_words; constructor. Qed.

Lemma join_words_head sep ws c rest :
  Forall is_word ws -> join sep ws = c :: rest -> isspace c = false.
Proof.
  intros F E. destruct ws as [|w ws]; [discriminate|].
  inversion F as [|? ? [N Fw] _]; subst.
  destruct w as [|c0 w]; [contradiction|].
  assert (c = c0) as -> by (destruct ws; simpl in E; congruence).
  now inversion Fw.
Qed.

(** The collapsed content never starts with white space. *)
Lemma clean_content_head content c rest :
  Blog.clean_content content = c :: rest -> isspace c = false.
Proof. apply join_words_head, split_ws_words. Qed.

Lemma slice_to_nonneg s n : 0 <= n -> slice_to s n = firstn (Z.to_nat n) s.
Proof. intros H; unfold slice_to. destruct (n <? 0) eqn:E; [lia | reflexivity]. Qed.

Lemma slice_to_length s n : (length (slice_to s n) <= length s)%nat.
Proof. unfold slice_to; destruct (n <? 0); rewrite length_firstn; lia. Qed.

(** ** The excerpt *)

Example excerpt_of_long_content :
  Blog._generate_excerpt (lit
    "This is a sample blog post to demonstrate the features of our blogging platform. You can write amazing stories, share your thoughts, and connect with readers from around the world.")
  = lit "This is a sample blog post to demonstrate the features of our blogging platform. You can write amazing stories, share your thoughts, and connect with...".
Proof. vm_compute. reflexivity. Qed.

(** C1. For every content string the excerpt generator returns what the
    algorithm of the specification returns on the whitespace-collapsed
    content (every run of white space replaced by one space, none left at
    the ends): the collapsed content itself
    when it has at most 150 characters; otherwise, with the window of its
    first 150 characters, the window cut after its rightmost ['.'], ['!']
    or ['?'] when that position is greater than 100, and else the window
    cut before its rightmost space followed by ["..."], or the whole
    window followed by ["..."] when it holds no space. *)
Theorem generate_excerpt_meets_spec (content : str) :
  Blog._generate_excerpt content =
  ExcerptSpec.excerpt_of_collapsed (ExcerptSpec.collapse content).
Proof.
  rewrite <- clean_content_collapse.
  unfold Blog._generate_excerpt, ExcerptSpec.excerpt_of_collapsed.
  pose proof (clean_content_head content) as Hhead.
  set (c := Blog.clean_content content) in *.
  unfold len. destruct (Nat.leb_spec (length c) 150) as [Hle|Hgt].
  - destruct (Z.leb_spec (Z.of_nat (length c)) 150); [reflexivity | lia].
  - destruct (Z.leb_spec (Z.of_nat (length c)) 150); [lia|].
    rewrite slice_to_nonneg by lia. change (Z.to_nat 150) with 150%nat.
    set (w := firstn 150 c).
    rewrite last_sentence_end_rightmost.
    assert (Hspace :
      (if rfind w " " >? 0 then slice_to w (rfind w " ") ++ lit "..."
       else w ++ lit "...") =
      match ExcerptSpec.rightmost ExcerptSpec.is_blank w with
      | Some j => firstn j w ++ lit "..."
      | None => w ++ lit "..."
      end).
    { rewrite rfind_rightmost.
      change (fun x => Ascii.eqb x " "%char) with ExcerptSpec.is_blank.
      destruct (ExcerptSpec.rightmost ExcerptSpec.is_blank w) as [j|] eqn:Ej;
        [|reflexivity].
      cbn [as_index].
      assert (0 < j)%nat.
      { destruct j; [|lia]. exfalso.
        apply rightmost_nth in Ej as (b & Hb & Pb).
        unfold ExcerptSpec.is_blank in Pb. apply Ascii.eqb_eq in Pb; subst b.
        destruct c as [|c0 c']; [discriminate|].
        subst w; simpl in Hb. injection Hb as ->.
        now specialize (Hhead _ _ eq_refl). }
      destruct (Z.gtb_spec (Z.of_nat j) 0); [|lia].
      rewrite slice_to_nonneg by lia. now rewrite Nat2Z.id. }
    destruct (ExcerptSpec.rightmost ExcerptSpec.sentence_end w) as [i|] eqn:Ei;
      cbn [as_index].
    + destruct (Nat.ltb_spec 100 i); destruct (Z.gtb_spec (Z.of_nat i) 100);
        try lia; [|exact Hspace].
      rewrite slice_to_nonneg by lia. f_equal. lia.
    + exact Hspace.
Qed.

(** C10. The excerpt has at most 153 characters, fewer than the 300 the
    stored field allows. *)
Theorem generate_excerpt_length (content : str) :
  (length (Blog._generate_excerpt content) <= 153 < 300)%nat.
Proof.
  split; [|lia]. unfold Blog._generate_excerpt, len.
  set (c := Blog.clean_content content).
  destruct (Z.leb_spec (Z.of_nat (length c)) 150); [lia|].
  assert (W : (length (slice_to c 150) <= 150)%nat).
  { rewrite slice_to_nonneg by lia. rewrite length_firstn. lia. }
  set (w := slice_to c 150) in *.
  destruct (_ >? 100).
  - pose proof (slice_to_length w
      (Z.max (Z.max (rfind w ".") (rfind w "!")) (rfind w "?") + 1)). lia.
  - destruct (_ >? 0); rewrite length_app; simpl (length (lit "..."));
      [pose proof (slice_to_length w (rfind w " ")); lia | lia].
Qed.

(** ** The slug *)

Example slug_of_title :
  Blog._generate_slug (lit "  Hello,  World -- it's 2024! ") =
  lit "-hello-world-its-2024-".
Proof. reflexivity. Qed.

Section SlugShape.

Import Re.

Ltac each_char c := destruct c as [[] [] [] [] [] [] [] []]; vm_compute.

Lemma lower_char_idem c : lower_char (lower_char c) = lower_char c.
Proof. each_char c; reflexivity. Qed.

Lemma hyphen_or_space_kept c :
  hyphen_or_space c = true -> not_word_space_hyphen c = false.
Proof. each_char c; intros H; first [reflexivity | discriminate H]. Qed.

Lemma slug_char_hyphen : slug_char "-"%char.
Proof. split; reflexivity. Qed.

Lemma sub_each_slug_chars t :
  Forall slug_char (sub_each not_word_space_hyphen [] (lower t)).
Proof.
  induction t as [|c t IH]; simpl; [constructor|].
  destruct (not_word_space_hyphen (lower_char c)) eqn:E; [exact IH|].
  constructor; [split; [exact E | apply lower_char_idem] | exact IH].
Qed.

Lemma sub_runs_slug_chars b s :
  Forall slug_char s ->
  Forall slug_char (sub_runs hyphen_or_space (lit "-") b s).
Proof.
  intros F; revert b; induction F as [|c s Hc F IH]; intros b; simpl;
    [constructor|].
  destruct (hyphen_or_space c).
  - destruct b; [apply IH|]. constructor; [apply slug_char_hyphen | apply IH].
  - constructor; [exact Hc | apply IH].
Qed.

Lemma sub_runs_collapsed b s :
  collapsed b (sub_runs hyphen_or_space (lit "-") b s) = true.
Proof.
  revert b; induction s as [|c s IH]; intros b; simpl; [reflexivity|].
  destruct (hyphen_or_space c) eqn:E.
  - destruct b; [apply IH|]. simpl. apply IH.
  - simpl. rewrite E. apply IH.
Qed.

Lemma collapsed_firstn n : forall b s,
  collapsed b s = true -> collapsed b (firstn n s) = true.
Proof.
  induction n as [|n IH]; intros b [|c s]; simpl; try reflexivity.
  destruct (hyphen_or_space c); [|apply IH].
  intros H; apply andb_true_iff in H as [H1 H2].
  rewrite H1; simpl. now apply IH.
Qed.

Lemma Forall_take {A} (P : A -> Prop) n : forall l,
  Forall P l -> Forall P (firstn n l).
Proof.
  induction n as [|n IH]; intros l F; [constructor|].
  destruct F; simpl; constructor; auto.
Qed.

Lemma sub_each_fixed s :
  Forall slug_char s -> sub_each not_word_space_hyphen [] (lower s) = s.
Proof.
  induction 1 as [|c s [K L] F IH]; simpl; [reflexivity|].
  rewrite L, K. now f_equal.
Qed.

Lemma sub_runs_fixed s : forall b,
  collapsed b s = true -> sub_runs hyphen_or_space (lit "-") b s = s.
Proof.
  induction s as [|c s IH]; intros b; simpl; [reflexivity|].
  destruct (hyphen_or_space c).
  - intros H; apply andb_true_iff in H as [H1 H2].
    apply andb_true_iff in H1 as [Hb Hc].
    destruct b; [discriminate|]. apply Ascii.eqb_eq in Hc; subst c.
    simpl. f_equal. now apply IH.
  - intros H. f_equal. now apply IH.
Qed.

(** A string of slug characters without doubled hyphen and of at most 50
    characters is its own slug. *)
Lemma slug_fixed s :
  Forall slug_char s -> collapsed false s = true -> (length s <= 50)%nat ->
  Blog._generate_slug s = s.
Proof.
  intros F C L. unfold Blog._generate_slug.
  rewrite sub_each_fixed, sub_runs_fixed by assumption.
  rewrite slice_to_nonneg by lia. apply firstn_all2. exact L.
Qed.

Lemma slug_shape title :
  let s := Blog._generate_slug title in
  Forall slug_char s /\ collapsed false s = true /\ (length s <= 50)%nat.
Proof.
  unfold Blog._generate_slug. rewrite slice_to_nonneg by lia.
  change (Z.to_nat 50) with 50%nat. cbv zeta. repeat split.
  - apply Forall_take, sub_runs_slug_chars, sub_each_slug_chars.
  - apply collapsed_firstn, sub_runs_collapsed.
  - rewrite length_firstn. lia.
Qed.

End SlugShape.

(** C8. The slug function is idempotent and its output has at most 50
    characters. *)
Theorem generate_slug_idempotent (title : str) :
  Blog._generate_slug (Blog._generate_slug title) = Blog._generate_slug title
  /\ (length (Blog._generate_slug title) <= 50)%nat.
Proof.
  destruct (slug_shape title) as (F & C & L).
  split; [now apply slug_fixed | exact L].
Qed.

(** ** Dates *)

Example validate_iso : App.validate_date (lit "2024-01-15") = Some (lit "15-01-2024").
Proof. reflexivity. Qed.
Example validate_dmy : App.validate_date (lit "15-01-2024") = Some (lit "15-01-2024").
Proof. reflexivity. Qed.
Example validate_us : App.validate_date (lit "01/15/2024") = Some (lit "15-01-2024").
Proof. reflexivity. Qed.
Example validate_short : App.validate_date (lit "1/5/2024") = Some (lit "05-01-2024").
Proof. reflexivity. Qed.
Example validate_bad : App.validate_date (lit "not-a-date") = None.
Proof. reflexivity. Qed.
Example validate_feb30 : App.validate_date (lit "2023-02-29") = None.
Proof. reflexivity. Qed.
Example formatted_jan : Blog.formatted_date (lit "05-01-2024") = lit "January 05, 2024".
Proof. reflexivity. Qed.
Example formatted_loose : Blog.formatted_date (lit " 5-1-2_024 ") = lit "January 05, 2024".
Proof. reflexivity. Qed.
Example formatted_bad : Blog.formatted_date (lit "2024-01-05") = lit "2024-01-05".
Proof. reflexivity. Qed.

Section DateFacts.

Import Datetime.

Lemma bind_inr {A B} (r : result A) (k : A -> result B) b :
  bind r k = inr b -> exists a, r = inr a /\ k a = inr b.
Proof. destruct r as [e|a]; simpl; [discriminate | eauto]. Qed.

Lemma bind_inl {A B} (r : result A) (k : A -> result B) e :
  bind r k = inl e -> r = inl e \/ exists a, r = inr a /\ k a = inl e.
Proof. destruct r as [e'|a]; simpl; [intros [= ->]; now left | eauto]. Qed.

Lemma new_valid y m d t :
  new y m d = inr t -> t = mk_datetime y m d /\ valid_date y m d = true.
Proof.
  unfold new. destruct (negb _); [discriminate|].
  destruct (valid_date y m d); [now intros [= <-] | discriminate].
Qed.

Lemma valid_date_bounds y m d :
  valid_date y m d = true -> 1 <= y <= 9999 /\ 1 <= m <= 12 /\ 1 <= d <= 31.
Proof.
  unfold valid_date, days_in_month. intros H.
  repeat (apply andb_true_iff in H as [H ?]).
  destruct (m =? 2); [destruct (is_leap y)|destruct (_ || _)]; lia.
Qed.

Lemma new_of_valid y m d :
  valid_date y m d = true -> new y m d = inr (mk_datetime y m d).
Proof.
  intros V. pose proof (valid_date_bounds _ _ _ V) as (By & Bm & Bd).
  unfold new, fits_int. rewrite V.
  replace (_ && _ && _) with true; [reflexivity|].
  symmetry. rewrite !andb_true_iff. lia.
Qed.

(** Built from numbers of at most four digits, [datetime] raises nothing
    but [ValueError]. *)
Lemma new_raises y m d e :
  Z.abs y < 10000 -> Z.abs m < 10000 -> Z.abs d < 10000 ->
  new y m d = inl e -> e = ValueError.
Proof.
  intros By Bm Bd. unfold new, fits_int.
  replace (_ && _ && _) with true by (symmetry; rewrite !andb_true_iff; lia).
  simpl negb. cbv iota.
  destruct (valid_date y m d); [discriminate | now intros [= <-]].
Qed.

Lemma isdecimal_value c : isdecimal c = true -> 0 <= digit_value c <= 9.
Proof.
  destruct c as [[] [] [] [] [] [] [] []]; intros H;
    first [discriminate H | vm_compute; split; discriminate].
Qed.

(** The digits [int] reads give a number below the power of ten of their
    count. *)
Lemma scan_digits_bound s : forall acc n prev v n' rest,
  0 <= acc ->
  scan_digits s acc n prev = Some (v, n', rest) ->
  0 <= v /\ v + 1 <= (acc + 1) * 10 ^ Z.of_nat (length s).
Proof.
  induction s as [|c s IH]; intros acc n prev v n' rest A H.
  - simpl in H. destruct prev; try discriminate. injection H as <- _ _.
    simpl. lia.
  - assert (P : 0 < 10 ^ Z.of_nat (length s)) by (apply Z.pow_pos_nonneg; lia).
    assert (E : 10 ^ Z.of_nat (length (c :: s)) = 10 * 10 ^ Z.of_nat (length s)).
    { simpl length. rewrite Nat2Z.inj_succ, Z.pow_succ_r by lia. reflexivity. }
    rewrite E. cbn [scan_digits] in H. destruct (isdecimal c) eqn:D.
    + apply isdecimal_value in D. apply IH in H as [V B]; [|lia].
      split; [exact V | nia].
    + destruct (Ascii.eqb c "_"%char).
      * destruct prev; try discriminate.
        apply IH in H as [V B]; [|lia]. split; [exact V | nia].
      * destruct prev; try discriminate. injection H as <- _ _. nia.
Qed.

Lemma skip_length p s : (length (skip p s) <= length s)%nat.
Proof.
  induction s as [|c s IH]; simpl; [lia|]. destruct (p c); simpl; lia.
Qed.

(** [int] raises nothing but [ValueError]. *)
Lemma int_raises s e : int s = inl e -> e = ValueError.
Proof.
  unfold int.
  destruct (match skip int_space s with
            | "-"%char :: s' => (true, s')
            | "+"%char :: s' => (false, s')
            | _ => (false, skip int_space s)
            end) as [negative s0].
  destruct (scan_digits s0 0 0 AtStart) as [[[v n] rest]|]; [|now intros [= <-]].
  destruct (_ <? _)%nat; [now intros [= <-]|].
  destruct (skip int_space rest); [discriminate | now intros [= <-]].
Qed.

(** A text of at most four characters gives a number of at most four
    digits. *)
Lemma int_bound s v :
  (length s <= 4)%nat -> int s = inr v -> Z.abs v < 10000.
Proof.
  intros L. unfold int.
  pose proof (skip_length int_space s) as K.
  destruct (match skip int_space s with
            | "-"%char :: s' => (true, s')
            | "+"%char :: s' => (false, s')
            | _ => (false, skip int_space s)
            end) as [negative s0] eqn:E.
  assert (L0 : (length s0 <= 4)%nat).
  { destruct (skip int_space s) as [|c r]; [injection E as _ <-; simpl; lia|].
    simpl in K.
    destruct c as [[] [] [] [] [] [] [] []]; injection E as _ <-; simpl; lia. }
  destruct (scan_digits s0 0 0 AtStart) as [[[w n] rest]|] eqn:S; [|discriminate].
  apply scan_digits_bound in S as [W B]; [|lia].
  assert (10 ^ Z.of_nat (length s0) <= 10 ^ 4)
    by (apply Z.pow_le_mono_r; lia).
  destruct (_ <? _)%nat; [discriminate|].
  destruct (skip int_space rest); [|discriminate].
  destruct negative; intros [= <-]; lia.
Qed.

(** The conversion of three texts into a date, shared by [strptime] and
    [formatted_date]. *)
Lemma convert_raises (ys ms ds : str) e :
  (length ys <= 4)%nat -> (length ms <= 4)%nat -> (length ds <= 4)%nat ->
  (y <- int ys ;; m <- int ms ;; d <- int ds ;; new y m d)%result = inl e ->
  e = ValueError.
Proof.
  intros Ly Lm Ld H.
  apply bind_inl in H as [H|(y & Ey & H)]; [now apply int_raises in H|].
  apply bind_inl in H as [H|(m & Em & H)]; [now apply int_raises in H|].
  apply bind_inl in H as [H|(d & Ed & H)]; [now apply int_raises in H|].
  apply int_bound in Ey, Em, Ed; try assumption.
  now apply new_raises in H.
Qed.

Lemma convert_valid (ys ms ds : str) t :
  (y <- int ys ;; m <- int ms ;; d <- int ds ;; new y m d)%result = inr t ->
  valid_date (year t) (month t) (day t) = true.
Proof.
  intros H.
  apply bind_inr in H as (y & _ & H). apply bind_inr in H as (m & _ & H).
  apply bind_inr in H as (d & _ & H). apply new_valid in H as [-> V]. exact V.
Qed.

Lemma match_directive_short d s text rest :
  In (text, rest) (match_directive d s) -> (length text <= 4)%nat.
Proof.
  assert (One : forall p, In (text, rest) (one p s) -> (length text <= 4)%nat).
  { intros p. unfold one. destruct s as [|c r]; [intros []|].
    destruct (p c); [intros [[= <- _]|[]]; simpl; lia | intros []]. }
  assert (Two : forall p q, In (text, rest) (two p q s) -> (length text <= 4)%nat).
  { intros p q. unfold two. destruct s as [|c [|c' r]]; try (intros []).
    destruct (p c && q c'); [intros [[= <- _]|[]]; simpl; lia | intros []]. }
  destruct d; simpl.
  - destruct s as [|a [|b [|c [|e r]]]]; try (intros []).
    destruct (_ && _); [intros [[= <- _]|[]]; simpl; lia | intros []].
  - rewrite !in_app_iff. intros [H|[H|H]]; eauto.
  - rewrite !in_app_iff. intros [H|[H|[H|[H|H]]]]; eauto.
  - destruct s as [|c0 r]; [intros []|].
    destruct (Ascii.eqb c0 c); [intros [[= <- _]|[]]; simpl; lia | intros []].
Qed.

Lemma matches_short fmt : forall g s g' rest,
  short_groups g -> In (g', rest) (matches fmt g s) -> short_groups g'.
Proof.
  induction fmt as [|d fmt IH]; intros g s g' rest G H; simpl in H.
  - destruct H as [[= <- _]|[]]. exact G.
  - apply in_flat_map in H as ([text r] & I & H).
    apply match_directive_short in I.
    eapply IH; [|exact H]. destruct G as (GY & Gm & Gd).
    destruct d; unfold short_groups; simpl; auto.
Qed.

(** [strptime] raises nothing but [ValueError]. *)
Lemma strptime_raises s fmt e : strptime s fmt = inl e -> e = ValueError.
Proof.
  unfold strptime.
  destruct (matches fmt _ s) as [|[found [|c rest]] l] eqn:M;
    try (now intros [= <-]).
  assert (G : short_groups found).
  { eapply (matches_short fmt (mk_groups [] [] []) s found []).
    - unfold short_groups; simpl; lia.
    - rewrite M. now left. }
  destruct G as (GY & Gm & Gd). now apply convert_raises.
Qed.

(** A date that [strptime] returns is a date of the calendar. *)
Lemma strptime_valid s fmt t :
  strptime s fmt = inr t -> valid_date (year t) (month t) (day t) = true.
Proof.
  unfold strptime.
  destruct (matches fmt _ s) as [|[found [|c rest]] l]; try discriminate.
  apply convert_valid.
Qed.

End DateFacts.

(** ** Dates: the canonical form is read back *)

Section CanonicalDates.

Import Datetime.

Lemma digit_char_cases n :
  In (digit_char n)
     ["0"; "1"; "2"; "3"; "4"; "5"; "6"; "7"; "8"; "9"]%char
  /\ digit_value (digit_char n) = n mod 10.
Proof.
  unfold digit_char.
  assert (H : 0 <= n mod 10 < 10) by (apply Z.mod_pos_bound; lia).
  assert (C : n mod 10 = 0 \/ n mod 10 = 1 \/ n mod 10 = 2 \/ n mod 10 = 3
              \/ n mod 10 = 4 \/ n mod 10 = 5 \/ n mod 10 = 6 \/ n mod 10 = 7
              \/ n mod 10 = 8 \/ n mod 10 = 9) by lia.
  clear H. repeat (destruct C as [->|C]); try rewrite C; simpl; tauto.
Qed.

Lemma digit_char_decimal n : isdecimal (digit_char n) = true.
Proof.
  destruct (digit_char_cases n) as [H _]. simpl in H.
  repeat (destruct H as [<-|H]; [reflexivity|]). contradiction.
Qed.

(** A string that starts with a digit has neither white space nor sign
    for [int] to skip. *)
Lemma int_of_digit c rest :
  isdecimal c = true ->
  int (c :: rest) =
  match scan_digits (c :: rest) 0 0 AtStart with
  | None => raise ValueError
  | Some (v, digits, rest') =>
      if (int_max_str_digits <? digits)%nat then raise ValueError
      else match skip int_space rest' with
           | [] => ret v
           | _ => raise ValueError
           end
  end.
Proof.
  destruct c as [[] [] [] [] [] [] [] []]; intros H;
    first [discriminate H | reflexivity].
Qed.

Lemma scan_digit c s acc digits prev :
  isdecimal c = true ->
  scan_digits (c :: s) acc digits prev =
  scan_digits s (10 * acc + digit_value c) (S digits) AfterDigit.
Proof. intros H. simpl. now rewrite H. Qed.

Lemma int_pad2 n : 0 <= n < 100 -> int (pad2 n) = inr n.
Proof.
  intros H. unfold pad2.
  rewrite int_of_digit by apply digit_char_decimal.
  rewrite !scan_digit by apply digit_char_decimal.
  cbn -[Z.mul Z.add Z.div Z.modulo digit_char digit_value].
  rewrite !(proj2 (digit_char_cases _)). unfold ret. f_equal.
  rewrite (Z.mod_small (n / 10)) by (split; [apply Z.div_pos | apply Z.div_lt_upper_bound]; lia).
  pose proof (Z.div_mod n 10 ltac:(lia)). lia.
Qed.

Lemma int_pad4 n : 0 <= n < 10000 -> int (pad4 n) = inr n.
Proof.
  intros H. unfold pad4.
  rewrite int_of_digit by apply digit_char_decimal.
  rewrite !scan_digit by apply digit_char_decimal.
  cbn -[Z.mul Z.add Z.div Z.modulo digit_char digit_value].
  rewrite !(proj2 (digit_char_cases _)). unfold ret. f_equal.
  pose proof (Z.div_mod n 10 ltac:(lia)).
  pose proof (Z.div_mod (n / 10) 10 ltac:(lia)).
  pose proof (Z.div_mod (n / 100) 10 ltac:(lia)).
  assert (E1 : n / 100 = n / 10 / 10) by (rewrite Z.div_div by lia; reflexivity).
  assert (E2 : n / 1000 = n / 100 / 10) by (rewrite Z.div_div by lia; reflexivity).
  rewrite (Z.mod_small (n / 1000))
    by (split; [apply Z.div_pos | apply Z.div_lt_upper_bound]; lia).
  lia.
Qed.

Lemma split_on_field sep a rest :
  ~ In sep a ->
  split_on sep (a ++ sep :: rest) = a :: split_on sep rest.
Proof.
  induction a as [|c a IH]; intros N; simpl.
  - now rewrite Ascii.eqb_refl.
  - destruct (Ascii.eqb_spec c sep) as [->|_]; [exfalso; apply N; now left|].
    rewrite IH by (intros I; apply N; now right). reflexivity.
Qed.

Lemma split_on_last sep a : ~ In sep a -> split_on sep a = [a].
Proof.
  induction a as [|c a IH]; intros N; simpl; [reflexivity|].
  destruct (Ascii.eqb_spec c sep) as [->|_]; [exfalso; apply N; now left|].
  rewrite IH by (intros I; apply N; now right). reflexivity.
Qed.

Lemma digit_char_not_hyphen n : digit_char n <> "-"%char.
Proof.
  destruct (digit_char_cases n) as [H _]. simpl in H.
  repeat (destruct H as [<-|H]; [discriminate|]). contradiction.
Qed.

Lemma pad2_no_hyphen n : ~ In "-"%char (pad2 n).
Proof.
  unfold pad2; simpl. intros [H|[H|[]]];
    now apply digit_char_not_hyphen in H.
Qed.

Lemma pad4_no_hyphen n : ~ In "-"%char (pad4 n).
Proof.
  unfold pad4; simpl. intros [H|[H|[H|[H|[]]]]];
    now apply digit_char_not_hyphen in H.
Qed.

Lemma year_digits_four n : 1000 <= n -> year_digits n = pad4 n.
Proof.
  intros H. unfold year_digits.
  destruct (Z.ltb_spec n 10); [lia|]. destruct (Z.ltb_spec n 100); [lia|].
  destruct (Z.ltb_spec n 1000); [lia | reflexivity].
Qed.

Lemma year_digits_short n :
  n < 1000 -> (length (year_digits n) <= 3)%nat.
Proof.
  intros H. unfold year_digits.
  destruct (Z.ltb_spec n 10); [simpl; lia|].
  destruct (Z.ltb_spec n 100); [simpl; lia|].
  destruct (Z.ltb_spec n 1000); [simpl; lia | lia].
Qed.

Lemma int_year_digits n : 0 <= n < 10000 -> int (year_digits n) = inr n.
Proof.
  intros H. unfold year_digits.
  destruct (Z.ltb_spec n 10).
  { rewrite int_of_digit by apply digit_char_decimal.
    rewrite !scan_digit by apply digit_char_decimal.
    cbn -[Z.mul Z.add Z.div Z.modulo digit_char digit_value].
    rewrite !(proj2 (digit_char_cases _)). unfold ret. f_equal.
    rewrite Z.mod_small by lia. lia. }
  destruct (Z.ltb_spec n 100); [apply int_pad2; lia|].
  destruct (Z.ltb_spec n 1000); [|apply int_pad4; lia].
  rewrite int_of_digit by apply digit_char_decimal.
  rewrite !scan_digit by apply digit_char_decimal.
  cbn -[Z.mul Z.add Z.div Z.modulo digit_char digit_value].
  rewrite !(proj2 (digit_char_cases _)). unfold ret. f_equal.
  pose proof (Z.div_mod n 10 ltac:(lia)).
  pose proof (Z.div_mod (n / 10) 10 ltac:(lia)).
  assert (E1 : n / 100 = n / 10 / 10) by (rewrite Z.div_div by lia; reflexivity).
  rewrite (Z.mod_small (n / 100))
    by (split; [apply Z.div_pos | apply Z.div_lt_upper_bound]; lia).
  lia.
Qed.

Lemma year_digits_no_hyphen n : ~ In "-"%char (year_digits n).
Proof.
  unfold year_digits.
  destruct (n <? 10); [|destruct (n <? 100); [|destruct (n <? 1000)]];
    simpl; intros H;
    repeat (destruct H as [H|H]; [now apply digit_char_not_hyphen in H|]);
    contradiction.
Qed.

(** The long form of every date that [strftime('%d-%m-%Y')] writes. *)
Lemma formatted_date_of_canonical y m d :
  valid_date y m d = true ->
  Blog.formatted_date (strftime_dmY (mk_datetime y m d))
  = strftime_BdY (mk_datetime y m d).
Proof.
  intros V. pose proof (valid_date_bounds _ _ _ V) as (By & Bm & Bd).
  unfold Blog.formatted_date, Blog.formatted_date_try, strftime_dmY.
  cbn [year month day].
  change (lit "-" ++ pad2 m ++ lit "-" ++ year_digits y)
    with ("-"%char :: pad2 m ++ "-"%char :: year_digits y).
  rewrite split_on_field by apply pad2_no_hyphen.
  rewrite split_on_field by apply pad2_no_hyphen.
  rewrite split_on_last by apply year_digits_no_hyphen.
  rewrite int_year_digits, int_pad2, int_pad2 by lia.
  cbn [bind]. now rewrite new_of_valid.
Qed.

(** The long form of every date stored in the form DD-MM-YYYY. *)
Lemma formatted_date_of_padded y m d :
  valid_date y m d = true ->
  Blog.formatted_date (pad2 d ++ lit "-" ++ pad2 m ++ lit "-" ++ pad4 y)
  = strftime_BdY (mk_datetime y m d).
Proof.
  intros V. pose proof (valid_date_bounds _ _ _ V) as (By & Bm & Bd).
  unfold Blog.formatted_date, Blog.formatted_date_try.
  change (lit "-" ++ pad2 m ++ lit "-" ++ pad4 y)
    with ("-"%char :: pad2 m ++ "-"%char :: pad4 y).
  rewrite split_on_field by apply pad2_no_hyphen.
  rewrite split_on_field by apply pad2_no_hyphen.
  rewrite split_on_last by apply pad4_no_hyphen.
  rewrite int_pad4, int_pad2, int_pad2 by lia.
  cbn [bind]. now rewrite new_of_valid.
Qed.

Lemma range_cases lo n d :
  lo <= d < lo + Z.of_nat n ->
  In d (map (fun i => lo + Z.of_nat i) (seq 0 n)).
Proof.
  intros H. apply in_map_iff. exists (Z.to_nat (d - lo)).
  split; [lia|]. apply in_seq. lia.
Qed.

(** A day in the canonical form, then the hyphen. *)
Lemma matches_day d fmt g rest :
  1 <= d <= 31 ->
  matches (Dd :: Lit "-" :: fmt) g (pad2 d ++ "-"%char :: rest)
  = matches fmt (set_group Dd (pad2 d) g) rest.
Proof.
  intros H. assert (I : In d (map (fun i => 1 + Z.of_nat i) (seq 0 31)))
    by (apply range_cases; lia).
  clear H. simpl in I.
  repeat (destruct I as [<-|I]; [cbn; now rewrite ?app_nil_r|]).
  contradiction.
Qed.

(** A month in the canonical form, then the hyphen. *)
Lemma matches_month m fmt g rest :
  1 <= m <= 12 ->
  matches (Dm :: Lit "-" :: fmt) g (pad2 m ++ "-"%char :: rest)
  = matches fmt (set_group Dm (pad2 m) g) rest.
Proof.
  intros H. assert (I : In m (map (fun i => 1 + Z.of_nat i) (seq 0 12)))
    by (apply range_cases; lia).
  clear H. simpl in I.
  repeat (destruct I as [<-|I]; [cbn; now rewrite ?app_nil_r|]).
  contradiction.
Qed.

Lemma matches_year y g :
  matches [DY] g (pad4 y) = [(set_group DY (pad4 y) g, [])].
Proof.
  unfold pad4. cbn -[digit_char]. now rewrite !digit_char_decimal.
Qed.

(** [strptime] with ['%d-%m-%Y'] reads back what [strftime] writes for
    a year of four digits. *)
Lemma strptime_of_canonical y m d :
  valid_date y m d = true -> 1000 <= y ->
  strptime (strftime_dmY (mk_datetime y m d)) fmt_dmY
  = inr (mk_datetime y m d).
Proof.
  intros V Y. pose proof (valid_date_bounds _ _ _ V) as (By & Bm & Bd).
  unfold strptime, strftime_dmY, fmt_dmY. cbn [year month day].
  rewrite (year_digits_four y Y).
  change (lit "-" ++ pad2 m ++ lit "-" ++ pad4 y)
    with ("-"%char :: pad2 m ++ "-"%char :: pad4 y).
  rewrite matches_day, matches_month, matches_year by lia.
  cbn [set_group gY gm gd].
  rewrite int_pad4, int_pad2, int_pad2 by lia.
  cbn [bind]. now apply new_of_valid.
Qed.

(** ['%Y-%m-%d'] does not read what ['%d-%m-%Y'] writes: its third
    character is no digit. *)
Lemma strptime_Ymd_of_canonical t :
  strptime (strftime_dmY t) fmt_Ymd = inl ValueError.
Proof.
  unfold strptime, strftime_dmY, fmt_Ymd, pad2.
  cbn -[digit_char year_digits isdecimal].
  change (isdecimal "-") with false.
  now rewrite !andb_false_r, andb_false_l.
Qed.

(** [validate_date] leaves the canonical form of a date as it is. *)
Lemma validate_date_of_canonical y m d :
  valid_date y m d = true -> 1000 <= y ->
  App.validate_date (strftime_dmY (mk_datetime y m d))
  = Some (strftime_dmY (mk_datetime y m d)).
Proof.
  intros V Y. unfold App.validate_date, App.validate_date_loop.
  now rewrite strptime_Ymd_of_canonical, strptime_of_canonical.
Qed.

(** [%Y] reads four digits: it does not read a year written with fewer. *)
Lemma matches_year_short g s : (length s <= 3)%nat -> matches [DY] g s = [].
Proof.
  destruct s as [|a [|b [|c [|e r]]]]; intros H; try reflexivity.
  simpl in H. lia.
Qed.

Lemma strptime_dmY_short_year y m d :
  valid_date y m d = true -> y < 1000 ->
  strptime (strftime_dmY (mk_datetime y m d)) fmt_dmY = inl ValueError.
Proof.
  intros V Y. pose proof (valid_date_bounds _ _ _ V) as (By & Bm & Bd).
  unfold strptime, strftime_dmY, fmt_dmY. cbn [year month day].
  change (lit "-" ++ pad2 m ++ lit "-" ++ year_digits y)
    with ("-"%char :: pad2 m ++ "-"%char :: year_digits y).
  rewrite matches_day, matches_month by lia.
  now rewrite matches_year_short by now apply year_digits_short.
Qed.

Lemma matches_lit_mismatch x fmt g c r :
  Ascii.eqb c x = false -> matches (Lit x :: fmt) g (c :: r) = [].
Proof. intros H. simpl. now rewrite H. Qed.

Lemma slash_not_decimal c : isdecimal c = true -> Ascii.eqb c "/"%char = false.
Proof.
  destruct c as [[] [] [] [] [] [] [] []]; intros H;
    first [discriminate H | reflexivity].
Qed.

(** A text whose third character is a hyphen does not match
    ['%m/%d/%Y']. *)
Lemma matches_mdY_at_hyphen g a b r :
  isdecimal b = true -> matches fmt_mdY g (a :: b :: "-"%char :: r) = [].
Proof.
  intros Hb. unfold fmt_mdY.
  change (matches (Dm :: Lit "/" :: [Dd; Lit "/"; DY]) g
            (a :: b :: "-"%char :: r))
    with (flat_map
            (fun '(text, rest) =>
               matches (Lit "/" :: [Dd; Lit "/"; DY]) (set_group Dm text g) rest)
            (match_directive Dm (a :: b :: "-"%char :: r))).
  unfold match_directive, one, two.
  assert (H1 : forall fmt g', matches (Lit "/" :: fmt) g' ("-"%char :: r) = [])
    by (intros; now apply matches_lit_mismatch).
  assert (H2 : forall fmt g' r', matches (Lit "/" :: fmt) g' (b :: r') = [])
    by (intros; apply matches_lit_mismatch; now apply slash_not_decimal).
  repeat match goal with
         | |- context [if ?x then _ else _] => destruct x
         end;
    cbn [app flat_map]; rewrite ?H1, ?H2; reflexivity.
Qed.

(** ['%m/%d/%Y'] does not read what ['%d-%m-%Y'] writes. *)
Lemma strptime_mdY_of_canonical t :
  strptime (strftime_dmY t) fmt_mdY = inl ValueError.
Proof.
  unfold strptime, strftime_dmY, pad2 at 1.
  change ([digit_char (day t / 10); digit_char (day t)] ++ lit "-"
          ++ pad2 (month t) ++ lit "-" ++ year_digits (year t))
    with (digit_char (day t / 10) :: digit_char (day t) :: "-"%char
          :: pad2 (month t) ++ lit "-" ++ year_digits (year t)).
  now rewrite matches_mdY_at_hyphen by apply digit_char_decimal.
Qed.

(** [validate_date] rejects what it returns for a year below 1000. *)
Lemma validate_date_short_year y m d :
  valid_date y m d = true -> y < 1000 ->
  App.validate_date (strftime_dmY (mk_datetime y m d)) = None.
Proof.
  intros V Y. unfold App.validate_date, App.validate_date_loop.
  now rewrite strptime_Ymd_of_canonical, strptime_dmY_short_year,
    strptime_mdY_of_canonical.
Qed.

End CanonicalDates.

(** C2. [validate_date] tries ['%Y-%m-%d'], ['%d-%m-%Y'], ['%m/%d/%Y'] in
    that order, renders the first date that parses with ['%d-%m-%Y'], and
    returns [None] when none parses; the four inputs of the specification
    give the results it states.  What it returns is two digits of the
    day, two of the month and the year of a date of the calendar.  For a
    year from 1000 on that is the canonical form DD-MM-YYYY, which
    [validate_date] maps to itself.  For a year below 1000 it is not: the
    year is written without padding, so that ["0999-01-15"] gives
    ["15-01-999"], a text that [validate_date] itself rejects. *)
Theorem validate_date_first_format_wins :
  (forall s,
     App.validate_date s =
     match Datetime.strptime s Datetime.fmt_Ymd with
     | inr t => Some (Datetime.strftime_dmY t)
     | inl _ =>
         match Datetime.strptime s Datetime.fmt_dmY with
         | inr t => Some (Datetime.strftime_dmY t)
         | inl _ =>
             match Datetime.strptime s Datetime.fmt_mdY with
             | inr t => Some (Datetime.strftime_dmY t)
             | inl _ => None
             end
         end
     end)
  /\ (forall s, match App.validate_date s with
                | Some out =>
                    exists y m d,
                      Datetime.valid_date y m d = true
                      /\ out = Datetime.pad2 d ++ lit "-" ++ Datetime.pad2 m
                               ++ lit "-" ++ Datetime.year_digits y
                      /\ (1000 <= y ->
                          canonical_dmY out
                          /\ App.validate_date out = Some out)
                      /\ (y < 1000 ->
                          (length out < 10)%nat
                          /\ App.validate_date out = None)
                | None => True
                end)
  /\ App.validate_date (lit "2024-01-15") = Some (lit "15-01-2024")
  /\ App.validate_date (lit "15-01-2024") = Some (lit "15-01-2024")
  /\ App.validate_date (lit "01/15/2024") = Some (lit "15-01-2024")
  /\ App.validate_date (lit "not-a-date") = None
  /\ App.validate_date (lit "0999-01-15") = Some (lit "15-01-999")
  /\ App.validate_date (lit "15-01-999") = None.
Proof.
  assert (Order : forall s,
     App.validate_date s =
     match Datetime.strptime s Datetime.fmt_Ymd with
     | inr t => Some (Datetime.strftime_dmY t)
     | inl _ =>
         match Datetime.strptime s Datetime.fmt_dmY with
         | inr t => Some (Datetime.strftime_dmY t)
         | inl _ =>
             match Datetime.strptime s Datetime.fmt_mdY with
             | inr t => Some (Datetime.strftime_dmY t)
             | inl _ => None
             end
         end
     end).
  { intros s. unfold App.validate_date, App.validate_date_loop.
    destruct (Datetime.strptime s Datetime.fmt_Ymd) as [e1|t1] eqn:E1;
      [apply strptime_raises in E1; subst e1 | reflexivity].
    destruct (Datetime.strptime s Datetime.fmt_dmY) as [e2|t2] eqn:E2;
      [apply strptime_raises in E2; subst e2 | reflexivity].
    destruct (Datetime.strptime s Datetime.fmt_mdY) as [e3|t3] eqn:E3;
      [apply strptime_raises in E3; subst e3 | reflexivity].
    reflexivity. }
  split; [exact Order|]. split; [|repeat split; reflexivity].
  intros s. rewrite Order.
  assert (C : forall fmt t, Datetime.strptime s fmt = inr t ->
                exists y m d,
                  Datetime.valid_date y m d = true
                  /\ Datetime.strftime_dmY t
                     = Datetime.pad2 d ++ lit "-" ++ Datetime.pad2 m
                       ++ lit "-" ++ Datetime.year_digits y
                  /\ (1000 <= y ->
                      canonical_dmY (Datetime.strftime_dmY t)
                      /\ App.validate_date (Datetime.strftime_dmY t)
                         = Some (Datetime.strftime_dmY t))
                  /\ (y < 1000 ->
                      (length (Datetime.strftime_dmY t) < 10)%nat
                      /\ App.validate_date (Datetime.strftime_dmY t) = None)).
  { intros fmt [y m d] H. apply strptime_valid in H. simpl in H.
    exists y, m, d. split; [exact H|]. split; [reflexivity|]. split.
    - intros Y. split; [|now apply validate_date_of_canonical].
      exists y, m, d. split; [exact H|].
      unfold Datetime.strftime_dmY. cbn [Datetime.year Datetime.month
                                         Datetime.day].
      now rewrite year_digits_four.
    - intros Y. split; [|now apply validate_date_short_year].
      pose proof (year_digits_short y Y) as L.
      unfold Datetime.strftime_dmY. cbn [Datetime.year Datetime.month
                                         Datetime.day].
      rewrite !length_app. cbn [length Datetime.pad2 lit list_ascii_of_string].
      lia. }
  destruct (Datetime.strptime s Datetime.fmt_Ymd) eqn:E1; [|now apply (C _ _ E1)].
  destruct (Datetime.strptime s Datetime.fmt_dmY) eqn:E2; [|now apply (C _ _ E2)].
  destruct (Datetime.strptime s Datetime.fmt_mdY) eqn:E3; [|now apply (C _ _ E3)].
  exact I.
Qed.

(** C9. [formatted_date] returns a string for every stored date and never
    raises: the long form of the date (month name, two digits of the day,
    the year in full, in decimal without padding) when the three fields
    between hyphens convert to a date of the calendar, and the stored
    string itself whenever a step of that fails.  Every date stored in
    the form DD-MM-YYYY gets its long form, and so does every date that
    [validate_date] stores, years below 1000 included: ["05-01-0999"] and
    ["05-01-999"] both read ["January 05, 999"]. *)
Theorem formatted_date_total :
  (forall date,
     (exists t,
         Datetime.valid_date (Datetime.year t) (Datetime.month t)
                             (Datetime.day t) = true
         /\ Blog.formatted_date date
            = Datetime.month_name (Datetime.month t) ++ lit " "
              ++ Datetime.pad2 (Datetime.day t) ++ lit ", "
              ++ Datetime.year_digits (Datetime.year t))
     \/ (exists e, Blog.formatted_date_try date = inl e)
        /\ Blog.formatted_date date = date)
  /\ (forall y m d,
        Datetime.valid_date y m d = true ->
        Blog.formatted_date
          (Datetime.pad2 d ++ lit "-" ++ Datetime.pad2 m ++ lit "-"
           ++ Datetime.pad4 y)
        = Datetime.month_name m ++ lit " " ++ Datetime.pad2 d ++ lit ", "
          ++ Datetime.year_digits y
        /\ Blog.formatted_date
             (Datetime.pad2 d ++ lit "-" ++ Datetime.pad2 m ++ lit "-"
              ++ Datetime.year_digits y)
           = Datetime.month_name m ++ lit " " ++ Datetime.pad2 d ++ lit ", "
             ++ Datetime.year_digits y)
  /\ Blog.formatted_date (lit "05-01-2024") = lit "January 05, 2024"
  /\ Blog.formatted_date (lit "not-a-date") = lit "not-a-date"
  /\ Blog.formatted_date (lit "31-02-2024") = lit "31-02-2024"
  /\ Blog.formatted_date (lit "05-01-0999") = lit "January 05, 999"
  /\ Blog.formatted_date (lit "05-01-999") = lit "January 05, 999".
Proof.
  split; [|split; [|repeat split; reflexivity]].
  - intros date. unfold Blog.formatted_date.
    destruct (Blog.formatted_date_try date) as [e|out] eqn:E.
    + right. split; [now exists e | reflexivity].
    + left. unfold Blog.formatted_date_try in E.
      destruct (split_on "-" date) as [|ds [|ms [|ys [|? ?]]]]; try discriminate.
      apply bind_inr in E as (y & _ & E). apply bind_inr in E as (m & _ & E).
      apply bind_inr in E as (d & _ & E). apply bind_inr in E as (t & N & E).
      apply new_valid in N as [-> V]. injection E as <-.
      exists (Datetime.mk_datetime y m d). split; [exact V | reflexivity].
  - intros y m d V. split.
    + exact (formatted_date_of_padded y m d V).
    + exact (formatted_date_of_canonical y m d V).
Qed.

(** ** Queries: [ORDER BY] *)

Section OrderBy.

Context {A : Type} (leb : A -> A -> bool).

Hypothesis leb_total : forall x y, leb x y = true \/ leb y x = true.
Hypothesis leb_trans :
  forall x y z, leb x y = true -> leb y z = true -> leb x z = true.

Lemma insert_sorted_perm x l : Permutation (Db.insert_sorted leb x l) (x :: l).
Proof.
  induction l as [|y l IH]; simpl; [reflexivity|].
  destruct (leb x y); [reflexivity|].
  rewrite IH. apply perm_swap.
Qed.

Lemma order_by_perm l : Permutation (Db.order_by leb l) l.
Proof.
  induction l as [|x l IH]; simpl; [constructor|].
  unfold Db.order_by in *; simpl. rewrite insert_sorted_perm. now constructor.
Qed.

Lemma insert_sorted_strongly x l :
  StronglySorted (fun x y => leb x y = true) l ->
  StronglySorted (fun x y => leb x y = true) (Db.insert_sorted leb x l).
Proof.
  induction 1 as [|y l S IH F]; simpl.
  - repeat constructor.
  - destruct (leb x y) eqn:E.
    + constructor; [now constructor|].
      constructor; [exact E|].
      eapply Forall_impl; [|exact F]. intros z Hz. exact (leb_trans _ _ _ E Hz).
    + constructor; [exact IH|].
      eapply Permutation_Forall; [symmetry; apply insert_sorted_perm|].
      constructor; [|exact F].
      destruct (leb_total x y) as [H|H]; [congruence | exact H].
Qed.

Lemma order_by_sorted l :
  StronglySorted (fun x y => leb x y = true) (Db.order_by leb l).
Proof.
  induction l as [|x l IH]; [constructor|].
  apply insert_sorted_strongly, IH.
Qed.

End OrderBy.

Lemma str_leb_total a : forall b, Db.str_leb a b = true \/ Db.str_leb b a = true.
Proof.
  induction a as [|x a IH]; intros [|y b]; simpl; auto.
  destruct (N.ltb_spec (code x) (code y)), (N.ltb_spec (code y) (code x));
    auto; lia.
Qed.

Lemma str_leb_trans a : forall b c,
  Db.str_leb a b = true -> Db.str_leb b c = true -> Db.str_leb a c = true.
Proof.
  induction a as [|x a IH]; intros [|y b] [|z c]; simpl; auto; try discriminate.
  destruct (N.ltb_spec (code x) (code y)), (N.ltb_spec (code y) (code x)),
           (N.ltb_spec (code y) (code z)), (N.ltb_spec (code z) (code y)),
           (N.ltb_spec (code x) (code z)), (N.ltb_spec (code z) (code x));
    try discriminate; try reflexivity; try lia.
  apply IH.
Qed.

Lemma str_eqb_eq a b : str_eqb a b = true <-> a = b.
Proof. unfold str_eqb; destruct (list_eq_dec ascii_dec a b); split; congruence. Qed.

Lemma str_eqb_neq a b : a <> b -> str_eqb a b = false.
Proof. unfold str_eqb; destruct (list_eq_dec ascii_dec a b); congruence. Qed.

(** ** The listing: the sort orders *)

Lemma id_asc_sorted l :
  StronglySorted (fun x y => BlogRow.id x <= BlogRow.id y) (Db.order_by App.id_asc l).
Proof.
  eapply StronglySorted_ind with (P := fun l => StronglySorted _ l);
    [constructor | | apply (order_by_sorted App.id_asc)].
  - intros a l' _ IH F. constructor; [exact IH|].
    eapply Forall_impl; [|exact F]. unfold App.id_asc. intros; lia.
  - unfold App.id_asc; intros; lia.
  - unfold App.id_asc; intros; lia.
Qed.

Lemma id_desc_sorted l :
  StronglySorted (fun x y => BlogRow.id y <= BlogRow.id x) (Db.order_by App.id_desc l).
Proof.
  eapply StronglySorted_ind with (P := fun l => StronglySorted _ l);
    [constructor | | apply (order_by_sorted App.id_desc)].
  - intros a l' _ IH F. constructor; [exact IH|].
    eapply Forall_impl; [|exact F]. unfold App.id_desc. intros; lia.
  - unfold App.id_desc; intros; lia.
  - unfold App.id_desc; intros; lia.
Qed.

(** The listing is the ordering of the rows selected, also when the
    statement raises and there is none. *)
Lemma blogs_sorts_selected sort search d :
  App.blogs sort search d
  = App.sorted_query sort d (App.filtered_query search d).
Proof.
  unfold App.blogs, App.blogs_try, App.filtered_query.
  destruct (App.filtered_query_try search d) as [e|query]; [|reflexivity].
  cbn [bind]. unfold App.sorted_query.
  repeat match goal with
         | |- context [if ?x then _ else _] => destruct x
         end; reflexivity.
Qed.

(** C4. In the listing, ['newest'] orders the selected blogs by id
    descending, ['oldest'] by id ascending, ['title'] by title ascending,
    ['author'] joins the authors and orders by author name ascending, and
    an absent or unrecognized sort value gives the ['newest'] ordering. *)
Theorem blogs_sort_orders (d : Db.db) (search : option str) :
  let selected := App.filtered_query search d in
  let newest := App.blogs (Some (lit "newest")) search d in
  let oldest := App.blogs (Some (lit "oldest")) search d in
  let by_title := App.blogs (Some (lit "title")) search d in
  (Permutation newest selected
   /\ StronglySorted (fun x y => BlogRow.id y <= BlogRow.id x) newest)
  /\ (Permutation oldest selected
      /\ StronglySorted (fun x y => BlogRow.id x <= BlogRow.id y) oldest)
  /\ (Permutation by_title selected
      /\ StronglySorted
           (fun x y => Db.str_leb (BlogRow.title x) (BlogRow.title y) = true)
           by_title)
  /\ (exists joined,
        App.blogs (Some (lit "author")) search d = map fst joined
        /\ Permutation joined (Db.join_author d selected)
        /\ StronglySorted
             (fun x y => Db.str_leb (AuthorRow.name (snd x))
                                    (AuthorRow.name (snd y)) = true)
             joined)
  /\ App.blogs None search d = newest
  /\ (forall sort,
        ~ In sort [lit "oldest"; lit "title"; lit "author"] ->
        App.blogs (Some sort) search d = newest).
Proof.
  cbv zeta. rewrite !blogs_sorts_selected. unfold App.sorted_query.
  cbn [App.arg].
  change (str_eqb (lit "newest") (lit "oldest")) with false.
  change (str_eqb (lit "newest") (lit "title")) with false.
  change (str_eqb (lit "newest") (lit "author")) with false.
  change (str_eqb (lit "oldest") (lit "oldest")) with true.
  change (str_eqb (lit "title") (lit "oldest")) with false.
  change (str_eqb (lit "title") (lit "title")) with true.
  change (str_eqb (lit "author") (lit "oldest")) with false.
  change (str_eqb (lit "author") (lit "title")) with false.
  change (str_eqb (lit "author") (lit "author")) with true.
  cbv iota.
  set (sel := App.filtered_query search d).
  repeat split.
  - apply order_by_perm.
  - apply id_desc_sorted.
  - apply order_by_perm.
  - apply id_asc_sorted.
  - apply order_by_perm.
  - apply (order_by_sorted App.title_asc); unfold App.title_asc; intros.
    + apply str_leb_total.
    + eapply str_leb_trans; eassumption.
  - exists (Db.order_by App.author_name_asc (Db.join_author d sel)).
    repeat split.
    + apply order_by_perm.
    + apply (order_by_sorted App.author_name_asc);
        unfold App.author_name_asc; intros.
      * apply str_leb_total.
      * eapply str_leb_trans; eassumption.
  - intros sort H. simpl in H.
    rewrite blogs_sorts_selected. unfold App.sorted_query. cbn [App.arg].
    rewrite !str_eqb_neq by (intros E; apply H; rewrite E; auto).
    reflexivity.
Qed.

(** ** The counters *)

(** C7. On a blog whose counters are not negative, each of the three
    counter methods returns normally and leaves both counters not
    negative.  The two increments add 1 and commit the blog;
    [decrement_like_count] subtracts 1 and commits the blog when the like
    count is greater than 0, and otherwise changes nothing, neither the
    blog nor the session, so a like count of 0 stays 0. *)
Theorem counters_stay_nonnegative (self : BlogRow.t) (now : Z) (s : Db.session) :
  nonneg_counters self ->
  (forall op,
      In op [Blog.increment_view_count; Blog.increment_like_count;
             Blog.decrement_like_count] ->
      exists self' s', op self now s = (inr self', s') /\ nonneg_counters self')
  /\ (let self' := BlogRow.set_view_count (BlogRow.view_count self + 1) now self in
      Blog.increment_view_count self now s = (inr self', persisted self' s))
  /\ (let self' := BlogRow.set_like_count (BlogRow.like_count self + 1) now self in
      Blog.increment_like_count self now s = (inr self', persisted self' s))
  /\ (0 < BlogRow.like_count self ->
      let self' := BlogRow.set_like_count (BlogRow.like_count self - 1) now self in
      Blog.decrement_like_count self now s = (inr self', persisted self' s))
  /\ (BlogRow.like_count self <= 0 ->
      Blog.decrement_like_count self now s = (inr self, s))
  /\ (BlogRow.like_count self = 0 ->
      exists self' s',
        Blog.decrement_like_count self now s = (inr self', s')
        /\ BlogRow.like_count self' = 0).
Proof.
  intros [V L]. split; [|repeat split].
  - intros op [<-|[<-|[<-|[]]]].
    + eexists _, _; split; [reflexivity|]. split; simpl; lia.
    + eexists _, _; split; [reflexivity|]. split; simpl; lia.
    + unfold Blog.decrement_like_count.
      destruct (Z.gtb_spec (BlogRow.like_count self) 0).
      * eexists _, _; split; [reflexivity|]. split; simpl; lia.
      * eexists _, _; split; [reflexivity|]. split; assumption.
  - intros H. unfold Blog.decrement_like_count.
    destruct (Z.gtb_spec (BlogRow.like_count self) 0); [reflexivity | lia].
  - intros H. unfold Blog.decrement_like_count.
    destruct (Z.gtb_spec (BlogRow.like_count self) 0); [lia | reflexivity].
  - intros H. unfold Blog.decrement_like_count.
    destruct (Z.gtb_spec (BlogRow.like_count self) 0); [lia|].
    eexists _, _; split; [reflexivity | exact H].
Qed.

(** The sample blog has no like: the decrement leaves it so. *)
Lemma counters_stay_nonnegative_witness :
  nonneg_counters Sample.hello
  /\ exists self' s',
       Blog.decrement_like_count Sample.hello 30 (Db.begin Sample.small)
       = (inr self', s')
       /\ BlogRow.like_count self' = 0.
Proof.
  assert (N : nonneg_counters Sample.hello) by (split; simpl; lia).
  split; [exact N|].
  destruct (counters_stay_nonnegative Sample.hello 30 (Db.begin Sample.small) N)
    as (_ & _ & _ & _ & _ & AtZero).
  exact (AtZero eq_refl).
Defined.

(** ** The search filter *)

Section Like.

Import SearchSpec.

Lemma like_percent p t :
  Db.pattern_compare ("%"%char :: p) t =
  Db.pattern_compare p t || match t with
                 | [] => false
                 | _ :: t' => Db.pattern_compare ("%"%char :: p) t'
                 end.
Proof. destruct t; reflexivity. Qed.

Lemma like_percent_skip p pre t :
  Db.pattern_compare ("%"%char :: p) t = true -> Db.pattern_compare ("%"%char :: p) (pre ++ t) = true.
Proof.
  intros H. induction pre as [|c pre IH]; [exact H|].
  simpl app. rewrite like_percent. cbv iota. rewrite IH. apply orb_true_r.
Qed.

Lemma like_percent_all t : Db.pattern_compare (lit "%") t = true.
Proof.
  induction t as [|c t IH]; [reflexivity|].
  change (lit "%") with ["%"%char] in *. rewrite like_percent. cbv iota.
  rewrite IH. apply orb_true_r.
Qed.

(** A text matches itself, whatever wildcards it holds. *)
Lemma like_literal q : forall p t,
  Db.pattern_compare p t = true -> Db.pattern_compare (q ++ p) (q ++ t) = true.
Proof.
  induction q as [|c q IH]; intros p t H; [exact H|].
  simpl app. destruct (Ascii.eqb c "%"%char) eqn:E.
  - apply Ascii.eqb_eq in E; subst c.
    rewrite like_percent. cbv iota.
    rewrite (like_percent (q ++ p) (q ++ t)), (IH p t H).
    simpl. apply orb_true_r.
  - simpl. rewrite E. rewrite Ascii.eqb_refl, orb_true_r. simpl.
    now apply IH.
Qed.

Lemma is_prefix_split q : forall t,
  is_prefix q t = true -> exists post, t = q ++ post.
Proof.
  induction q as [|x q IH]; intros t H; [now exists t|].
  destruct t as [|y t]; [discriminate|]. simpl in H.
  apply andb_true_iff in H as [E H]. apply Ascii.eqb_eq in E; subst y.
  destruct (IH _ H) as [post ->]. now exists post.
Qed.

Lemma substring_split q t :
  substring q t = true -> exists pre post, t = pre ++ q ++ post.
Proof.
  induction t as [|c t IH]; simpl; intros H.
  - rewrite orb_false_r in H. apply is_prefix_split in H as [post ->].
    now exists [], post.
  - apply orb_true_iff in H as [H|H].
    + apply is_prefix_split in H as [post E]. now exists [], post.
    + destruct (IH H) as (pre & post & ->). now exists (c :: pre), post.
Qed.

(** Whatever contains the text is matched by the pattern [%text%]. *)
Lemma substring_matches q column :
  substring q column = true ->
  Db.pattern_compare (lit "%" ++ q ++ lit "%") column = true.
Proof.
  intros H. apply substring_split in H as (pre & post & ->).
  change (lit "%" ++ q ++ lit "%") with ("%"%char :: q ++ lit "%").
  apply like_percent_skip. rewrite like_percent.
  rewrite like_literal; [reflexivity | apply like_percent_all].
Qed.

Lemma substring_refl q : substring q q = true.
Proof.
  assert (P : is_prefix q q = true).
  { induction q as [|c q IH]; [reflexivity|]. simpl.
    now rewrite Ascii.eqb_refl, IH. }
  destruct q; simpl in *; [reflexivity | now rewrite P].
Qed.

(** *** The texts as the comparison reads them *)

Lemma c_string_no_nul s : no_nul s -> Db.c_string s = s.
Proof.
  induction 1 as [|c s Hc _ IH]; [reflexivity|]. simpl.
  destruct (N.eqb_spec (code c) 0); [contradiction | now rewrite IH].
Qed.

Lemma c_string_app s t :
  no_nul s -> Db.c_string (s ++ t) = s ++ Db.c_string t.
Proof.
  induction 1 as [|c s Hc _ IH]; [reflexivity|]. simpl.
  destruct (N.eqb_spec (code c) 0); [contradiction | now rewrite IH].
Qed.

Lemma c_string_pattern q :
  no_nul q -> Db.c_string (lit "%" ++ q ++ lit "%") = lit "%" ++ q ++ lit "%".
Proof.
  intros H. apply c_string_no_nul. unfold no_nul.
  repeat (apply Forall_app; split); try exact H;
    repeat constructor; discriminate.
Qed.

Lemma utf8_bytes_app s t :
  Db.utf8_bytes (s ++ t) = Db.utf8_bytes s + Db.utf8_bytes t.
Proof. induction s as [|c s IH]; simpl; [reflexivity | rewrite IH; lia]. Qed.

Lemma utf8_bytes_repeat c n :
  (code c <? 128)%N = true -> Db.utf8_bytes (repeat c n) = Z.of_nat n.
Proof.
  intros H. induction n as [|n IH]; [reflexivity|].
  cbn [repeat Db.utf8_bytes]. rewrite H, IH. lia.
Qed.

(** *** [LIKE] and [contains] *)

Lemma contains_fits column q :
  pattern_fits q -> Db.contains column q = inr (like_match column q).
Proof.
  unfold pattern_fits, Db.contains, Db.like, like_match. intros H.
  destruct (Z.gtb_spec (Db.utf8_bytes (lit "%" ++ q ++ lit "%"))
                       Db.like_pattern_limit); [lia | reflexivity].
Qed.

Lemma contains_too_long column q :
  ~ pattern_fits q -> Db.contains column q = inl OperationalError.
Proof.
  unfold pattern_fits, Db.contains, Db.like. intros H.
  destruct (Z.gtb_spec (Db.utf8_bytes (lit "%" ++ q ++ lit "%"))
                       Db.like_pattern_limit); [reflexivity | lia].
Qed.

Lemma contains_true column q :
  Db.contains column q = inr true <->
  pattern_fits q /\ like_match column q = true.
Proof.
  destruct (Z.le_gt_cases (Db.utf8_bytes (lit "%" ++ q ++ lit "%"))
                          Db.like_pattern_limit) as [F|F].
  - rewrite (contains_fits column q F). split.
    + intros [= E]. now split.
    + intros [_ ->]. reflexivity.
  - rewrite contains_too_long by (unfold pattern_fits; lia). split.
    + discriminate.
    + intros [F' _]. unfold pattern_fits in F'. lia.
Qed.

(** Whatever contains the text before its first U+0000 is matched by
    [contains], for a text without U+0000 whose pattern fits. *)
Lemma substring_contains q column :
  pattern_fits q -> no_nul q ->
  substring q (Db.c_string column) = true -> Db.contains column q = inr true.
Proof.
  intros F N H. apply contains_true. split; [exact F|].
  unfold like_match. rewrite c_string_pattern by exact N.
  now apply substring_matches.
Qed.

(** *** Clauses that raise nothing, clauses that raise *)

Lemma where_pure {A} (crit : A -> result bool) (p : A -> bool) rows :
  (forall x, In x rows -> crit x = inr (p x)) ->
  Db.where_ crit rows = inr (filter p rows).
Proof.
  induction rows as [|x rows IH]; intros H; [reflexivity|].
  cbn [Db.where_ filter]. rewrite (H x (or_introl eq_refl)). cbn [bind].
  rewrite IH by (intros y I; apply H; now right). reflexivity.
Qed.

Lemma where_raises {A} (crit : A -> result bool) e x rows :
  crit x = inl e -> Db.where_ crit (x :: rows) = inl e.
Proof. intros H. cbn [Db.where_]. now rewrite H. Qed.

Lemma exists_pure {A} (crit : A -> result bool) (p : A -> bool) rows :
  (forall x, crit x = inr (p x)) ->
  Db.exists_ crit rows = inr (existsb p rows).
Proof.
  intros H. induction rows as [|x rows IH]; [reflexivity|].
  cbn [Db.exists_ existsb]. rewrite H. cbn [bind].
  destruct (p x); [reflexivity | exact IH].
Qed.

Lemma search_filter_fits d q b :
  pattern_fits q -> App.search_filter d q b = inr (selects d q b).
Proof.
  intros F. unfold App.search_filter, selects, Db.author_has.
  rewrite !contains_fits by exact F. cbn [bind].
  destruct (like_match (BlogRow.title b) q); [reflexivity|].
  destruct (like_match (BlogRow.content b) q); [reflexivity|].
  cbn [orb]. apply exists_pure. intros a. now apply contains_fits.
Qed.

Lemma search_filter_too_long d q b :
  ~ pattern_fits q -> App.search_filter d q b = inl OperationalError.
Proof.
  intros F. unfold App.search_filter.
  now rewrite (contains_too_long (BlogRow.title b) q F).
Qed.

Lemma selects_spec d q b :
  pattern_fits q ->
  selects d q b = true <->
  Db.contains (BlogRow.title b) q = inr true
  \/ Db.contains (BlogRow.content b) q = inr true
  \/ exists a, In a (Db.authors d) /\ AuthorRow.id a = BlogRow.author_id b
               /\ Db.contains (AuthorRow.name a) q = inr true.
Proof.
  intros F. unfold selects. rewrite !orb_true_iff, existsb_exists.
  rewrite !contains_true. split.
  - intros [[H|H]|(a & I & H)]; [now left | now right; left |].
    right; right. apply filter_In in I as [I E]. exists a.
    split; [exact I|]. split; [lia|]. apply contains_true. now split.
  - intros [[_ H]|[[_ H]|(a & I & E & H)]]; [now left; left | now left; right |].
    right. exists a. split; [|apply contains_true in H; exact (proj2 H)].
    apply filter_In. split; [exact I | lia].
Qed.

(** The statement of the listing, for a search text that is not empty. *)
Lemma filtered_query_try_eq search d :
  strip search <> [] ->
  App.filtered_query_try (Some search) d
  = Db.where_ (App.search_filter d (strip search)) (Db.blogs d).
Proof.
  intros N. unfold App.filtered_query_try. cbn [App.arg].
  destruct (strip search); [contradiction | reflexivity].
Qed.

Lemma filtered_query_fits search d :
  strip search <> [] -> pattern_fits (strip search) ->
  App.filtered_query_try (Some search) d
  = inr (filter (selects d (strip search)) (Db.blogs d)).
Proof.
  intros N F. rewrite filtered_query_try_eq by exact N.
  apply where_pure. intros b _. now apply search_filter_fits.
Qed.

Lemma filtered_query_too_long search d :
  strip search <> [] -> ~ pattern_fits (strip search) ->
  App.filtered_query_try (Some search) d
  = match Db.blogs d with
    | [] => inr []
    | _ :: _ => inl OperationalError
    end.
Proof.
  intros N F. rewrite filtered_query_try_eq by exact N.
  destruct (Db.blogs d) as [|b l]; [reflexivity|].
  apply where_raises. now apply search_filter_too_long.
Qed.

Lemma join_author_spec d rows b a :
  In (b, a) (Db.join_author d rows) <->
  In b rows /\ In a (Db.authors d) /\ AuthorRow.id a = BlogRow.author_id b.
Proof.
  unfold Db.join_author. rewrite in_flat_map. split.
  - intros (b' & I & H). apply in_map_iff in H as (a' & [= <- <-] & F).
    apply filter_In in F as [Ia E]. repeat split; [exact I | exact Ia | lia].
  - intros (I & Ia & E). exists b. split; [exact I|].
    apply in_map_iff. exists a. split; [reflexivity|].
    apply filter_In. split; [exact Ia | lia].
Qed.

End Like.

Lemma In_take {A} (x : A) n : forall l, In x (firstn n l) -> In x l.
Proof.
  induction n as [|n IH]; intros [|y l]; simpl; try tauto.
  intros [->|H]; [now left | right; now apply IH].
Qed.

(** The test of [Blog.search_blogs] on a joined row, for a pattern that
    fits. *)
Lemma search_criterion_fits q row :
  pattern_fits q ->
  Blog.search_criterion q row
  = inr (like_match (BlogRow.title (fst row)) q
         || like_match (BlogRow.content (fst row)) q
         || like_match (AuthorRow.name (snd row)) q).
Proof.
  intros F. unfold Blog.search_criterion.
  rewrite !contains_fits by exact F. cbn [bind].
  destruct (like_match (BlogRow.title (fst row)) q); [reflexivity|].
  destruct (like_match (BlogRow.content (fst row)) q); reflexivity.
Qed.

(** What [Blog.search_blogs] returns without a limit, for a pattern that
    fits: the published blogs that match the query in their title, their
    content or the name of their author. *)
Lemma search_blogs_fits d q :
  pattern_fits q ->
  exists found,
    (forall lim,
        Blog.search_blogs q lim d
        = inr match lim with
              | Some (S _ as n) => firstn n found
              | _ => found
              end)
    /\ forall b,
         In b found <->
         In b (Db.blogs d) /\ BlogRow.published b = true
         /\ exists a,
              In a (Db.authors d) /\ AuthorRow.id a = BlogRow.author_id b
              /\ (Db.contains (BlogRow.title b) q = inr true
                  \/ Db.contains (BlogRow.content b) q = inr true
                  \/ Db.contains (AuthorRow.name a) q = inr true).
Proof.
  intros F.
  set (crit := fun row : BlogRow.t * AuthorRow.t =>
                 like_match (BlogRow.title (fst row)) q
                 || like_match (BlogRow.content (fst row)) q
                 || like_match (AuthorRow.name (snd row)) q).
  set (joined := Db.join_author d
                   (filter (fun b => Bool.eqb (BlogRow.published b) true)
                           (Db.blogs d))).
  exists (map fst (Db.order_by (fun x y => Blog.created_desc (fst x) (fst y))
                     (filter crit joined))).
  split.
  - intros lim. unfold Blog.search_blogs. fold joined.
    rewrite (where_pure (Blog.search_criterion q) crit joined)
      by (intros row _; now apply search_criterion_fits).
    reflexivity.
  - intros b. rewrite in_map_iff. split.
    + intros ([b' a] & E & H). simpl in E; subst b'.
      eapply Permutation_in in H; [|apply order_by_perm].
      apply filter_In in H as [J C]. unfold joined in J.
      apply join_author_spec in J as (Ib & Ia & Eid).
      apply filter_In in Ib as [Ib P]. apply eqb_prop in P.
      split; [exact Ib|]. split; [exact P|]. exists a.
      split; [exact Ia|]. split; [exact Eid|].
      unfold crit in C. cbn [fst snd] in C. rewrite !orb_true_iff in C.
      rewrite !contains_true. tauto.
    + intros (Ib & P & a & Ia & Eid & C). exists (b, a). split; [reflexivity|].
      eapply Permutation_in; [symmetry; apply order_by_perm|].
      apply filter_In. split.
      * unfold joined. apply join_author_spec.
        split; [|now split]. apply filter_In. split; [exact Ib|].
        rewrite P. reflexivity.
      * unfold crit. cbn [fst snd]. rewrite !orb_true_iff.
        rewrite !contains_true in C. tauto.
Qed.

(** With a pattern beyond the limit, [Blog.search_blogs] raises as soon
    as a published blog has an author row. *)
Lemma search_blogs_too_long d q lim b a :
  ~ pattern_fits q ->
  In b (Db.blogs d) -> BlogRow.published b = true ->
  In a (Db.authors d) -> AuthorRow.id a = BlogRow.author_id b ->
  Blog.search_blogs q lim d = inl OperationalError.
Proof.
  intros F Ib P Ia E. unfold Blog.search_blogs.
  assert (J : In (b, a)
                 (Db.join_author d
                    (filter (fun b => Bool.eqb (BlogRow.published b) true)
                            (Db.blogs d)))).
  { apply join_author_spec. split; [|now split].
    apply filter_In. split; [exact Ib | now rewrite P]. }
  destruct (Db.join_author d _) as [|row rows]; [contradiction|].
  rewrite (where_raises (Blog.search_criterion q) OperationalError row rows);
    [reflexivity|].
  unfold Blog.search_criterion.
  now rewrite (contains_too_long (BlogRow.title (fst row)) q F).
Qed.

(** C5, as the code has it.  Take a search text that is not empty once
    stripped.  When its pattern [%text%] fits the limit of [LIKE], the
    statement of the listing raises nothing and selects exactly the blogs
    whose title, whose content, or whose author's name matches the
    pattern, as [LIKE] compares it: up to the first U+0000 of the
    pattern and of the column, the letters A to Z without regard to
    case, [%] and [_] of the text as wildcards.  A column that contains
    the text before its first U+0000 matches, when the text has no
    U+0000, so a text found only in the name of an author still selects
    that author's blogs.  When the pattern is beyond the limit, every
    comparison raises: the statement raises as soon as the table has a
    blog and the listing shows no blog at all.  The stored excerpt plays
    no part.  [Blog.search_blogs] selects by the same three columns,
    among the published blogs that have an author row, and raises for a
    pattern beyond the limit once there is such a blog. *)
Theorem search_filter_selects (d : Db.db) (search : str) :
  strip search <> [] ->
  let q := strip search in
  (pattern_fits q ->
   App.filtered_query_try (Some search) d
   = inr (App.filtered_query (Some search) d)
   /\ (forall b,
         In b (App.filtered_query (Some search) d) <->
         In b (Db.blogs d)
         /\ (Db.contains (BlogRow.title b) q = inr true
             \/ Db.contains (BlogRow.content b) q = inr true
             \/ exists a,
                  In a (Db.authors d)
                  /\ AuthorRow.id a = BlogRow.author_id b
                  /\ Db.contains (AuthorRow.name a) q = inr true))
   /\ (forall column,
         Db.contains column q
         = inr (Db.pattern_compare (Db.c_string (lit "%" ++ q ++ lit "%"))
                                   (Db.c_string column)))
   /\ (no_nul q ->
       forall column,
         SearchSpec.substring q (Db.c_string column) = true ->
         Db.contains column q = inr true)
   /\ (no_nul q ->
       forall b a,
         In b (Db.blogs d) -> In a (Db.authors d) ->
         AuthorRow.id a = BlogRow.author_id b ->
         SearchSpec.substring q (Db.c_string (AuthorRow.name a)) = true ->
         In b (App.filtered_query (Some search) d))
   /\ exists found,
        (forall lim,
            Blog.search_blogs q lim d
            = inr match lim with
                  | Some (S _ as n) => firstn n found
                  | _ => found
                  end)
        /\ forall b,
             In b found <->
             In b (Db.blogs d) /\ BlogRow.published b = true
             /\ exists a,
                  In a (Db.authors d)
                  /\ AuthorRow.id a = BlogRow.author_id b
                  /\ (Db.contains (BlogRow.title b) q = inr true
                      \/ Db.contains (BlogRow.content b) q = inr true
                      \/ Db.contains (AuthorRow.name a) q = inr true))
  /\ (~ pattern_fits q ->
      (forall column, Db.contains column q = inl OperationalError)
      /\ (Db.blogs d <> [] ->
          App.filtered_query_try (Some search) d = inl OperationalError)
      /\ (forall sort, App.blogs sort (Some search) d = [])
      /\ (forall lim b a,
            In b (Db.blogs d) -> BlogRow.published b = true ->
            In a (Db.authors d) -> AuthorRow.id a = BlogRow.author_id b ->
            Blog.search_blogs q lim d = inl OperationalError))
  /\ (forall b e,
        App.search_filter d q (BlogRow.set_excerpt e b)
        = App.search_filter d q b).
Proof.
  intros N q. split; [|split].
  - intros F.
    assert (Q : App.filtered_query (Some search) d
                = filter (selects d q) (Db.blogs d)).
    { unfold App.filtered_query. now rewrite filtered_query_fits. }
    assert (S : forall b,
               In b (App.filtered_query (Some search) d) <->
               In b (Db.blogs d) /\ selects d q b = true).
    { intros b. rewrite Q. apply filter_In. }
    split; [rewrite Q; now apply filtered_query_fits|].
    split; [intros b; rewrite S, (selects_spec d q b F); reflexivity|].
    split; [intros column; now apply contains_fits|].
    split; [intros Z column; now apply substring_contains|].
    split; [|now apply search_blogs_fits].
    intros Z b a Ib Ia E H. apply S. split; [exact Ib|].
    apply (selects_spec d q b F). right; right. exists a.
    split; [exact Ia|]. split; [exact E|]. now apply substring_contains.
  - intros F.
    split; [intros column; now apply contains_too_long|].
    split.
    { intros B. rewrite filtered_query_too_long by assumption.
      destruct (Db.blogs d); [contradiction | reflexivity]. }
    split.
    { intros sort. rewrite blogs_sorts_selected.
      assert (E : App.filtered_query (Some search) d = []).
      { unfold App.filtered_query.
        rewrite filtered_query_too_long by assumption.
        destruct (Db.blogs d); reflexivity. }
      rewrite E. unfold App.sorted_query.
      repeat match goal with
             | |- context [if ?x then _ else _] => destruct x
             end; reflexivity. }
    intros lim b a. now apply search_blogs_too_long.
  - reflexivity.
Qed.

(** The text "world" is found only in the title of the sample blog, and
    selects it. *)
Lemma search_filter_selects_witness :
  strip (lit " world ") <> []
  /\ pattern_fits (strip (lit " world "))
  /\ In Sample.hello (App.filtered_query (Some (lit " world ")) Sample.small).
Proof.
  assert (N : strip (lit " world ") <> []) by discriminate.
  assert (F : pattern_fits (strip (lit " world ")))
    by (vm_compute; discriminate).
  split; [exact N|]. split; [exact F|].
  destruct (search_filter_selects Sample.small (lit " world ") N)
    as (Fits & _ & _).
  destruct (Fits F) as (_ & Sel & _).
  apply (proj2 (Sel Sample.hello)).
  split; [now left | left; reflexivity].
Defined.

Lemma strip_repeat c n : isspace c = false -> strip (repeat c n) = repeat c n.
Proof.
  intros H.
  assert (L : lstrip (repeat c n) = repeat c n).
  { destruct n; [reflexivity|]. simpl. now rewrite H. }
  unfold strip. now rewrite L, rev_repeat, L, rev_repeat.
Qed.

(** C5, as the specification states it, fails.  The search text "WORLD"
    selects the sample blog although neither its title, nor its content,
    nor the name of its author contains "WORLD"; so does "h_l%w", and so
    does a text that starts with U+0000.  The text "Second" does not
    select a blog whose title contains it after a U+0000.  A text of
    49999 characters does not select the blog whose content it is: the
    listing is empty. *)
Lemma search_selects_without_substring :
  (App.blogs None (Some (lit "WORLD")) Sample.small = [Sample.hello]
   /\ SearchSpec.substring (lit "WORLD") (BlogRow.title Sample.hello) = false
   /\ SearchSpec.substring (lit "WORLD") (BlogRow.content Sample.hello) = false
   /\ SearchSpec.substring (lit "WORLD") (AuthorRow.name Sample.alice) = false)
  /\ (App.blogs None (Some (lit "h_l%w")) Sample.small = [Sample.hello]
      /\ SearchSpec.substring (lit "h_l%w") (BlogRow.title Sample.hello) = false
      /\ SearchSpec.substring (lit "h_l%w") (BlogRow.content Sample.hello)
         = false
      /\ SearchSpec.substring (lit "h_l%w") (AuthorRow.name Sample.alice)
         = false)
  /\ (App.blogs None (Some (Sample.nul :: lit "zzz")) Sample.small
      = [Sample.hello]
      /\ SearchSpec.substring (Sample.nul :: lit "zzz")
                              (BlogRow.title Sample.hello) = false
      /\ SearchSpec.substring (Sample.nul :: lit "zzz")
                              (BlogRow.content Sample.hello) = false
      /\ SearchSpec.substring (Sample.nul :: lit "zzz")
                              (AuthorRow.name Sample.alice) = false)
  /\ (App.blogs None (Some (lit "Second")) Sample.hidden = []
      /\ In Sample.nul_post (Db.blogs Sample.hidden)
      /\ SearchSpec.substring (lit "Second") (BlogRow.title Sample.nul_post)
         = true)
  /\ (App.blogs None (Some Sample.long_text) Sample.long = []
      /\ In Sample.long_post (Db.blogs Sample.long)
      /\ SearchSpec.substring Sample.long_text
                              (BlogRow.content Sample.long_post) = true).
Proof.
  split; [repeat split; reflexivity|].
  split; [repeat split; reflexivity|].
  split; [repeat split; reflexivity|].
  split; [split; [reflexivity | split; [now left | reflexivity]]|].
  assert (S : strip Sample.long_text = Sample.long_text)
    by (apply strip_repeat; reflexivity).
  assert (N : strip Sample.long_text <> []).
  { rewrite S. unfold Sample.long_text.
    intros E. apply (f_equal (@length ascii)) in E.
    rewrite repeat_length in E. cbn [length] in E. lia. }
  assert (F : ~ pattern_fits (strip Sample.long_text)).
  { rewrite S. unfold pattern_fits, Sample.long_text, Db.like_pattern_limit.
    rewrite !utf8_bytes_app, utf8_bytes_repeat by reflexivity.
    change (Db.utf8_bytes (lit "%")) with 1. lia. }
  split; [|split; [now left | apply substring_refl]].
  rewrite blogs_sorts_selected. unfold App.filtered_query.
  rewrite (filtered_query_too_long Sample.long_text Sample.long N F).
  reflexivity.
Qed.

(** ** The related blogs *)

Lemma created_desc_sorted l :
  StronglySorted (fun x y => BlogRow.created_at y <= BlogRow.created_at x)
                 (Db.order_by Blog.created_desc l).
Proof.
  eapply StronglySorted_ind with (P := fun l => StronglySorted _ l);
    [constructor | | apply (order_by_sorted Blog.created_desc)].
  - intros a l' _ IH F. constructor; [exact IH|].
    eapply Forall_impl; [|exact F]. unfold Blog.created_desc. intros; lia.
  - unfold Blog.created_desc; intros; lia.
  - unfold Blog.created_desc; intros; lia.
Qed.

Lemma StronglySorted_take {A} (R : A -> A -> Prop) n : forall l,
  StronglySorted R l -> StronglySorted R (firstn n l).
Proof.
  induction n as [|n IH]; intros l S; [constructor|].
  destruct S as [|x l S F]; simpl; constructor;
    [now apply IH | now apply Forall_take].
Qed.

(** The rows that [LIMIT] leaves out come after the rows it keeps. *)
Lemma limit_keeps_first {A} (R : A -> A -> Prop) n : forall l,
  StronglySorted R l ->
  forall x y, In x (firstn n l) -> In y (skipn n l) -> R x y.
Proof.
  induction n as [|n IH]; intros l S x y Hx Hy; [contradiction|].
  destruct S as [|a l S F]; [contradiction|]. simpl in Hx, Hy.
  destruct Hx as [<-|Hx].
  - rewrite Forall_forall in F. apply F.
    rewrite <- (firstn_skipn n l). apply in_or_app. now right.
  - now apply (IH l S).
Qed.

(** The first rows, at most three, of any order of the candidates. *)
Lemma limit_of_candidates (sel : BlogRow.t -> bool) rows ordered n :
  Permutation ordered (filter sel rows) ->
  (length (firstn n ordered) <= n)%nat
  /\ Forall (fun b => In b rows /\ sel b = true) (firstn n ordered).
Proof.
  intros P. split; [rewrite length_firstn; lia|].
  apply Forall_take. apply Forall_forall. intros b H.
  eapply Permutation_in in H; [|exact P]. now apply filter_In in H.
Qed.

(** C6, as the code has it.  The statement of [Blog.get_related_blogs]
    selects the published blogs of the same author other than the blog
    itself, orders them by creation time, the most recent first, and
    keeps the first 3; it has no second sort key, so the order of blogs
    created at the same time is the engine's.  Whatever that order is,
    the result has at most 3 blogs, all of them published blogs of the
    same author other than the blog itself, the most recently created
    first, and none of the blogs left out was created later than one
    that is returned.  What [get_related_blogs] returns is such a
    result.  The related blogs of [view_blog], which are not ordered,
    are at most 3 blogs of the same author other than the blog itself,
    in whatever order the rows are read. *)
Theorem related_blogs_bounds (self : BlogRow.t) (d : Db.db) :
  let related := Blog.get_related_blogs self 3 d in
  let candidates :=
    filter (fun b => (BlogRow.author_id b =? BlogRow.author_id self)
                     && negb (BlogRow.id b =? BlogRow.id self)
                     && Bool.eqb (BlogRow.published b) true)
           (Db.blogs d) in
  let newest_first :=
    fun x y => BlogRow.created_at y <= BlogRow.created_at x in
  (length related <= 3)%nat
  /\ Forall (fun b => In b (Db.blogs d)
                      /\ BlogRow.author_id b = BlogRow.author_id self
                      /\ BlogRow.id b <> BlogRow.id self
                      /\ BlogRow.published b = true) related
  /\ StronglySorted newest_first related
  /\ (exists ordered,
        related = firstn 3 ordered
        /\ Permutation ordered candidates
        /\ StronglySorted newest_first ordered)
  /\ (forall ordered,
        Permutation ordered candidates ->
        StronglySorted newest_first ordered ->
        (length (firstn 3 ordered) <= 3)%nat
        /\ Forall (fun b => In b (Db.blogs d)
                            /\ BlogRow.author_id b = BlogRow.author_id self
                            /\ BlogRow.id b <> BlogRow.id self
                            /\ BlogRow.published b = true) (firstn 3 ordered)
        /\ StronglySorted newest_first (firstn 3 ordered)
        /\ forall b c,
             In b (firstn 3 ordered) -> In c candidates ->
             ~ In c (firstn 3 ordered) ->
             BlogRow.created_at c <= BlogRow.created_at b)
  /\ match App.view_blog (BlogRow.id self) d with
     | App.Page (blog, shown) =>
         (length shown <= 3)%nat
         /\ Forall (fun b => In b (Db.blogs d)
                             /\ BlogRow.author_id b = BlogRow.author_id blog
                             /\ BlogRow.id b <> BlogRow.id self) shown
         /\ forall rows,
              Permutation rows
                (filter (fun b => (BlogRow.author_id b
                                   =? BlogRow.author_id blog)
                                  && negb (BlogRow.id b =? BlogRow.id self))
                        (Db.blogs d)) ->
              (length (firstn 3 rows) <= 3)%nat
              /\ Forall (fun b => In b (Db.blogs d)
                                  /\ BlogRow.author_id b
                                     = BlogRow.author_id blog
                                  /\ BlogRow.id b <> BlogRow.id self)
                        (firstn 3 rows)
     | App.Redirected flashed => flashed = Some (lit "Blog not found.")
     end.
Proof.
  cbv zeta.
  set (sel := fun b => (BlogRow.author_id b =? BlogRow.author_id self)
                       && negb (BlogRow.id b =? BlogRow.id self)
                       && Bool.eqb (BlogRow.published b) true).
  assert (Sel : forall b, sel b = true ->
                  BlogRow.author_id b = BlogRow.author_id self
                  /\ BlogRow.id b <> BlogRow.id self
                  /\ BlogRow.published b = true).
  { intros b S. unfold sel in S.
    apply andb_true_iff in S as [S P]. apply andb_true_iff in S as [Ea Ni].
    apply eqb_prop in P. apply negb_true_iff in Ni.
    split; [lia|]. split; [|exact P].
    intros E. rewrite E, Z.eqb_refl in Ni. discriminate. }
  assert (Any : forall ordered,
             Permutation ordered (filter sel (Db.blogs d)) ->
             (length (firstn 3 ordered) <= 3)%nat
             /\ Forall (fun b => In b (Db.blogs d)
                                 /\ BlogRow.author_id b = BlogRow.author_id self
                                 /\ BlogRow.id b <> BlogRow.id self
                                 /\ BlogRow.published b = true)
                       (firstn 3 ordered)).
  { intros ordered P.
    destruct (limit_of_candidates sel (Db.blogs d) ordered 3 P) as [L F].
    split; [exact L|]. eapply Forall_impl; [|exact F].
    intros b [Ib S]. split; [exact Ib | now apply Sel]. }
  assert (Own : Blog.get_related_blogs self 3 d
                = firstn 3 (Db.order_by Blog.created_desc
                              (filter sel (Db.blogs d)))) by reflexivity.
  rewrite Own.
  destruct (Any _ (order_by_perm Blog.created_desc (filter sel (Db.blogs d))))
    as [L F].
  split; [exact L|]. split; [exact F|].
  split; [apply StronglySorted_take, created_desc_sorted|].
  split.
  { exists (Db.order_by Blog.created_desc (filter sel (Db.blogs d))).
    split; [reflexivity|]. split; [apply order_by_perm|].
    apply created_desc_sorted. }
  split.
  { intros ordered P S. destruct (Any ordered P) as [L' F'].
    split; [exact L'|]. split; [exact F'|].
    split; [now apply StronglySorted_take|].
    intros b c Ib Ic Nc.
    apply (limit_keeps_first
             (fun x y => BlogRow.created_at y <= BlogRow.created_at x)
             3 ordered S b c Ib).
    eapply Permutation_in in Ic; [|symmetry; exact P].
    rewrite <- (firstn_skipn 3 ordered) in Ic.
    apply in_app_or in Ic as [Ic|Ic]; [contradiction | exact Ic]. }
  unfold App.view_blog, Db.limit.
  destruct (find _ (Db.blogs d)) as [blog|]; [|reflexivity].
  set (other := fun b => (BlogRow.author_id b =? BlogRow.author_id blog)
                         && negb (BlogRow.id b =? BlogRow.id self)).
  assert (Rows : forall rows,
             Permutation rows (filter other (Db.blogs d)) ->
             (length (firstn 3 rows) <= 3)%nat
             /\ Forall (fun b => In b (Db.blogs d)
                                 /\ BlogRow.author_id b = BlogRow.author_id blog
                                 /\ BlogRow.id b <> BlogRow.id self)
                       (firstn 3 rows)).
  { intros rows P.
    destruct (limit_of_candidates other (Db.blogs d) rows 3 P) as [L' F'].
    split; [exact L'|]. eapply Forall_impl; [|exact F'].
    intros b [Ib S]. split; [exact Ib|]. unfold other in S.
    apply andb_true_iff in S as [Ea Ni]. apply negb_true_iff in Ni.
    split; [lia|]. intros E. rewrite E, Z.eqb_refl in Ni. discriminate. }
  destruct (Rows _ (Permutation_refl _)) as [L' F'].
  split; [exact L'|]. split; [exact F' | exact Rows].
Qed.

(** C6, as the specification states it, fails: the two related blogs of
    the sample that were created at the same time come with the smaller
    id first.  The statement orders by the creation time alone: it
    allows that order and the opposite one. *)
Lemma related_ties_not_by_descending_id :
  Blog.get_related_blogs Sample.hello 3 Sample.three
    = [Sample.second; Sample.third]
  /\ BlogRow.created_at Sample.second = BlogRow.created_at Sample.third
  /\ BlogRow.id Sample.second < BlogRow.id Sample.third
  /\ Forall (fun ordered =>
               Permutation ordered
                 (filter (fun b => (BlogRow.author_id b
                                    =? BlogRow.author_id Sample.hello)
                                   && negb (BlogRow.id b
                                            =? BlogRow.id Sample.hello)
                                   && Bool.eqb (BlogRow.published b) true)
                         (Db.blogs Sample.three))
               /\ StronglySorted
                    (fun x y => BlogRow.created_at y <= BlogRow.created_at x)
                    ordered)
            [[Sample.second; Sample.third]; [Sample.third; Sample.second]].
Proof.
  split; [reflexivity|]. split; [reflexivity|]. split; [reflexivity|].
  assert (L : BlogRow.created_at Sample.third <= BlogRow.created_at Sample.second
              /\ BlogRow.created_at Sample.second
                 <= BlogRow.created_at Sample.third)
    by (split; discriminate).
  constructor; [|constructor; [|constructor]].
  - split; [apply Permutation_refl|].
    repeat constructor; apply L.
  - split; [apply perm_swap|].
    repeat constructor; apply L.
Qed.

(** ** The submission of a blog *)

Section Submission.

Local Open Scope session_scope.

Lemma session_eta s : Db.committed s = Db.working s -> s = Db.begin (Db.committed s).
Proof. destruct s as [c w]; simpl; intros <-; reflexivity. Qed.

(** The author unit: when it raises nothing is committed, when it returns
    everything is. *)
Lemma find_or_create_author_session name email now s :
  Db.committed s = Db.working s ->
  match App.find_or_create_author name email now s with
  | (inl _, s') => Db.committed s' = Db.committed s
  | (inr _, s') =>
      Db.committed s' = Db.working s'
      /\ Db.blogs (Db.committed s') = Db.blogs (Db.committed s)
  end.
Proof.
  intros C. unfold App.find_or_create_author, Db.mbind, Db.query.
  destruct (find _ (Db.authors (Db.working s))) as [a|].
  - destruct (negb (str_eqb (AuthorRow.name a) name)); simpl.
    + split; [reflexivity | now rewrite C].
    + split; [exact C | reflexivity].
  - unfold Db.lift. destruct (Author.init name email None None) as [e|a];
      [reflexivity|].
    unfold Db.add_author.
    destruct (existsb _ (Db.authors (Db.working s))); [reflexivity|].
    simpl. split; [reflexivity | now rewrite C].
Qed.

(** The blog unit: when it raises nothing is committed; when it returns,
    what the transaction saw is committed with one more blog, of the
    given author. *)
Lemma create_blog_session title content date author now s :
  match App.create_blog title content date author now s with
  | (inl _, s') => Db.committed s' = Db.committed s
  | (inr row, s') =>
      Db.committed s' = Db.working s'
      /\ Db.authors (Db.committed s') = Db.authors (Db.working s)
      /\ Db.blogs (Db.committed s') = Db.blogs (Db.working s) ++ [row]
      /\ BlogRow.author_id row = AuthorRow.id author
  end.
Proof.
  unfold App.create_blog, Db.mbind, Db.lift.
  destruct (Blog.init title content date (AuthorRow.id author) None None
              false true) as [e|b] eqn:E; [reflexivity|].
  unfold Db.add_blog.
  destruct (_ || _); [reflexivity|]. simpl.
  repeat split.
  unfold Blog.init in E.
  destruct (strip title), (strip content); try discriminate.
  destruct (_ <? 5); [discriminate|]. destruct (_ <? 10); [discriminate|].
  now injection E as <-.
Qed.

End Submission.

(** ** The constraints of the schema hold at every commit *)

Section Consistency.

Lemma max_id_bound ids x : In x ids -> x <= fold_right Z.max 0 ids.
Proof.
  induction ids as [|y ids IH]; simpl; [tauto|].
  intros [->|H]; [lia | specialize (IH H); lia].
Qed.

Lemma next_id_fresh ids : ~ In (Db.next_id ids) ids.
Proof. intros H. apply max_id_bound in H. unfold Db.next_id in H. lia. Qed.

Lemma existsb_str_eqb_false {A} (key : A -> str) k l :
  existsb (fun x => str_eqb (key x) k) l = false -> ~ In k (map key l).
Proof.
  intros E H. apply in_map_iff in H as (x & <- & I).
  assert (T : existsb (fun y => str_eqb (key y) (key x)) l = true).
  { apply existsb_exists. exists x. split; [exact I | now apply str_eqb_eq]. }
  congruence.
Qed.

Lemma NoDup_snoc {A} (l : list A) x : NoDup l -> ~ In x l -> NoDup (l ++ [x]).
Proof.
  intros N H. apply NoDup_rev in N. rewrite <- (rev_involutive (l ++ [x])).
  apply NoDup_rev. rewrite rev_app_distr. simpl. constructor; [|exact N].
  now rewrite <- in_rev.
Qed.

(** Replacing the rows of one id by a row of the same id and e-mail
    address. *)
Lemma replace_author_keys a a' l :
  NoDup (map AuthorRow.id l) -> In a l ->
  AuthorRow.id a' = AuthorRow.id a -> AuthorRow.email a' = AuthorRow.email a ->
  let l' := map (fun x => if AuthorRow.id x =? AuthorRow.id a' then a' else x) l in
  map AuthorRow.id l' = map AuthorRow.id l
  /\ map AuthorRow.email l' = map AuthorRow.email l.
Proof.
  intros N I Ei Ee. cbv zeta. rewrite !map_map. split.
  - apply map_ext. intros x.
    destruct (Z.eqb_spec (AuthorRow.id x) (AuthorRow.id a')); [lia | reflexivity].
  - apply map_ext_in. intros x Ix.
    destruct (Z.eqb_spec (AuthorRow.id x) (AuthorRow.id a')) as [E|_];
      [|reflexivity].
    rewrite Ee. f_equal. symmetry.
    clear - N I Ix E Ei. rewrite Ei in E. clear Ei.
    induction l as [|y l IH]; [contradiction|].
    simpl in N. inversion N as [|? ? Ny N']; subst.
    destruct I as [->|I], Ix as [->|Ix]; try reflexivity.
    + exfalso. apply Ny. rewrite <- E. now apply in_map.
    + exfalso. apply Ny. rewrite E. now apply in_map.
    + now apply IH.
Qed.

Lemma find_or_create_author_consistent name email now s :
  Db.consistent (Db.working s) ->
  match App.find_or_create_author name email now s with
  | (inl _, s') => s' = s
  | (inr _, s') => Db.consistent (Db.working s')
  end.
Proof.
  intros (Ni & Ne & Nb & Ns & F).
  unfold App.find_or_create_author, Db.mbind, Db.query.
  destruct (find _ (Db.authors (Db.working s))) as [a|] eqn:Ef.
  - destruct (negb (str_eqb (AuthorRow.name a) name)); simpl;
      [|repeat split; assumption].
    apply find_some in Ef as [I _].
    destruct (replace_author_keys a (AuthorRow.set_name name now a)
                (Db.authors (Db.working s)) Ni I eq_refl eq_refl) as [Ki Ke].
    simpl in Ki, Ke. unfold Db.consistent; simpl.
    rewrite Ki, Ke. repeat split; assumption.
  - unfold Db.lift. destruct (Author.init name email None None) as [e|a];
      [reflexivity|].
    unfold Db.add_author.
    destruct (existsb _ (Db.authors (Db.working s))) eqn:Ex; [reflexivity|].
    apply existsb_str_eqb_false in Ex.
    unfold Db.consistent; simpl. rewrite !map_app; simpl.
    repeat split; try assumption.
    + apply NoDup_snoc; [exact Ni | apply next_id_fresh].
    + apply NoDup_snoc; [exact Ne | exact Ex].
    + eapply Forall_impl; [|exact F]. intros b Hb. apply in_or_app. now left.
Qed.

Lemma create_blog_consistent title content date author now s :
  Db.consistent (Db.working s) ->
  match App.create_blog title content date author now s with
  | (inl _, s') => s' = s
  | (inr _, s') => Db.consistent (Db.working s')
  end.
Proof.
  intros (Ni & Ne & Nb & Ns & F).
  unfold App.create_blog, Db.mbind, Db.lift.
  destruct (Blog.init title content date (AuthorRow.id author) None None
              false true) as [e|b]; [reflexivity|].
  unfold Db.add_blog.
  destruct (existsb (fun x => str_eqb (BlogRow.slug x) (BlogRow.slug b)) _)
    eqn:Ex; [reflexivity|].
  destruct (existsb (fun a => AuthorRow.id a =? BlogRow.author_id b) _)
    eqn:Ea; [|reflexivity].
  simpl. apply existsb_str_eqb_false in Ex.
  apply existsb_exists in Ea as (a & Ia & Eid).
  unfold Db.consistent; simpl. rewrite !map_app; simpl.
  repeat split; try assumption.
  - apply NoDup_snoc; [exact Nb | apply next_id_fresh].
  - apply NoDup_snoc; [exact Ns | exact Ex].
  - apply Forall_app. split; [exact F|]. constructor; [|constructor].
    simpl. apply in_map_iff. exists a. split; [lia | exact Ia].
Qed.

(** Whatever a submission leaves in the store satisfies the constraints
    of the schema, when the store it found did. *)
Lemma add_blog_consistent m f now d :
  Db.consistent d ->
  Db.consistent (snd (Db.run_request (App.add_blog m f now) d)).
Proof.
  intros C. destruct m; [exact C|].
  unfold Db.run_request, App.add_blog, Db.try_except.
  destruct (App.validate_form _ _ _ _ _) as [[|e errors] date]; [|exact C].
  unfold Db.mbind at 1.
  pose proof (find_or_create_author_session (strip (App.author_name f))
                (strip (App.author_email f)) now (Db.begin d) eq_refl) as U1.
  pose proof (find_or_create_author_consistent (strip (App.author_name f))
                (strip (App.author_email f)) now (Db.begin d) C) as K1.
  destruct (App.find_or_create_author _ _ now (Db.begin d))
    as [[e1|author] s1].
  - subst s1. exact C.
  - destruct U1 as [C1 _]. unfold Db.mbind at 1.
    pose proof (create_blog_session (strip (App.blog_title f))
                  (strip (App.blog_content f)) date author now s1) as U2.
    pose proof (create_blog_consistent (strip (App.blog_title f))
                  (strip (App.blog_content f)) date author now s1 K1) as K2.
    destruct (App.create_blog _ _ date author now s1) as [[e2|row] s2].
    + subst s2. simpl. now rewrite C1.
    + destruct U2 as [C2 _]. simpl. now rewrite C2.
Qed.

Example sample_store_consistent : Db.consistent Sample.small.
Proof.
  unfold Db.consistent; simpl.
  repeat split; repeat constructor; simpl; try tauto; intros [[=]|[]].
Qed.

End Consistency.

Example add_blog_publishes :
  let f := App.mk_form (lit " Alice B. ") (lit "alice@example.com")
             (lit "A new title") (lit "Some text, long enough.")
             (lit "01/15/2024") in
  match Db.run_request (App.add_blog App.POST f 20) Sample.small with
  | (inr (App.RedirectToBlogs _), d) =>
      map AuthorRow.name (Db.authors d) = [lit "Alice B."]
      /\ map BlogRow.slug (Db.blogs d) = [lit "hello-world"; lit "a-new-title"]
      /\ map BlogRow.date (Db.blogs d) = [lit "01-01-2024"; lit "15-01-2024"]
      /\ map BlogRow.author_id (Db.blogs d) = [1; 1]
  | _ => False
  end.
Proof. vm_compute. repeat split. Qed.

Example add_blog_shows_errors :
  Db.run_request (App.add_blog App.POST
                    (App.mk_form (lit "B") (lit "bob") (lit "Hi") (lit "short")
                                 (lit "2024-02-30")) 20) Sample.small
  = (inr (App.RenderAddBlog
            [lit "Author name must be at least 2 characters long.";
             lit "Please provide a valid email address.";
             lit "Blog title must be at least 5 characters long.";
             lit "Blog content must be at least 10 characters long.";
             lit "Please provide a valid date."]),
     Sample.small).
Proof. vm_compute. reflexivity. Qed.

(** C3, as the code has it.  The submission is two units of work, each
    committed on its own: the author, found by e-mail address, created or
    renamed; then the blog.  A unit that fails leaves the store as it was
    before that unit: a failure of the author unit leaves the store as
    the request found it, and a failure of the blog unit leaves the store
    as the author unit committed it.  The author unit writes no blog, and
    the blog unit adds one blog of that author and writes no author.  The
    store satisfies the constraints of the schema after the request when
    it did before. *)
Theorem add_blog_two_units (f : App.form) (now : Z) (d : Db.db) :
  let author_name := strip (App.author_name f) in
  let author_email := strip (App.author_email f) in
  let blog_title := strip (App.blog_title f) in
  let blog_content := strip (App.blog_content f) in
  let blog_date := strip (App.blog_date f) in
  Db.run_request (App.add_blog App.POST f now) d =
    match App.validate_form author_name author_email blog_title blog_content
                            blog_date with
    | (e :: errors, _) => (inr (App.RenderAddBlog (e :: errors)), d)
    | ([], blog_date) =>
        match Db.run_request
                (App.find_or_create_author author_name author_email now) d with
        | (inl _, _) => (inr (App.RenderAddBlog [App.failure_message]), d)
        | (inr author, d1) =>
            match Db.run_request
                    (App.create_blog blog_title blog_content blog_date
                                     author now) d1 with
            | (inl _, _) => (inr (App.RenderAddBlog [App.failure_message]), d1)
            | (inr _, d2) =>
                (inr (App.RedirectToBlogs [App.published_message blog_title]),
                 d2)
            end
        end
    end
  /\ (forall name email,
        match Db.run_request (App.find_or_create_author name email now) d with
        | (inl _, d') => d' = d
        | (inr _, d') => Db.blogs d' = Db.blogs d
        end)
  /\ (forall title content date author,
        match Db.run_request (App.create_blog title content date author now) d
        with
        | (inl _, d') => d' = d
        | (inr row, d') =>
            Db.authors d' = Db.authors d
            /\ Db.blogs d' = Db.blogs d ++ [row]
            /\ BlogRow.author_id row = AuthorRow.id author
        end)
  /\ (Db.consistent d ->
      Db.consistent (snd (Db.run_request (App.add_blog App.POST f now) d))).
Proof.
  cbv zeta. split; [|split; [|split; [|apply add_blog_consistent]]].
  - unfold Db.run_request, App.add_blog, Db.try_except.
    destruct (App.validate_form _ _ _ _ _) as [[|e errors] date];
      [|reflexivity].
    unfold Db.mbind at 1.
    pose proof (find_or_create_author_session (strip (App.author_name f))
                  (strip (App.author_email f)) now (Db.begin d) eq_refl) as U1.
    destruct (App.find_or_create_author _ _ now (Db.begin d))
      as [[e1|author] s1].
    + simpl. now rewrite U1.
    + destruct U1 as [C1 _]. unfold Db.mbind at 1.
      rewrite (session_eta s1 C1) at 1.
      pose proof (create_blog_session (strip (App.blog_title f))
                    (strip (App.blog_content f)) date author now
                    (Db.begin (Db.committed s1))) as U2.
      destruct (App.create_blog _ _ date author now
                  (Db.begin (Db.committed s1))) as [[e2|row] s2].
      * simpl. now rewrite U2.
      * reflexivity.
  - intros name email. unfold Db.run_request.
    pose proof (find_or_create_author_session name email now (Db.begin d)
                  eq_refl) as U1.
    destruct (App.find_or_create_author name email now (Db.begin d))
      as [[e1|author] s1]; [exact U1 | exact (proj2 U1)].
  - intros title content date author. unfold Db.run_request.
    pose proof (create_blog_session title content date author now
                  (Db.begin d)) as U2.
    destruct (App.create_blog title content date author now (Db.begin d))
      as [[e2|row] s2]; [exact U2 | exact (proj2 U2)].
Qed.

(** C3, as the specification states it, fails: the sample submission by
    a new author fails at the blog, whose slug is taken, and the store
    keeps the new author, without a blog. *)
Lemma add_blog_keeps_author_without_blog :
  Db.run_request (App.add_blog App.POST Sample.submission 20) Sample.small
  = (inr (App.RenderAddBlog [App.failure_message]),
     Db.mk_db [Sample.alice; Sample.bob] [Sample.hello])
  /\ Db.authors Sample.small = [Sample.alice].
Proof. split; vm_compute; reflexivity. Qed.

(* ================================================================== *)
(** * More of the code: the other routes, filters and methods *)
(* ================================================================== *)

(** ** The pages that list blogs *)

(** The statement of the search page is that of the listing in its
    default order. *)
Lemma search_route_cases (q : option str) (d : Db.db) :
  let query := strip (App.arg q []) in
  let message := lit "An error occurred during search." in
  (query = [] /\ Views.search_blogs q d = App.Redirected None)
  \/ (query <> [] /\ pattern_fits query
      /\ exists shown,
           Views.search_blogs q d = App.Page shown
           /\ App.blogs_try None q d = inr shown)
  \/ (query <> [] /\ ~ pattern_fits query /\ Db.blogs d = []
      /\ Views.search_blogs q d = App.Page []
      /\ App.blogs_try None q d = inr [])
  \/ (query <> [] /\ ~ pattern_fits query /\ Db.blogs d <> []
      /\ Views.search_blogs q d = App.Redirected (Some message)
      /\ App.blogs_try None q d = inl OperationalError).
Proof.
  cbv zeta.
  unfold Views.search_blogs, App.blogs_try, App.filtered_query_try.
  destruct (strip (App.arg q [])) as [|c r] eqn:Q; [left; now split|].
  right.
  assert (N : c :: r <> []) by discriminate.
  destruct (Z.le_gt_cases (Db.utf8_bytes (lit "%" ++ (c :: r) ++ lit "%"))
                          Db.like_pattern_limit) as [F|F].
  - left. split; [exact N|]. split; [exact F|].
    rewrite (where_pure (App.search_filter d (c :: r)) (selects d (c :: r)))
      by (intros b _; now apply search_filter_fits).
    eexists. split; reflexivity.
  - right.
    assert (F' : ~ pattern_fits (c :: r)) by (unfold pattern_fits; lia).
    destruct (Db.blogs d) as [|b l] eqn:B.
    + left. split; [exact N|]. split; [exact F'|]. now repeat split.
    + right. split; [exact N|]. split; [exact F'|]. split; [discriminate|].
      rewrite (where_raises (App.search_filter d (c :: r)) OperationalError)
        by now apply search_filter_too_long.
      now split.
Qed.

(** X1. The page of search results shows what the listing shows for the
    same search text in its default order.  It redirects to the listing
    in two cases: without a message when the stripped text is empty, and
    with the message 'An error occurred during search.' when the
    statement raises, which it does when the pattern of the text is
    beyond the limit of [LIKE] and the table has a blog; the listing
    then shows no blog.  The home page shows the first three blogs of
    the listing. *)
Theorem search_and_index_follow_listing (q : option str) (d : Db.db) :
  let query := strip (App.arg q []) in
  match Views.search_blogs q d with
  | App.Page shown =>
      query <> []
      /\ App.blogs_try None q d = inr shown
      /\ shown = App.blogs None q d
      /\ (pattern_fits query \/ Db.blogs d = [])
  | App.Redirected None => query = []
  | App.Redirected (Some message) =>
      query <> []
      /\ message = lit "An error occurred during search."
      /\ App.blogs_try None q d = inl OperationalError
      /\ App.blogs None q d = []
      /\ ~ pattern_fits query
      /\ Db.blogs d <> []
  end
  /\ Views.index d = firstn 3 (App.blogs None None d)
  /\ (length (Views.index d) <= 3)%nat.
Proof.
  cbv zeta. split; [|split].
  - unfold App.blogs.
    destruct (search_route_cases q d)
      as [[Q ->]|[(Q & F & shown & -> & ->)|[(Q & F & B & -> & ->)
                                            |(Q & F & B & -> & ->)]]].
    + exact Q.
    + repeat split; auto.
    + repeat split; auto.
    + repeat split; auto.
  - reflexivity.
  - unfold Views.index, Db.limit. rewrite length_firstn. lia.
Qed.

(** X2. The page of an author shows the author with the id and all the
    blogs of that author, and no other, the one with the greatest id
    first.  When no author has the id, and only then, the route flashes
    'Author not found.' and redirects to the listing: the error that
    [get_or_404] raises is caught by the route itself, so the answer is
    not the page 404. *)
Theorem view_author_shows_the_authors_blogs (author_id : Z) (d : Db.db) :
  match Views.view_author author_id d with
  | App.Redirected flashed =>
      flashed = Some (lit "Author not found.")
      /\ forall a, In a (Db.authors d) -> AuthorRow.id a <> author_id
  | App.Page (author, shown) =>
      In author (Db.authors d)
      /\ AuthorRow.id author = author_id
      /\ (forall b, In b shown <->
                    In b (Db.blogs d) /\ BlogRow.author_id b = author_id)
      /\ Permutation shown
           (filter (fun b => BlogRow.author_id b =? author_id) (Db.blogs d))
      /\ StronglySorted (fun x y => BlogRow.id y <= BlogRow.id x) shown
  end.
Proof.
  unfold Views.view_author.
  destruct (find _ (Db.authors d)) as [author|] eqn:E.
  - apply find_some in E as [I Eid].
    split; [exact I|]. split; [lia|].
    split; [|split; [apply order_by_perm | apply id_desc_sorted]].
    intros b. split.
    + intros H. eapply Permutation_in in H; [|apply order_by_perm].
      apply filter_In in H. split; [tauto | lia].
    + intros [Ib Ea]. eapply Permutation_in; [symmetry; apply order_by_perm|].
      apply filter_In. split; [exact Ib | lia].
  - split; [reflexivity|].
    intros a Ia Ea. apply (find_none _ _ E) in Ia. lia.
Qed.

(** What [ORDER BY] followed by [LIMIT] returns: the first rows in the
    order, of the rows selected. *)
Lemma limit_order_by_top {A} (leb : A -> A -> bool) n (rows : list A) :
  (forall x y, leb x y = true \/ leb y x = true) ->
  (forall x y z, leb x y = true -> leb y z = true -> leb x z = true) ->
  let shown := Db.limit n (Db.order_by leb rows) in
  (length shown <= n)%nat
  /\ StronglySorted (fun x y => leb x y = true) shown
  /\ exists rest,
       Permutation (shown ++ rest) rows
       /\ forall x y, In x shown -> In y rest -> leb x y = true.
Proof.
  intros T Tr. cbv zeta. unfold Db.limit.
  pose proof (order_by_sorted leb T Tr rows) as S.
  split; [rewrite length_firstn; lia|].
  split; [now apply StronglySorted_take|].
  exists (skipn n (Db.order_by leb rows)). split.
  - rewrite firstn_skipn. apply order_by_perm.
  - intros x y. apply (limit_keeps_first (fun x y => leb x y = true) n _ S).
Qed.

(** X3. The three accessors return at most [limit] blogs, all of them
    published (and featured, for the featured ones), the most recently
    created first (the most viewed first, for the popular ones); a
    published blog that is left out is not more recent (not more viewed)
    than any that is returned. *)
Theorem accessors_return_the_top (limit : nat) (d : Db.db) :
  (let shown := Models.get_featured_blogs limit d in
   (length shown <= limit)%nat
   /\ Forall (fun b => In b (Db.blogs d) /\ BlogRow.featured b = true
                       /\ BlogRow.published b = true) shown
   /\ StronglySorted
        (fun x y => BlogRow.created_at y <= BlogRow.created_at x) shown
   /\ exists rest,
        Permutation (shown ++ rest)
          (filter (fun b => BlogRow.featured b && BlogRow.published b)
                  (Db.blogs d))
        /\ forall x y, In x shown -> In y rest ->
                       BlogRow.created_at y <= BlogRow.created_at x)
  /\ (let shown := Models.get_recent_blogs limit d in
      (length shown <= limit)%nat
      /\ Forall (fun b => In b (Db.blogs d) /\ BlogRow.published b = true)
                shown
      /\ StronglySorted
           (fun x y => BlogRow.created_at y <= BlogRow.created_at x) shown
      /\ exists rest,
           Permutation (shown ++ rest) (filter BlogRow.published (Db.blogs d))
           /\ forall x y, In x shown -> In y rest ->
                          BlogRow.created_at y <= BlogRow.created_at x)
  /\ (let shown := Models.get_popular_blogs limit d in
      (length shown <= limit)%nat
      /\ Forall (fun b => In b (Db.blogs d) /\ BlogRow.published b = true)
                shown
      /\ StronglySorted
           (fun x y => BlogRow.view_count y <= BlogRow.view_count x) shown
      /\ exists rest,
           Permutation (shown ++ rest) (filter BlogRow.published (Db.blogs d))
           /\ forall x y, In x shown -> In y rest ->
                          BlogRow.view_count y <= BlogRow.view_count x).
Proof.
  assert (Tc : forall x y, Blog.created_desc x y = true
                           \/ Blog.created_desc y x = true)
    by (unfold Blog.created_desc; intros; lia).
  assert (Rc : forall x y z, Blog.created_desc x y = true ->
                 Blog.created_desc y z = true -> Blog.created_desc x z = true)
    by (unfold Blog.created_desc; intros; lia).
  assert (Tv : forall x y, Models.views_desc x y = true
                           \/ Models.views_desc y x = true)
    by (unfold Models.views_desc; intros; lia).
  assert (Rv : forall x y z, Models.views_desc x y = true ->
                 Models.views_desc y z = true -> Models.views_desc x z = true)
    by (unfold Models.views_desc; intros; lia).
  assert (Eb : forall b : bool, Bool.eqb b true = b) by (now intros []).
  assert (Sub : forall (sel : BlogRow.t -> bool) leb n b,
            In b (Db.limit n (Db.order_by leb (filter sel (Db.blogs d)))) ->
            In b (Db.blogs d) /\ sel b = true).
  { intros sel leb n b H. apply In_take in H.
    eapply Permutation_in in H; [|apply order_by_perm].
    now apply filter_In in H. }
  cbv zeta. split; [|split].
  - unfold Models.get_featured_blogs.
    rewrite (filter_ext _ (fun b => BlogRow.featured b && BlogRow.published b))
      by (intros b; now rewrite !Eb).
    destruct (limit_order_by_top Blog.created_desc limit
                (filter (fun b => BlogRow.featured b && BlogRow.published b)
                        (Db.blogs d)) Tc Rc) as (L & S & rest & P & K).
    split; [exact L|]. split.
    { apply Forall_forall. intros b H. apply Sub in H as [I E].
      apply andb_true_iff in E. tauto. }
    split.
    { eapply StronglySorted_ind with (P := fun l => StronglySorted _ l);
        [constructor | | exact S].
      intros a l' _ IH F. constructor; [exact IH|].
      eapply Forall_impl; [|exact F]. unfold Blog.created_desc. intros; lia. }
    exists rest. split; [exact P|]. intros x y Hx Hy.
    specialize (K x y Hx Hy). unfold Blog.created_desc in K. lia.
  - unfold Models.get_recent_blogs.
    rewrite (filter_ext _ BlogRow.published) by (intros b; now rewrite Eb).
    destruct (limit_order_by_top Blog.created_desc limit
                (filter BlogRow.published (Db.blogs d)) Tc Rc)
      as (L & S & rest & P & K).
    split; [exact L|]. split.
    { apply Forall_forall. intros b H. now apply Sub in H. }
    split.
    { eapply StronglySorted_ind with (P := fun l => StronglySorted _ l);
        [constructor | | exact S].
      intros a l' _ IH F. constructor; [exact IH|].
      eapply Forall_impl; [|exact F]. unfold Blog.created_desc. intros; lia. }
    exists rest. split; [exact P|]. intros x y Hx Hy.
    specialize (K x y Hx Hy). unfold Blog.created_desc in K. lia.
  - unfold Models.get_popular_blogs.
    rewrite (filter_ext _ BlogRow.published) by (intros b; now rewrite Eb).
    destruct (limit_order_by_top Models.views_desc limit
                (filter BlogRow.published (Db.blogs d)) Tv Rv)
      as (L & S & rest & P & K).
    split; [exact L|]. split.
    { apply Forall_forall. intros b H. now apply Sub in H. }
    split.
    { eapply StronglySorted_ind with (P := fun l => StronglySorted _ l);
        [constructor | | exact S].
      intros a l' _ IH F. constructor; [exact IH|].
      eapply Forall_impl; [|exact F]. unfold Models.views_desc. intros; lia. }
    exists rest. split; [exact P|]. intros x y Hx Hy.
    specialize (K x y Hx Hy). unfold Models.views_desc in K. lia.
Qed.

(** ** The JSON answer of [api_blogs] *)

Lemma blog_author_spec b d :
  match Models.blog_author b d with
  | Some a => In a (Db.authors d) /\ AuthorRow.id a = BlogRow.author_id b
  | None => forall a, In a (Db.authors d) -> AuthorRow.id a <> BlogRow.author_id b
  end.
Proof.
  unfold Models.blog_author.
  destruct (find _ (Db.authors d)) as [a|] eqn:E.
  - apply find_some in E. split; [tauto | lia].
  - intros a Ia Ea. apply (find_none _ _ E) in Ia. lia.
Qed.

Lemma all_entries_spec d : forall l,
  match Views.all_entries d l with
  | Some es =>
      Forall2 (fun b e => Views.api_entry d b = Some e) l es
  | None =>
      exists b, In b l /\ Models.blog_author b d = None
  end.
Proof.
  induction l as [|b l IH]; simpl; [constructor|].
  destruct (Views.api_entry d b) as [e|] eqn:E.
  - destruct (Views.all_entries d l) as [es|].
    + now constructor.
    + destruct IH as (b' & I & N). exists b'. split; [now right | exact N].
  - exists b. split; [now left|]. unfold Views.api_entry in E.
    now destruct (Models.blog_author b d).
Qed.

(** X4. [api_blogs] answers with one entry per blog, the greatest id
    first; an entry carries the id, title and date of its blog, the id,
    name and e-mail address of the author row the blog points to, and the
    content itself when it has at most 200 characters, else its first 200
    characters followed by ["..."], so never more than 203 characters.
    The answer is the failure exactly when a blog points to no author
    row, which the constraints of the schema exclude. *)
Theorem api_blogs_entries (d : Db.db) :
  match Views.api_blogs d with
  | Some entries =>
      Forall2
        (fun b e =>
           Views.api_id e = BlogRow.id b
           /\ Views.api_title e = BlogRow.title b
           /\ Views.api_date e = BlogRow.date b
           /\ (exists a,
                 In a (Db.authors d)
                 /\ AuthorRow.id a = BlogRow.author_id b
                 /\ Views.api_author_id e = AuthorRow.id a
                 /\ Views.api_author_name e = AuthorRow.name a
                 /\ Views.api_author_email e = AuthorRow.email a)
           /\ ((length (BlogRow.content b) <= 200)%nat ->
               Views.api_content e = BlogRow.content b)
           /\ ((200 < length (BlogRow.content b))%nat ->
               Views.api_content e
               = firstn 200 (BlogRow.content b) ++ lit "...")
           /\ (length (Views.api_content e) <= 203)%nat)
        (Db.order_by App.id_desc (Db.blogs d)) entries
      /\ Permutation (map Views.api_id entries) (map BlogRow.id (Db.blogs d))
      /\ StronglySorted (fun x y => y <= x) (map Views.api_id entries)
  | None =>
      exists b, In b (Db.blogs d)
                /\ forall a, In a (Db.authors d) ->
                             AuthorRow.id a <> BlogRow.author_id b
  end
  /\ (Db.consistent d -> Views.api_blogs d <> None).
Proof.
  assert (N : forall b, Models.blog_author b d = None ->
                forall a, In a (Db.authors d) ->
                          AuthorRow.id a <> BlogRow.author_id b).
  { intros b E. pose proof (blog_author_spec b d) as S. now rewrite E in S. }
  unfold Views.api_blogs.
  pose proof (all_entries_spec d (Db.order_by App.id_desc (Db.blogs d))) as S.
  split.
  - destruct (Views.all_entries d _) as [es|].
    + assert (Ids : map Views.api_id es
                    = map BlogRow.id (Db.order_by App.id_desc (Db.blogs d))).
      { induction S as [|b e l es' E _ IH]; [reflexivity|]. simpl.
        rewrite IH. f_equal. unfold Views.api_entry in E.
        destruct (Models.blog_author b d); [|discriminate].
        now injection E as <-. }
      split; [|split].
      * eapply Forall2_impl; [|exact S]. intros b e E.
        unfold Views.api_entry in E.
        pose proof (blog_author_spec b d) as A.
        destruct (Models.blog_author b d) as [a|]; [|discriminate].
        injection E as <-.
        cbn [Views.api_id Views.api_title Views.api_date Views.api_content
             Views.api_author_id Views.api_author_name Views.api_author_email].
        unfold len.
        split; [reflexivity|]. split; [reflexivity|]. split; [reflexivity|].
        split; [exists a; tauto|].
        destruct (Z.gtb_spec (Z.of_nat (length (BlogRow.content b))) 200).
        -- split; [lia|]. rewrite slice_to_nonneg by lia.
           change (Z.to_nat 200) with 200%nat.
           split; [reflexivity|].
           rewrite length_app, length_firstn.
           cbn [length]. lia.
        -- split; [reflexivity|]. split; lia.
      * rewrite Ids. apply Permutation_map, order_by_perm.
      * rewrite Ids. clear S Ids.
        pose proof (id_desc_sorted (Db.blogs d)) as Sd.
        induction Sd as [|b l Sd IH F]; [constructor|]. simpl.
        constructor; [exact IH|]. apply Forall_map. exact F.
    + destruct S as (b & I & E). exists b. split.
      * eapply Permutation_in; [apply order_by_perm | exact I].
      * now apply N.
  - intros (_ & _ & _ & _ & F) E. rewrite E in S.
    destruct S as (b & I & Eb).
    eapply Permutation_in in I; [|apply order_by_perm].
    rewrite Forall_forall in F. apply F in I.
    apply in_map_iff in I as (a & Ea & Ia). now apply (N b Eb a Ia).
Qed.

(** ** The three date functions agree *)

Section DateDisplay.

Import Datetime.

Lemma hyphen_not_decimal c : isdecimal c = true -> Ascii.eqb c "-"%char = false.
Proof.
  destruct c as [[] [] [] [] [] [] [] []]; intros H;
    first [discriminate H | reflexivity].
Qed.

Lemma matches_hyphen_at_digit fmt g c r :
  isdecimal c = true -> matches (Lit "-" :: fmt) g (c :: r) = [].
Proof. intros H. simpl. now rewrite (hyphen_not_decimal c H). Qed.

(** A string that starts with four digits does not match ['%d-%m-%Y']:
    no hyphen follows its first or its second character. *)
Lemma matches_dmY_at_digits g a b c r :
  isdecimal b = true -> isdecimal c = true ->
  matches fmt_dmY g (a :: b :: c :: r) = [].
Proof.
  intros Hb Hc. unfold fmt_dmY.
  change (matches (Dd :: Lit "-" :: [Dm; Lit "-"; DY]) g (a :: b :: c :: r))
    with (flat_map
            (fun '(text, rest) =>
               matches (Lit "-" :: [Dm; Lit "-"; DY]) (set_group Dd text g) rest)
            (match_directive Dd (a :: b :: c :: r))).
  unfold match_directive, one, two.
  repeat match goal with
         | |- context [if ?x then _ else _] => destruct x
         end;
    cbn [app flat_map]; rewrite ?matches_hyphen_at_digit by assumption;
    reflexivity.
Qed.

(** What ['%Y-%m-%d'] reads, ['%d-%m-%Y'] does not. *)
Lemma strptime_Ymd_excludes_dmY s t :
  strptime s fmt_Ymd = inr t -> strptime s fmt_dmY = inl ValueError.
Proof.
  unfold strptime at 1. unfold fmt_Ymd.
  destruct s as [|a [|b [|c [|e r]]]]; try discriminate.
  cbn [matches match_directive].
  destruct (isdecimal a && isdecimal b && isdecimal c && isdecimal e) eqn:D;
    [|discriminate].
  intros _. apply andb_true_iff in D as [D He].
  apply andb_true_iff in D as [D Hc]. apply andb_true_iff in D as [Ha Hb].
  unfold strptime. now rewrite matches_dmY_at_digits.
Qed.

(** What [validate_date] rejects, [format_date] shows as it is: the two
    try the same three formats. *)
Lemma format_date_of_rejected s :
  App.validate_date s = None -> Views.format_date s = s.
Proof.
  unfold App.validate_date, App.validate_date_loop, Views.format_date,
    Views.format_date_loop.
  destruct (strptime s fmt_Ymd) as [e1|t1] eqn:E1; [|discriminate].
  apply strptime_raises in E1 as ->.
  destruct (strptime s fmt_dmY) as [e2|t2] eqn:E2; [|discriminate].
  apply strptime_raises in E2 as ->.
  destruct (strptime s fmt_mdY) as [e3|t3] eqn:E3; [|discriminate].
  apply strptime_raises in E3 as ->. reflexivity.
Qed.

(** The stored text starts with a digit, the long form does not. *)
Lemma dmY_is_not_BdY t : strftime_dmY t <> strftime_BdY t.
Proof.
  intros E.
  assert (H : isdecimal (hd " "%char (strftime_BdY t)) = true).
  { rewrite <- E. apply digit_char_decimal. }
  unfold strftime_BdY, month_name in H.
  destruct (Z.to_nat (month t - 1))
    as [|[|[|[|[|[|[|[|[|[|[|[|[|n]]]]]]]]]]]]]; discriminate H.
Qed.

End DateDisplay.

(** X5. The date functions on one input.  When [validate_date] accepts
    an input, the input stands for one date of the calendar, the stored
    text is what ['%d-%m-%Y'] prints for it, the filter [format_date]
    shows the long form of that date for the input, and
    [Blog.formatted_date] shows the same long form for the stored text.
    For a year from 1000 on [format_date] shows it for the stored text
    too; for a year below 1000 the stored text has a year of fewer than
    four digits, no format of [format_date] reads it, and the filter
    shows the stored text as it is.  When [validate_date] rejects an
    input, [format_date] returns it as it is. *)
Theorem date_functions_agree (s : str) :
  match App.validate_date s with
  | Some stored =>
      exists t,
        Datetime.valid_date (Datetime.year t) (Datetime.month t)
                            (Datetime.day t) = true
        /\ (Datetime.strptime s Datetime.fmt_Ymd = inr t
            \/ Datetime.strptime s Datetime.fmt_dmY = inr t
            \/ Datetime.strptime s Datetime.fmt_mdY = inr t)
        /\ stored = Datetime.strftime_dmY t
        /\ Views.format_date s = Datetime.strftime_BdY t
        /\ Blog.formatted_date stored = Datetime.strftime_BdY t
        /\ (1000 <= Datetime.year t ->
            Views.format_date stored = Datetime.strftime_BdY t)
        /\ (Datetime.year t < 1000 ->
            Views.format_date stored = stored
            /\ stored <> Datetime.strftime_BdY t)
  | None => Views.format_date s = s
  end.
Proof.
  assert (Stored : forall t,
    Datetime.valid_date (Datetime.year t) (Datetime.month t) (Datetime.day t)
      = true ->
    Blog.formatted_date (Datetime.strftime_dmY t) = Datetime.strftime_BdY t
    /\ (1000 <= Datetime.year t ->
        Views.format_date (Datetime.strftime_dmY t) = Datetime.strftime_BdY t)
    /\ (Datetime.year t < 1000 ->
        Views.format_date (Datetime.strftime_dmY t) = Datetime.strftime_dmY t
        /\ Datetime.strftime_dmY t <> Datetime.strftime_BdY t)).
  { intros [y m d] V. simpl in V. cbn [Datetime.year]. split; [|split].
    - now apply formatted_date_of_canonical.
    - intros Y. unfold Views.format_date, Views.format_date_loop.
      now rewrite strptime_of_canonical.
    - intros Y. split.
      + apply format_date_of_rejected. now apply validate_date_short_year.
      + apply dmY_is_not_BdY. }
  remember (Views.format_date s) as shown eqn:F.
  unfold Views.format_date, Views.format_date_loop in F. subst shown.
  unfold App.validate_date, App.validate_date_loop.
  destruct (Datetime.strptime s Datetime.fmt_Ymd) as [e1|t1] eqn:E1.
  - apply strptime_raises in E1 as ->.
    destruct (Datetime.strptime s Datetime.fmt_dmY) as [e2|t2] eqn:E2.
    + apply strptime_raises in E2 as ->.
      destruct (Datetime.strptime s Datetime.fmt_mdY) as [e3|t3] eqn:E3.
      * apply strptime_raises in E3 as ->. reflexivity.
      * pose proof (strptime_valid _ _ _ E3) as V.
        exists t3. destruct (Stored t3 V) as (S1 & S2 & S3).
        do 5 (split; [solve [auto]|]). split; [exact S2 | exact S3].
    + pose proof (strptime_valid _ _ _ E2) as V.
      exists t2. destruct (Stored t2 V) as (S1 & S2 & S3).
        do 5 (split; [solve [auto]|]). split; [exact S2 | exact S3].
  - pose proof (strptime_valid _ _ _ E1) as V.
    rewrite (strptime_Ymd_excludes_dmY s t1 E1).
    exists t1. destruct (Stored t1 V) as (S1 & S2 & S3).
        do 5 (split; [solve [auto]|]). split; [exact S2 | exact S3].
Qed.

(** ** [Blog.date_object] *)

Section DateObject.

Import Datetime.

(** What [validate_date] returns is what ['%d-%m-%Y'] prints for a date
    of the calendar. *)
Lemma validate_date_accepts s stored :
  App.validate_date s = Some stored ->
  exists t, valid_date (year t) (month t) (day t) = true
            /\ stored = strftime_dmY t.
Proof.
  unfold App.validate_date, App.validate_date_loop.
  destruct (strptime s fmt_Ymd) as [e1|t1] eqn:E1.
  - apply strptime_raises in E1 as ->.
    destruct (strptime s fmt_dmY) as [e2|t2] eqn:E2.
    + apply strptime_raises in E2 as ->.
      destruct (strptime s fmt_mdY) as [e3|t3] eqn:E3.
      * apply strptime_raises in E3 as ->. discriminate.
      * intros [= <-]. exists t3. split; [now apply strptime_valid in E3 | easy].
    + intros [= <-]. exists t2. split; [now apply strptime_valid in E2 | easy].
  - intros [= <-]. exists t1. split; [now apply strptime_valid in E1 | easy].
Qed.

Lemma date_object_of_canonical b now y m d :
  valid_date y m d = true ->
  BlogRow.date b = strftime_dmY (mk_datetime y m d) ->
  Models.date_object b now = mk_datetime y m d.
Proof.
  intros V E. pose proof (valid_date_bounds _ _ _ V) as (By & Bm & Bd).
  unfold Models.date_object. rewrite E. unfold strftime_dmY.
  cbn [year month day].
  change (lit "-" ++ pad2 m ++ lit "-" ++ year_digits y)
    with ("-"%char :: pad2 m ++ "-"%char :: year_digits y).
  rewrite split_on_field by apply pad2_no_hyphen.
  rewrite split_on_field by apply pad2_no_hyphen.
  rewrite split_on_last by apply year_digits_no_hyphen.
  rewrite int_year_digits, int_pad2, int_pad2 by lia.
  cbn [bind]. now rewrite new_of_valid.
Qed.

End DateObject.

(** X6. [Blog.date_object] returns the current time or a date of the
    calendar, whatever the column holds.  For a blog whose date went
    through [validate_date] it is never the current time: it is the date
    that the column shows, and formatting it as ['%d-%m-%Y'] gives the
    column back.  That holds for every text [validate_date] returns,
    those with a year below 1000, printed without padding, included:
    for the column ["15-01-999"] the date is 15 January 999. *)
Theorem date_object_reads_the_date (b : BlogRow.t) (now : Datetime.datetime) :
  (Models.date_object b now = now
   \/ Datetime.valid_date (Datetime.year (Models.date_object b now))
                          (Datetime.month (Models.date_object b now))
                          (Datetime.day (Models.date_object b now)) = true)
  /\ (forall s,
       App.validate_date s = Some (BlogRow.date b) ->
       Datetime.valid_date (Datetime.year (Models.date_object b now))
                           (Datetime.month (Models.date_object b now))
                           (Datetime.day (Models.date_object b now)) = true
       /\ Datetime.strftime_dmY (Models.date_object b now) = BlogRow.date b
       /\ Datetime.strftime_BdY (Models.date_object b now)
          = Blog.formatted_date (BlogRow.date b))
  /\ (BlogRow.date b = lit "15-01-999" ->
      App.validate_date (lit "0999-01-15") = Some (BlogRow.date b)
      /\ Models.date_object b now = Datetime.mk_datetime 999 1 15).
Proof.
  split; [|split].
  - unfold Models.date_object.
    destruct (split_on "-" (BlogRow.date b)) as [|dd [|mm [|yy [|x l]]]];
      try (now left).
    destruct (Datetime.int yy) as [e|y]; [now left|].
    destruct (Datetime.int mm) as [e|m]; [now left|].
    destruct (Datetime.int dd) as [e|d]; [now left|].
    cbn [bind].
    destruct (Datetime.new y m d) as [e|t] eqn:N; [now left|].
    apply new_valid in N as [-> V]. now right.
  - intros s A. apply validate_date_accepts in A as ([y m d] & V & E).
    cbn [Datetime.year Datetime.month Datetime.day] in V.
    rewrite (date_object_of_canonical b now y m d V E).
    split; [exact V|]. split; [now rewrite E|].
    rewrite E. symmetry. now apply formatted_date_of_canonical.
  - intros E. split; [now rewrite E|].
    apply (date_object_of_canonical b now 999 1 15); [reflexivity | exact E].
Qed.

(** ** The filter [truncate_words] *)

Lemma split_ws_acc_word w : forall rest cur,
  Forall (fun c => isspace c = false) w ->
  split_ws_acc (w ++ rest) cur = split_ws_acc rest (rev w ++ cur).
Proof.
  induction w as [|c w IH]; intros rest cur F; [reflexivity|].
  inversion F as [|? ? Hc Fw]; subst. cbn [app split_ws_acc]. rewrite Hc.
  rewrite IH by assumption. cbn [rev]. now rewrite <- app_assoc.
Qed.

Lemma join_cons sep p ps :
  ps <> [] -> join sep (p :: ps) = p ++ sep ++ join sep ps.
Proof. destruct ps; [contradiction | reflexivity]. Qed.

(** Splitting what [' '.join] makes of words gives the words back. *)
Lemma split_ws_join ws :
  Forall is_word ws -> split_ws (join (lit " ") ws) = ws.
Proof.
  unfold split_ws. induction 1 as [|w ws [N F] Fws IH]; [reflexivity|].
  assert (R : rev w <> []).
  { intros E. apply N. apply (f_equal (@rev ascii)) in E.
    now rewrite rev_involutive in E. }
  destruct ws as [|w2 ws2].
  - cbn [join]. rewrite <- (app_nil_r w) at 1.
    rewrite split_ws_acc_word by assumption. rewrite app_nil_r.
    cbn [split_ws_acc]. destruct (rev w) eqn:E; [contradiction|].
    now rewrite <- E, rev_involutive.
  - rewrite join_cons by discriminate.
    rewrite split_ws_acc_word by assumption. rewrite app_nil_r.
    change (lit " " ++ join (lit " ") (w2 :: ws2))
      with (" "%char :: join (lit " ") (w2 :: ws2)).
    cbn [split_ws_acc]. change (isspace " "%char) with true. cbv iota.
    destruct (rev w) eqn:E; [contradiction|].
    rewrite <- E, rev_involutive. now rewrite IH.
Qed.

(** Text appended to the joined words goes to the last word. *)
Lemma join_snoc sep x l : forall init,
  join sep (init ++ [l]) ++ x = join sep (init ++ [l ++ x]).
Proof.
  induction init as [|a init IH]; [reflexivity|].
  cbn [app]. rewrite !join_cons by (now destruct init).
  now rewrite <- !app_assoc, IH.
Qed.

Lemma take_nonneg {A} (l : list A) n :
  0 <= n -> Views.take l n = firstn (Z.to_nat n) l.
Proof. intros H. unfold Views.take. destruct (n <? 0) eqn:E; [lia | reflexivity]. Qed.

(** The words of a text cut after its first [k] words, [k] at least 1. *)
Lemma split_ws_truncated k words :
  Forall is_word words -> (0 < k < length words)%nat ->
  length (split_ws (join (lit " ") (firstn k words) ++ lit "...")) = k.
Proof.
  intros F K.
  assert (L : length (firstn k words) = k) by (rewrite length_firstn; lia).
  assert (Fk : Forall is_word (firstn k words)) by now apply Forall_take.
  destruct (exists_last (l := firstn k words)) as (init & l & E).
  { intros E. rewrite E in L. simpl in L. lia. }
  rewrite E in *. rewrite join_snoc.
  apply Forall_app in Fk as [Fi Fl]. inversion Fl as [|? ? [Nl Sl] _]; subst.
  rewrite split_ws_join.
  - rewrite !length_app. reflexivity.
  - apply Forall_app. split; [exact Fi|]. constructor; [|constructor]. split.
    + destruct l; [contradiction | discriminate].
    + apply Forall_app. split; [exact Sl|]. repeat constructor.
Qed.

(** X7. For a length that is not negative, [truncate_words] returns the
    text as it is when it has at most [length] words; otherwise it
    returns the first [length] words of the text, one space between two
    of them, followed by ["..."], which is a text of [length] words (of
    one word, the dots, when [length] is 0).  Applying the filter to its
    own result changes nothing. *)
Theorem truncate_words_shows_first_words (text : str) (n : Z) (H : 0 <= n) :
  let words := split_ws text in
  let shown := Views.truncate_words text n in
  (Z.of_nat (length words) <= n -> shown = text)
  /\ (n < Z.of_nat (length words) ->
      shown = join (lit " ") (firstn (Z.to_nat n) words) ++ lit "..."
      /\ split_ws (join (lit " ") (firstn (Z.to_nat n) words))
         = firstn (Z.to_nat n) words
      /\ Z.of_nat (length (split_ws shown)) = Z.max n 1)
  /\ Views.truncate_words shown n = shown.
Proof.
  cbv zeta.
  pose proof (split_ws_words text) as F.
  assert (Cut : n < Z.of_nat (length (split_ws text)) ->
            Views.truncate_words text n
            = join (lit " ") (firstn (Z.to_nat n) (split_ws text)) ++ lit "...").
  { intros L. unfold Views.truncate_words. cbv zeta.
    destruct (Z.leb_spec (Z.of_nat (length (split_ws text))) n); [lia|].
    now rewrite take_nonneg. }
  assert (Len : n < Z.of_nat (length (split_ws text)) ->
            Z.of_nat (length (split_ws (Views.truncate_words text n)))
            = Z.max n 1).
  { intros L. rewrite (Cut L).
    destruct (Z.eq_dec n 0) as [->|N]; [reflexivity|].
    rewrite split_ws_truncated; [lia | exact F | lia]. }
  split; [|split].
  - intros L. unfold Views.truncate_words. cbv zeta.
    destruct (Z.leb_spec (Z.of_nat (length (split_ws text))) n); [reflexivity | lia].
  - intros L. split; [exact (Cut L)|]. split; [|exact (Len L)].
    apply split_ws_join. now apply Forall_take.
  - destruct (Z.leb_spec (Z.of_nat (length (split_ws text))) n) as [L|L].
    + unfold Views.truncate_words at 2. cbv zeta.
      destruct (Z.leb_spec (Z.of_nat (length (split_ws text))) n); [|lia].
      unfold Views.truncate_words. cbv zeta.
      destruct (Z.leb_spec (Z.of_nat (length (split_ws text))) n); [reflexivity | lia].
    + destruct (Z.eq_dec n 0) as [->|N].
      * rewrite (Cut L). reflexivity.
      * specialize (Len L). unfold Views.truncate_words at 1. cbv zeta.
        destruct (Z.leb_spec
                    (Z.of_nat (length (split_ws (Views.truncate_words text n))))
                    n); [reflexivity | lia].
Qed.

Lemma truncate_words_shows_first_words_witness :
  0 <= 2
  /\ Views.truncate_words (lit "one  two three four") 2 = lit "one two..."
  /\ Views.truncate_words (Views.truncate_words (lit "one  two three four") 2) 2
     = Views.truncate_words (lit "one  two three four") 2.
Proof.
  assert (H : 0 <= 2) by lia.
  split; [exact H|]. split; [reflexivity|].
  apply (truncate_words_shows_first_words (lit "one  two three four") 2 H).
Defined.

(** ** The e-mail pattern *)

Section EmailPattern.

Import Re ReSpec.

Lemma nullable_spec r : nullable r = true <-> lang r [].
Proof.
  split.
  - induction r as [| |p|r1 IH1 r2 IH2|r1 IH1 r2 IH2|r IH]; simpl; intros H;
      try discriminate.
    + constructor.
    + apply andb_true_iff in H as [H1 H2].
      change (@nil ascii) with (@nil ascii ++ []). constructor; auto.
    + apply orb_true_iff in H as [H|H];
        [apply lang_alt_l | apply lang_alt_r]; auto.
    + constructor.
  - intros H. remember [] as s eqn:E.
    induction H; simpl; try reflexivity; try discriminate.
    + apply app_eq_nil in E as [-> ->]. now rewrite IHlang1, IHlang2.
    + now rewrite IHlang.
    + rewrite IHlang by assumption. apply orb_true_r.
Qed.

Lemma lang_never s : ~ lang Never s.
Proof. inversion 1. Qed.

Lemma lang_cat_inv r1 r2 s :
  lang (Cat r1 r2) s <->
  exists s1 s2, s = s1 ++ s2 /\ lang r1 s1 /\ lang r2 s2.
Proof.
  split.
  - inversion 1; subst. now exists s1, s2.
  - intros (s1 & s2 & -> & H1 & H2). now constructor.
Qed.

Lemma lang_alt_inv r1 r2 s : lang (Alt r1 r2) s <-> lang r1 s \/ lang r2 s.
Proof.
  split.
  - inversion 1; subst; tauto.
  - intros [H|H]; [now apply lang_alt_l | now apply lang_alt_r].
Qed.

Lemma cat_spec r1 r2 s : lang (cat r1 r2) s <-> lang (Cat r1 r2) s.
Proof.
  assert (L : forall r, lang (Cat Never r) s <-> lang Never s).
  { intros r. rewrite lang_cat_inv. split.
    - intros (s1 & _ & _ & H & _). now apply lang_never in H.
    - intros H. now apply lang_never in H. }
  assert (R : forall r, lang (Cat r Never) s <-> lang Never s).
  { intros r. rewrite lang_cat_inv. split.
    - intros (_ & s2 & _ & _ & H). now apply lang_never in H.
    - intros H. now apply lang_never in H. }
  destruct r1, r2; simpl; rewrite ?L, ?R; tauto.
Qed.

Lemma alt_spec r1 r2 s : lang (alt r1 r2) s <-> lang (Alt r1 r2) s.
Proof.
  pose proof (lang_never s) as N.
  destruct r1, r2; simpl; rewrite ?lang_alt_inv; tauto.
Qed.

Lemma lang_star_cons_inv r c s :
  lang (Star r) (c :: s) ->
  exists s1 s2, s = s1 ++ s2 /\ lang r (c :: s1) /\ lang (Star r) s2.
Proof.
  intros H. remember (Star r) as r' eqn:Er. remember (c :: s) as cs eqn:Es.
  induction H; try discriminate.
  injection Er as ->. destruct s1 as [|c1 s1].
  - simpl in Es. now apply IHlang2.
  - injection Es as -> <-. now exists s1, s2.
Qed.

(** Reading a character: what is left matches the rest. *)
Lemma deriv_spec r : forall c s, lang (deriv c r) s <-> lang r (c :: s).
Proof.
  induction r as [| |p|r1 IH1 r2 IH2|r1 IH1 r2 IH2|r IH]; intros c s; simpl.
  - split; inversion 1.
  - split; inversion 1.
  - destruct (p c) eqn:E; split; intros H; inversion H; subst.
    + now constructor.
    + constructor.
    + congruence.
  - rewrite alt_spec, lang_alt_inv, cat_spec, !lang_cat_inv. split.
    + intros [(s1 & s2 & -> & H1 & H2)|H].
      * exists (c :: s1), s2. split; [reflexivity|]. split; [now apply IH1|easy].
      * destruct (nullable r1) eqn:N; [|now apply lang_never in H].
        exists [], (c :: s). split; [reflexivity|].
        split; [now apply nullable_spec | now apply IH2].
    + intros ([|c1 s1] & s2 & E & H1 & H2).
      * right. simpl in E. subst s2. apply nullable_spec in H1. rewrite H1.
        now apply IH2.
      * left. injection E as <- ->. exists s1, s2.
        split; [reflexivity|]. split; [now apply IH1 | easy].
  - rewrite alt_spec, !lang_alt_inv, IH1, IH2. tauto.
  - rewrite cat_spec, lang_cat_inv. split.
    + intros (s1 & s2 & -> & H1 & H2). apply IH in H1.
      change (c :: s1 ++ s2) with ((c :: s1) ++ s2). now constructor.
    + intros H. apply lang_star_cons_inv in H as (s1 & s2 & -> & H1 & H2).
      exists s1, s2. split; [reflexivity|]. split; [now apply IH | easy].
Qed.

(** The matcher decides the language. *)
Lemma fullmatch_spec s : forall r, fullmatch r s = true <-> lang r s.
Proof.
  unfold fullmatch. induction s as [|c s IH]; intros r; simpl.
  - apply nullable_spec.
  - rewrite IH. apply deriv_spec.
Qed.

Lemma lang_cls_inv p s : lang (Cls p) s <-> exists c, s = [c] /\ p c = true.
Proof.
  split.
  - inversion 1; subst. now exists c.
  - intros (c & -> & H). now constructor.
Qed.

Lemma lang_star_cls p s :
  lang (Star (Cls p)) s <-> Forall (fun c => p c = true) s.
Proof.
  split.
  - intros H. remember (Star (Cls p)) as r eqn:E.
    induction H; try discriminate; [constructor|].
    injection E as ->. apply lang_cls_inv in H as (c & -> & Hc).
    constructor; [exact Hc | now apply IHlang2].
  - induction 1 as [|c s Hc _ IH]; [constructor|].
    change (c :: s) with ([c] ++ s). constructor; [now constructor | exact IH].
Qed.

Lemma lang_plus_cls p s :
  lang (plus (Cls p)) s <-> s <> [] /\ Forall (fun c => p c = true) s.
Proof.
  unfold plus. rewrite lang_cat_inv. split.
  - intros (s1 & s2 & -> & H1 & H2). apply lang_cls_inv in H1 as (c & -> & Hc).
    apply lang_star_cls in H2. split; [discriminate | now constructor].
  - intros [N F]. destruct F as [|c s Hc F]; [contradiction|].
    exists [c], s. split; [reflexivity|].
    split; [now constructor | now apply lang_star_cls].
Qed.

Lemma lang_at_least_two_cls p s :
  lang (at_least_two (Cls p)) s
  <-> (2 <= length s)%nat /\ Forall (fun c => p c = true) s.
Proof.
  unfold at_least_two. rewrite lang_cat_inv. split.
  - intros (s1 & s2 & -> & H1 & H2). apply lang_cls_inv in H1 as (c & -> & Hc).
    apply (lang_plus_cls p) in H2 as [N F].
    split; [|now constructor]. destruct s2; [contradiction | simpl; lia].
  - intros [L F]. destruct F as [|c s Hc F]; [simpl in L; lia|].
    exists [c], s. split; [reflexivity|]. split; [now constructor|].
    apply (lang_plus_cls p). split; [|exact F].
    destruct s; [simpl in L; lia | discriminate].
Qed.

Lemma lang_char x s : lang (Cls (fun c => Ascii.eqb c x)) s <-> s = [x].
Proof.
  rewrite lang_cls_inv. split.
  - intros (c & -> & H). apply Ascii.eqb_eq in H. now subst.
  - intros ->. exists x. split; [reflexivity | apply Ascii.eqb_refl].
Qed.

Lemma lang_dollar s : lang dollar s <-> s = [] \/ s = [line_feed].
Proof.
  unfold dollar. rewrite lang_alt_inv, lang_cls_inv. split.
  - intros [H|(c & -> & H)]; [inversion H; now left | right].
    f_equal. apply N.eqb_eq in H. unfold code in H.
    rewrite <- (ascii_N_embedding c), H. reflexivity.
  - intros [->| ->]; [left; constructor | right].
    exists line_feed. split; reflexivity.
Qed.

Lemma email_pattern_shape email :
  Re.fullmatch Author.email_pattern email = true <-> email_shape email.
Proof.
  rewrite fullmatch_spec. unfold Author.email_pattern, email_shape.
  cbn [seq]. split.
  - intros H.
    apply lang_cat_inv in H as (local & r1 & -> & Hl & H).
    apply lang_cat_inv in H as (at_ & r2 & -> & Ha & H).
    apply lang_cat_inv in H as (domain & r3 & -> & Hd & H).
    apply lang_cat_inv in H as (dot & r4 & -> & Ho & H).
    apply lang_cat_inv in H as (tld & nl & -> & Ht & Hn).
    apply lang_plus_cls in Hl as [Nl Fl]. apply lang_char in Ha as ->.
    apply lang_plus_cls in Hd as [Nd Fd]. apply lang_char in Ho as ->.
    apply lang_at_least_two_cls in Ht as [Lt Ft]. apply lang_dollar in Hn.
    exists local, domain, tld, nl. repeat split; assumption.
  - intros (local & domain & tld & nl & -> & Nl & Fl & Nd & Fd & Lt & Ft & Hn).
    apply lang_cat. { now apply lang_plus_cls. }
    apply lang_cat. { now apply lang_char. }
    apply lang_cat. { now apply lang_plus_cls. }
    apply lang_cat. { now apply lang_char. }
    apply lang_cat. { now apply lang_at_least_two_cls. }
    now apply lang_dollar.
Qed.

End EmailPattern.

(** X8. The two e-mail checks, of the form and of [Author], accept the
    same addresses: those made of a local part of one or more of the
    ASCII letters, digits and [._%+-], then [@], then one or more of the
    ASCII letters, digits, dots and hyphens, then a dot and two or more
    ASCII letters; one line feed may follow, since [$] also matches just
    before a line feed that ends the string. *)
Theorem validate_email_accepts_shape (email : str) :
  (App.validate_email email = true <-> ReSpec.email_shape email)
  /\ (Author._validate_email email = true <-> ReSpec.email_shape email).
Proof.
  split; apply email_pattern_shape.
Qed.

(** ** The constructors, after the validation of the form *)

Section Constructors.

Import Re ReSpec.

Ltac all_chars c := destruct c as [[] [] [] [] [] [] [] []]; vm_compute.

Lemma lstrip_length s : (length (lstrip s) <= length s)%nat.
Proof.
  induction s as [|c s IH]; simpl; [lia|].
  destruct (isspace c); simpl; lia.
Qed.

Lemma lstrip_idem s : lstrip (lstrip s) = lstrip s.
Proof.
  induction s as [|c s IH]; [reflexivity|]. simpl.
  destruct (isspace c) eqn:E; [exact IH|]. simpl. now rewrite E.
Qed.

(** What [lstrip] removes is white space. *)
Lemma lstrip_split s :
  exists sp, s = sp ++ lstrip s /\ Forall (fun c => isspace c = true) sp.
Proof.
  induction s as [|c s (sp & E & F)]; [now exists []|]. simpl.
  destruct (isspace c) eqn:Ec.
  - exists (c :: sp). split; [simpl; now f_equal | now constructor].
  - now exists [].
Qed.

Lemma lstrip_spaces sp rest :
  Forall (fun c => isspace c = true) sp -> lstrip (sp ++ rest) = lstrip rest.
Proof. induction 1 as [|c sp Hc _ IH]; [reflexivity|]. simpl. now rewrite Hc. Qed.

Lemma lstrip_no_space x :
  Forall (fun c => isspace c = false) x -> lstrip x = x.
Proof. destruct 1 as [|c x Hc _]; [reflexivity|]. simpl. now rewrite Hc. Qed.

(** Stripping on the right leaves the left end as it is. *)
Lemma rstrip_keeps_lstrip x :
  lstrip x = x -> lstrip (rev (lstrip (rev x))) = rev (lstrip (rev x)).
Proof.
  intros Fx. destruct (lstrip_split (rev x)) as (sp & E & _).
  apply (f_equal (@rev ascii)) in E. rewrite rev_involutive, rev_app_distr in E.
  destruct (rev (lstrip (rev x))) as [|c y]; [reflexivity|].
  simpl. destruct (isspace c) eqn:Ec; [|reflexivity].
  exfalso. rewrite E in Fx. simpl in Fx. rewrite Ec in Fx.
  pose proof (lstrip_length (y ++ rev sp)) as L. rewrite Fx in L.
  simpl in L. lia.
Qed.

Lemma strip_idem s : strip (strip s) = strip s.
Proof.
  unfold strip.
  rewrite (rstrip_keeps_lstrip (lstrip s) (lstrip_idem s)).
  now rewrite rev_involutive, lstrip_idem.
Qed.

Lemma isspace_lower c : isspace (lower_char c) = isspace c.
Proof. all_chars c; reflexivity. Qed.

Lemma lstrip_lower s : lstrip (lower s) = lower (lstrip s).
Proof.
  unfold lower. induction s as [|c s IH]; [reflexivity|]. simpl.
  rewrite isspace_lower. now destruct (isspace c).
Qed.

Lemma strip_lower s : strip (lower s) = lower (strip s).
Proof.
  unfold strip. rewrite lstrip_lower. unfold lower.
  rewrite <- map_rev. fold (lower (rev (lstrip s))). rewrite lstrip_lower.
  unfold lower. now rewrite map_rev.
Qed.

(** A text without white space, followed by white space. *)
Lemma strip_no_space x sp :
  Forall (fun c => isspace c = false) x ->
  Forall (fun c => isspace c = true) sp ->
  strip (x ++ sp) = x.
Proof.
  intros Fx Fs. unfold strip.
  assert (R : rev (lstrip (rev x)) = x).
  { rewrite lstrip_no_space by now apply Forall_rev. apply rev_involutive. }
  destruct x as [|c x].
  - simpl. rewrite <- (app_nil_r sp), lstrip_spaces by assumption. reflexivity.
  - inversion Fx as [|? ? Hc Fx']; subst.
    replace (lstrip ((c :: x) ++ sp)) with ((c :: x) ++ sp)
      by (simpl; now rewrite Hc).
    rewrite rev_app_distr, lstrip_spaces by now apply Forall_rev. exact R.
Qed.

End Constructors.

Section ValidatedFields.

Import Re ReSpec.

Ltac all_chars c := destruct c as [[] [] [] [] [] [] [] []]; vm_compute.

Lemma local_char_lower c :
  local_char c = true ->
  local_char (lower_char c) = true /\ isspace (lower_char c) = false.
Proof. all_chars c; intros H; first [discriminate H | split; reflexivity]. Qed.

Lemma domain_char_lower c :
  domain_char c = true ->
  domain_char (lower_char c) = true /\ isspace (lower_char c) = false.
Proof. all_chars c; intros H; first [discriminate H | split; reflexivity]. Qed.

Lemma ascii_letter_lower c :
  ascii_letter c = true ->
  ascii_letter (lower_char c) = true /\ isspace (lower_char c) = false.
Proof. all_chars c; intros H; first [discriminate H | split; reflexivity]. Qed.

Lemma Forall_lower (p : ascii -> bool) s :
  (forall c, p c = true ->
             p (lower_char c) = true /\ isspace (lower_char c) = false) ->
  Forall (fun c => p c = true) s ->
  Forall (fun c => p c = true) (lower s)
  /\ Forall (fun c => isspace c = false) (lower s).
Proof.
  intros P F. unfold lower.
  split; apply Forall_map; (eapply Forall_impl; [|exact F]); intros c Hc;
    now apply P.
Qed.

Lemma lower_idem s : lower (lower s) = lower s.
Proof.
  unfold lower. rewrite map_map. apply map_ext. intros c.
  apply lower_char_idem.
Qed.

(** What [Author.__init__] makes of an address that has the shape: its
    lower case, without the line feed. *)
Lemma email_shape_stored email :
  email_shape email ->
  email_shape (strip (lower email))
  /\ lower (strip (lower email)) = strip (lower email)
  /\ (strip (lower email) = lower email
      \/ lower email = strip (lower email) ++ [line_feed]).
Proof.
  intros (local & domain & tld & nl & -> & Nl & Fl & Nd & Fd & Lt & Ft & Hn).
  destruct (Forall_lower _ local local_char_lower Fl) as [Ll Sl].
  destruct (Forall_lower _ domain domain_char_lower Fd) as [Ld Sd].
  destruct (Forall_lower _ tld ascii_letter_lower Ft) as [Lt' St].
  set (body := lower local ++ lit "@" ++ lower domain ++ lit "." ++ lower tld).
  assert (E : lower (local ++ lit "@" ++ domain ++ lit "." ++ tld ++ nl)
              = body ++ nl).
  { unfold body, lower. rewrite !map_app. rewrite <- !app_assoc.
    destruct Hn as [->| ->]; reflexivity. }
  assert (S : strip (body ++ nl) = body).
  { apply strip_no_space.
    - unfold body. repeat (apply Forall_app; split); try assumption;
        repeat constructor.
    - destruct Hn as [->| ->]; repeat constructor. }
  rewrite E, S. split; [|split].
  - exists (lower local), (lower domain), (lower tld), [].
    unfold body. repeat split; try assumption.
    + now rewrite app_nil_r.
    + intros N. apply Nl. unfold lower in N. now apply map_eq_nil in N.
    + intros N. apply Nd. unfold lower in N. now apply map_eq_nil in N.
    + unfold lower. now rewrite length_map.
    + now left.
  - unfold body. unfold lower at 1. rewrite !map_app.
    fold (lower (lower local)) (lower (lower domain)) (lower (lower tld)).
    now rewrite !lower_idem.
  - destruct Hn as [->| ->]; [left; now rewrite app_nil_r | now right].
Qed.

Lemma author_init_of_valid name email bio avatar_url :
  App.validate_email email = true ->
  exists row,
    Author.init name email bio avatar_url = inr row
    /\ AuthorRow.name row = strip name
    /\ AuthorRow.email row = strip (lower email).
Proof.
  intros V. apply email_pattern_shape in V.
  apply email_shape_stored in V as (V & _). apply email_pattern_shape in V.
  unfold Author.init, Author._validate_email. rewrite V. cbn [negb].
  eexists. split; [reflexivity|]. split; reflexivity.
Qed.

Lemma blog_init_of_long title content date aid slug excerpt featured published :
  5 <= len (strip title) -> 10 <= len (strip content) ->
  Blog.init title content date aid slug excerpt featured published
  = inr (BlogRow.mk 0 (strip title) (strip content) date
           match slug with
           | Some ((_ :: _) as given) => given
           | _ => Blog._generate_slug title
           end
           match excerpt with
           | Some ((_ :: _) as given) => given
           | _ => Blog._generate_excerpt content
           end
           featured published 0 0 0 0 aid).
Proof.
  intros T C. unfold Blog.init. cbv zeta.
  destruct (strip title) as [|t1 tr] eqn:Et; [unfold len in T; simpl in T; lia|].
  destruct (strip content) as [|c1 cr] eqn:Ec; [unfold len in C; simpl in C; lia|].
  destruct (Z.ltb_spec (len (t1 :: tr)) 5); [lia|].
  destruct (Z.ltb_spec (len (c1 :: cr)) 10); [lia|]. reflexivity.
Qed.

(** A form without error message has passed every check. *)
Lemma validate_form_ok name email title content date stored :
  App.validate_form name email title content date = ([], stored) ->
  2 <= len name /\ App.validate_email email = true
  /\ 5 <= len title /\ 10 <= len content
  /\ App.validate_date date = Some stored.
Proof.
  unfold App.validate_form. cbv zeta.
  destruct (negb (App.nonempty name)); [|destruct (Z.ltb_spec (len name) 2)];
  (destruct (negb (App.nonempty email));
   [|destruct (App.validate_email email); cbn [negb]]);
  (destruct (negb (App.nonempty title)); [|destruct (Z.ltb_spec (len title) 5)]);
  (destruct (negb (App.nonempty content));
   [|destruct (Z.ltb_spec (len content) 10)]);
  (destruct (negb (App.nonempty date));
   [|destruct (App.validate_date date) as [[|d1 dr]|]]);
  cbn [app]; intros E; try discriminate E.
  injection E as <-. repeat split; auto.
Qed.

End ValidatedFields.

(** X9. [Author.__init__] returns a row or raises [ValueError], and
    returns a row exactly when the address in lower case and stripped
    passes the check of the e-mail pattern; the row has the stripped name
    and that address.  An address that [validate_email] accepts is
    always accepted: the address of the row is the one given in lower
    case, without its final line feed if it has one; it passes the check
    again, and [lower] and [strip] leave it as it is. *)
Theorem author_init_accepts_valid_email
    (name email : str) (bio avatar_url : option str) :
  match Author.init name email bio avatar_url with
  | inr row =>
      Author._validate_email (strip (lower email)) = true
      /\ AuthorRow.name row = strip name
      /\ AuthorRow.email row = strip (lower email)
  | inl e =>
      e = ValueError /\ Author._validate_email (strip (lower email)) = false
  end
  /\ (App.validate_email email = true ->
      exists row,
        Author.init name email bio avatar_url = inr row
        /\ App.validate_email (AuthorRow.email row) = true
        /\ lower (AuthorRow.email row) = AuthorRow.email row
        /\ strip (AuthorRow.email row) = AuthorRow.email row
        /\ (AuthorRow.email row = lower email
            \/ lower email = AuthorRow.email row ++ [ReSpec.line_feed])).
Proof.
  split.
  - unfold Author.init.
    destruct (Author._validate_email (strip (lower email))); cbn [negb].
    + repeat split.
    + split; reflexivity.
  - intros V.
    destruct (author_init_of_valid name email bio avatar_url V)
      as (row & E & _ & Ee).
    exists row. split; [exact E|]. rewrite Ee.
    apply email_pattern_shape in V.
    destruct (email_shape_stored email V) as (S & L & T).
    split; [now apply email_pattern_shape|]. split; [exact L|].
    split; [apply strip_idem | exact T].
Qed.

(** X10. [Blog.__init__] returns a row exactly when the stripped title
    has at least 5 characters and the stripped content at least 10, and
    raises [ValueError] otherwise.  The row has the stripped title and
    content; without a slug or an excerpt given, its slug and its
    excerpt are generated from the title and the content as they were
    passed.  The fields of a form that [add_blog] has validated, which
    are stripped already, always give a row. *)
Theorem blog_init_accepts_validated_fields
    (title content date : str) (author_id : Z) (slug excerpt : option str)
    (featured published : bool) :
  match Blog.init title content date author_id slug excerpt featured published
  with
  | inr row =>
      5 <= len (strip title) /\ 10 <= len (strip content)
      /\ BlogRow.title row = strip title
      /\ BlogRow.content row = strip content
      /\ BlogRow.date row = date
      /\ BlogRow.author_id row = author_id
      /\ (slug = None -> BlogRow.slug row = Blog._generate_slug title)
      /\ (excerpt = None ->
          BlogRow.excerpt row = Blog._generate_excerpt content)
  | inl e =>
      e = ValueError /\ (len (strip title) < 5 \/ len (strip content) < 10)
  end
  /\ (forall name email form_date stored,
        App.validate_form name email (strip title) (strip content) form_date
        = ([], stored) ->
        exists row,
          Blog.init (strip title) (strip content) stored author_id None None
                    false true = inr row
          /\ BlogRow.title row = strip title
          /\ BlogRow.content row = strip content
          /\ BlogRow.date row = stored
          /\ BlogRow.slug row = Blog._generate_slug (strip title)
          /\ BlogRow.excerpt row = Blog._generate_excerpt (strip content)).
Proof.
  split.
  - destruct (Z.ltb_spec (len (strip title)) 5) as [T|T].
    + unfold Blog.init. cbv zeta.
      destruct (strip title) as [|t1 tr]; [split; [reflexivity | left; exact T]|].
      destruct (strip content) as [|c1 cr];
        [split; [reflexivity | right; unfold len; simpl; lia]|].
      destruct (Z.ltb_spec (len (t1 :: tr)) 5); [|lia].
      split; [reflexivity | now left].
    + destruct (Z.ltb_spec (len (strip content)) 10) as [C|C].
      * unfold Blog.init. cbv zeta.
        destruct (strip title) as [|t1 tr]; [unfold len in T; simpl in T; lia|].
        destruct (strip content) as [|c1 cr];
          [split; [reflexivity | right; exact C]|].
        destruct (Z.ltb_spec (len (t1 :: tr)) 5); [lia|].
        destruct (Z.ltb_spec (len (c1 :: cr)) 10); [|lia].
        split; [reflexivity | now right].
      * rewrite blog_init_of_long by assumption.
        cbn [BlogRow.title BlogRow.content BlogRow.date BlogRow.author_id
             BlogRow.slug BlogRow.excerpt].
        repeat split; try assumption; now intros ->.
  - intros name email form_date stored V.
    apply validate_form_ok in V as (_ & _ & T & C & _).
    eexists. split.
    + apply blog_init_of_long; now rewrite strip_idem.
    + cbn [BlogRow.title BlogRow.content BlogRow.date BlogRow.slug
           BlogRow.excerpt].
      now rewrite !strip_idem.
Qed.

(** ** The author of a submission is looked up by the address as typed *)

Section AuthorLookup.

Local Open Scope session_scope.

Lemma normalise_idem email :
  strip (lower (strip (lower email))) = strip (lower email).
Proof.
  rewrite (strip_lower (strip (lower email))), strip_idem.
  rewrite (strip_lower email), lower_idem. reflexivity.
Qed.

(** The look-up of an address that is not in the stored form finds
    nothing. *)
Lemma lookup_misses email d :
  normalised_emails d -> strip (lower email) <> email ->
  find (fun a => str_eqb (AuthorRow.email a) email) (Db.authors d) = None.
Proof.
  intros N D. destruct (find _ (Db.authors d)) as [a|] eqn:E; [|reflexivity].
  apply find_some in E as [I E]. apply str_eqb_eq in E.
  unfold normalised_emails in N. rewrite Forall_forall in N.
  specialize (N a I). rewrite E in N. contradiction.
Qed.

(** The author unit on an address that is accepted but is not in the
    stored form. *)
Lemma create_author_outcome name email now d :
  normalised_emails d -> App.validate_email email = true ->
  strip (lower email) <> email ->
  Db.run_request (App.find_or_create_author name email now) d
  = if existsb (fun x => str_eqb (AuthorRow.email x) (strip (lower email)))
               (Db.authors d)
    then (inl IntegrityError, d)
    else
      let row :=
        AuthorRow.mk (Db.next_id (map AuthorRow.id (Db.authors d)))
                     (strip name) (strip (lower email)) None None now now in
      (inr row, Db.mk_db (Db.authors d ++ [row]) (Db.blogs d)).
Proof.
  intros N V D.
  unfold Db.run_request, App.find_or_create_author, Db.mbind, Db.query,
    Db.begin. cbn [Db.working Db.committed].
  rewrite (lookup_misses email d N D).
  destruct (author_init_of_valid name email None None V) as (row & E & En & Ee).
  unfold Db.lift. rewrite E. unfold Db.add_author. cbn [Db.working Db.committed].
  rewrite Ee.
  destruct (existsb _ (Db.authors d)); [reflexivity|].
  cbn [Db.commit Db.mret Db.working Db.committed]. cbv zeta.
  unfold AuthorRow.stored. rewrite En, Ee.
  unfold Author.init in E.
  destruct (negb _); [discriminate|]. injection E as <-. reflexivity.
Qed.

End AuthorLookup.

(** X11. In a store whose e-mail addresses are all in lower case and
    stripped, as [Author.__init__] leaves them, a submission under an
    accepted address that is not in that form (one with a capital
    letter) never finds its author: the look-up compares the address as
    typed.  The author unit then creates an author with the address in
    lower case, or fails on the unique constraint, leaving the store as
    it was, when that address is stored already.  So the address works
    once: after the author is created, the author unit fails for every
    later submission under the same address.  The addresses of the store
    stay in the stored form. *)
Theorem capitalised_email_works_once
    (name email : str) (now : Z) (d : Db.db)
    (Hstore : normalised_emails d)
    (Hvalid : App.validate_email email = true)
    (Hcase : strip (lower email) <> email) :
  match Db.run_request (App.find_or_create_author name email now) d with
  | (inr author, d') =>
      (forall a, In a (Db.authors d) ->
                 AuthorRow.email a <> strip (lower email))
      /\ AuthorRow.email author = strip (lower email)
      /\ AuthorRow.name author = strip name
      /\ Db.authors d' = Db.authors d ++ [author]
      /\ Db.blogs d' = Db.blogs d
      /\ normalised_emails d'
      /\ forall name' now',
           Db.run_request (App.find_or_create_author name' email now') d'
           = (inl IntegrityError, d')
  | (inl e, d') =>
      e = IntegrityError /\ d' = d
      /\ exists a, In a (Db.authors d)
                   /\ AuthorRow.email a = strip (lower email)
  end.
Proof.
  rewrite (create_author_outcome name email now d Hstore Hvalid Hcase).
  destruct (existsb _ (Db.authors d)) eqn:Ex.
  - split; [reflexivity|]. split; [reflexivity|].
    apply existsb_exists in Ex as (a & I & E). apply str_eqb_eq in E.
    now exists a.
  - cbv zeta. cbn [AuthorRow.email AuthorRow.name Db.authors Db.blogs].
    assert (N' : normalised_emails
                   (Db.mk_db
                      (Db.authors d ++
                       [AuthorRow.mk (Db.next_id (map AuthorRow.id (Db.authors d)))
                          (strip name) (strip (lower email)) None None now now])
                      (Db.blogs d))).
    { unfold normalised_emails. cbn [Db.authors]. apply Forall_app.
      split; [exact Hstore|]. constructor; [|constructor].
      cbn [AuthorRow.email]. apply normalise_idem. }
    split.
    { intros a I E.
      assert (T : existsb (fun x => str_eqb (AuthorRow.email x)
                                            (strip (lower email)))
                          (Db.authors d) = true).
      { apply existsb_exists. exists a. split; [exact I | now apply str_eqb_eq]. }
      congruence. }
    repeat (split; [reflexivity|]). split; [exact N'|].
    intros name' now'.
    rewrite (create_author_outcome name' email now' _ N' Hvalid Hcase).
    cbn [Db.authors]. rewrite existsb_app. cbn [existsb AuthorRow.email].
    replace (str_eqb (strip (lower email)) (strip (lower email))) with true
      by (symmetry; now apply str_eqb_eq).
    now rewrite orb_true_r.
Qed.

Lemma capitalised_email_works_once_witness :
  normalised_emails Sample.small
  /\ App.validate_email (lit "Bob@Example.com") = true
  /\ strip (lower (lit "Bob@Example.com")) <> lit "Bob@Example.com"
  /\ match Db.run_request
             (App.find_or_create_author (lit "Bob") (lit "Bob@Example.com") 20)
             Sample.small with
     | (inr author, d') =>
         AuthorRow.email author = lit "bob@example.com"
         /\ forall name' now',
              Db.run_request
                (App.find_or_create_author name' (lit "Bob@Example.com") now') d'
              = (inl IntegrityError, d')
     | (inl _, _) => False
     end.
Proof.
  assert (Hs : normalised_emails Sample.small)
    by (repeat constructor).
  assert (Hv : App.validate_email (lit "Bob@Example.com") = true)
    by reflexivity.
  assert (Hc : strip (lower (lit "Bob@Example.com")) <> lit "Bob@Example.com")
    by (vm_compute; discriminate).
  split; [exact Hs|]. split; [exact Hv|]. split; [exact Hc|].
  pose proof (capitalised_email_works_once (lit "Bob") (lit "Bob@Example.com")
                20 Sample.small Hs Hv Hc) as T.
  destruct (Db.run_request _ Sample.small) as [[e|author] d'] eqn:E.
  - vm_compute in E. discriminate E.
  - destruct T as (_ & Ee & _ & _ & _ & _ & Again).
    split; [|exact Again]. rewrite Ee. reflexivity.
Defined.
